(** * Supervillain mail client: sanitizer, sync engine and session discovery

  A shallow embedding of the parts of [static/app.js] and
  [static/mobile/jmap.js] that the specification talks about, of what
  they call and of what calls them (the split tabs, the compose form, the
  plain-text rendering, the JMAP calls and the start of the mobile
  application), followed by the properties proved about them.

  Conventions of the embedding:
  - a JavaScript string is a list of code units, restricted to the
    Latin-1 range ([ascii]); [toLowerCase], [trim] and the regular
    expression classes are the JavaScript ones on that range;
  - the HTML parser and serializer belong to the browser: [sanitizeHtml]
    is modelled on the parsed body (a forest of nodes) and returns the
    forest that [innerHTML] serializes; the children of a [template]
    element stand for its content, which the selectors of the document do
    not enter;
  - a number is an integer; the language holds the integers exactly up to
    2^53, and how it prints the larger ones is left open
    ([numberToString]);
  - an object used as a map is a finite map. [state.splitCounts], whose
    keys are names the user gives to splits, also answers for the names
    every object inherits ([inherited]); [emailCache] and
    [scrollPositions] are keyed by the ids the server gives to emails,
    which are not such names;
  - an [async] function is split at its [await]: the synchronous prefix
    returns the new state together with the requests it issued, and each
    continuation ([then] or [catch]) is a function of its own taking the
    values the closure captured. *)

From Stdlib Require Import List Ascii String ZArith Bool Lia DecimalString.
From stdpp Require Import gmap strings.
Import ListNotations.

Local Open Scope Z_scope.

(** ** Strings *)

Module Text.

Definition str (s : string) : list ascii := list_ascii_of_string s.

Definition code (c : ascii) : N := N_of_ascii c.

Definition between (lo hi : N) (c : ascii) : bool :=
  ((lo <=? code c) && (code c <=? hi))%N.

(** [String.prototype.toLowerCase], one code unit at a time. *)
Definition toLowerChar (c : ascii) : ascii :=
  if between 65 90 c || (between 192 222 c && negb (code c =? 215)%N)
  then ascii_of_N (code c + 32) else c.

Definition toLowerCase (s : list ascii) : list ascii := map toLowerChar s.

(** White space as [trim] and the class [\s] see it. *)
Definition isSpace (c : ascii) : bool :=
  between 9 13 c || (code c =? 32)%N || (code c =? 160)%N.

(** Word characters, for the assertion [\b]. *)
Definition isWord (c : ascii) : bool :=
  between 48 57 c || between 65 90 c || between 97 122 c || (code c =? 95)%N.

Fixpoint trimStart (s : list ascii) : list ascii :=
  match s with
  | [] => []
  | c :: r => if isSpace c then trimStart r else s
  end.

Fixpoint trimEnd (s : list ascii) : list ascii :=
  match s with
  | [] => []
  | c :: r =>
      match trimEnd r with
      | [] => if isSpace c then [] else [c]
      | r' => c :: r'
      end
  end.

Definition trim (s : list ascii) : list ascii := trimEnd (trimStart s).

(** [s.startsWith(p)] *)
Fixpoint startsWith (s p : list ascii) : bool :=
  match p, s with
  | [], _ => true
  | a :: p', b :: s' => Ascii.eqb a b && startsWith s' p'
  | _ :: _, [] => false
  end.

(** [s.includes(p)] *)
Fixpoint includes (s p : list ascii) : bool :=
  startsWith s p ||
  match s with
  | [] => false
  | _ :: r => includes r p
  end.

Definition eqb (a b : list ascii) : bool := bool_decide (a = b).

(** [s.split(sep)] for a separator of one character: never empty. *)
Fixpoint split (sep : ascii) (s : list ascii) : list (list ascii) :=
  match s with
  | [] => [[]]
  | c :: r =>
      if Ascii.eqb c sep then [] :: split sep r
      else match split sep r with
           | p :: ps => (c :: p) :: ps
           | [] => [[c]]
           end
  end.

(** [parts.join(sep)] *)
Fixpoint join (sep : list ascii) (parts : list (list ascii)) : list ascii :=
  match parts with
  | [] => []
  | [p] => p
  | p :: ps => p ++ sep ++ join sep ps
  end.

(** The longest prefix made of characters of a class, and what follows:
    what a greedy [[...]*] consumes. *)
Fixpoint span (p : ascii -> bool) (s : list ascii) : list ascii * list ascii :=
  match s with
  | [] => ([], [])
  | c :: r => if p c then let '(a, b) := span p r in (c :: a, b) else ([], s)
  end.

(** A literal matched at the head of [s], case-insensitively (flag [i]):
    what follows it. *)
Fixpoint matchLit (lit s : list ascii) : option (list ascii) :=
  match lit, s with
  | [], _ => Some s
  | a :: lit', b :: s' =>
      if Ascii.eqb (toLowerChar a) (toLowerChar b) then matchLit lit' s' else None
  | _ :: _, [] => None
  end.

(** [s.replace(/re/g, f)]: [m] matches the expression at the head of its
    argument and returns the replacement and the length of the match
    (never 0 for the expressions of this program); the scan resumes after
    the match, and a character where nothing matches is copied. *)
Fixpoint replaceFrom (m : list ascii -> option (list ascii * nat))
    (skip : nat) (s : list ascii) : list ascii :=
  match s with
  | [] => []
  | c :: r =>
      match skip with
      | S k => replaceFrom m k r
      | O =>
          match m s with
          | Some (out, n) => out ++ replaceFrom m (Nat.pred n) r
          | None => c :: replaceFrom m O r
          end
      end
  end.

Definition replaceAll (m : list ascii -> option (list ascii * nat))
    (s : list ascii) : list ascii :=
  replaceFrom m O s.

(** The length of the match, from what is left after it. *)
Definition consumed (s rest : list ascii) : nat :=
  (length s - length rest)%nat.

(** [p] is a stretch of [s]: what [includes] decides. *)
Definition occursIn (p s : list ascii) : Prop :=
  exists pre post, s = pre ++ p ++ post.

End Text.

(** ** Content sanitizer ([static/app.js]) *)

Module Sanitizer.
Import Text.

Definition colorProps : list (list ascii) :=
  [ str "color"; str "background"; str "background-color";
    str "background-image"; str "outline-color";
    str "text-decoration-color"; str "text-shadow"; str "box-shadow" ].

(** [colorProps.some(cp => propName === cp || propName.startsWith(cp + '-'))] *)
Definition isColorProp (propName : list ascii) : bool :=
  existsb (fun cp => eqb propName cp || startsWith propName (cp ++ str "-"))
          colorProps.

Definition nonEmpty (s : list ascii) : bool :=
  match s with [] => false | _ :: _ => true end.

(** [d.split(':')[0]?.trim().toLowerCase()] *)
Definition propName (d : list ascii) : list ascii :=
  toLowerCase (trim (hd [] (split ":" d))).

(** The callback of [filter] in [stripColorStyles]. *)
Definition keepDeclaration (d : list ascii) : bool :=
  if nonEmpty d then nonEmpty (propName d) && negb (isColorProp (propName d))
  else false.

Definition stripColorStyles (styleString : list ascii) : list ascii :=
  join (str "; ")
       (List.filter keepDeclaration (map trim (split ";" styleString))).

(** *** The regular expressions of [sanitizeStyleContent] *)

Definition expect (c : ascii) (s : list ascii) : option (list ascii) :=
  match s with
  | x :: r => if Ascii.eqb x c then Some r else None
  | [] => None
  end.

Definition isNot (c x : ascii) : bool := negb (Ascii.eqb x c).

(** An optional [c] at the head. *)
Definition optional (c : ascii) (s : list ascii) : list ascii :=
  match expect c s with Some r => r | None => s end.

(** [/@import\b[^;]*;?/gi] *)
Definition reImport (s : list ascii) : option (list ascii * nat) :=
  match matchLit (str "@import") s with
  | Some r1 =>
      if match r1 with c :: _ => isWord c | [] => false end then None
      else
        let r2 := snd (span (isNot ";") r1) in
        Some ([], consumed s (optional ";" r2))
  | None => None
  end.

(** [/lit\s*<open>[^<close>]*<close>/gi]: [@font-face {...}], [url(...)]
    and [expression(...)]. *)
Definition reBracket (lit : list ascii) (open close : ascii)
    (s : list ascii) : option (list ascii * nat) :=
  match matchLit lit s with
  | Some r1 =>
      match expect open (snd (span isSpace r1)) with
      | Some r2 =>
          match expect close (snd (span (isNot close) r2)) with
          | Some r3 => Some ([], consumed s r3)
          | None => None
          end
      | None => None
      end
  | None => None
  end.

(** [/lit\s*:[^;]+;?/gi]: [-moz-binding] and [behavior]. *)
Definition reDeclaration (lit : list ascii) (s : list ascii)
    : option (list ascii * nat) :=
  match matchLit lit s with
  | Some r1 =>
      match expect ":" (snd (span isSpace r1)) with
      | Some r2 =>
          let '(v, r3) := span (isNot ";") r2 in
          if nonEmpty v then Some ([], consumed s (optional ";" r3)) else None
      | None => None
      end
  | None => None
  end.

Definition sanitizeStyleContent (css : list ascii) : list ascii :=
  let css := replaceAll reImport css in
  let css := replaceAll (reBracket (str "@font-face") "{" "}") css in
  let css := replaceAll (reBracket (str "url") "(" ")") css in
  let css := replaceAll (reBracket (str "expression") "(" ")") css in
  let css := replaceAll (reDeclaration (str "-moz-binding")) css in
  let css := replaceAll (reDeclaration (str "behavior")) css in
  css.

(** *** [scopeStyleToEmailBody] *)

Definition selectorChar (c : ascii) : bool :=
  isNot "{" c && isNot "}" c && isNot "@" c.

(** The callback: [selectors] is the group of the match. *)
Definition scopeSelectors (selectors : list ascii) : list ascii :=
  if startsWith (trim selectors) (str "@") then selectors ++ str "{"
  else
    join (str ", ")
         (map (fun s => str "#email-body " ++ s)
              (List.filter (fun s => (0 <? length s)%nat)
                           (map trim (split "," selectors))))
    ++ str " {".

(** [/([^{}@]+)\{/g] *)
Definition reRule (s : list ascii) : option (list ascii * nat) :=
  let '(selectors, rest) := span selectorChar s in
  if nonEmpty selectors then
    match expect "{" rest with
    | Some _ => Some (scopeSelectors selectors, S (length selectors))
    | None => None
    end
  else None.

Definition scopeStyleToEmailBody (css : list ascii) : list ascii :=
  replaceAll reRule css.

(** *** The document *)

Definition Attr : Type := list ascii * list ascii.

(** A node of the parsed body. The children of a [template] element stand
    for its content: a fragment of its own, which [querySelectorAll] on the
    document does not enter and [innerHTML] writes out. *)
#[local] Unset Elimination Schemes.
Inductive Node : Type :=
| TextNode (data : list ascii)
| Element (tag : list ascii) (attrs : list Attr) (children : list Node).
#[local] Set Elimination Schemes.

Definition isTemplate (tag : list ascii) : bool := eqb tag (str "template").

Definition dangerousTags : list (list ascii) :=
  [ str "script"; str "iframe"; str "object"; str "embed"; str "form";
    str "input"; str "button"; str "meta"; str "base"; str "link";
    str "svg"; str "math" ].

(** Whether the selector [tag] selects the node. *)
Definition selects (tag : list ascii) (n : Node) : bool :=
  match n with
  | TextNode _ => false
  | Element t _ _ => eqb t tag
  end.

(** [doc.querySelectorAll(tag).forEach(el => el.remove())]: every element
    of that tag the selector reaches goes, with all it contains. *)
Fixpoint removeIn (tag : list ascii) (n : Node) : Node :=
  match n with
  | TextNode d => TextNode d
  | Element t a ch =>
      Element t a
        (if isTemplate t then ch
         else flat_map (fun c => if selects tag c then [] else [removeIn tag c]) ch)
  end.

Definition removeAll (tag : list ascii) (nodes : list Node) : list Node :=
  flat_map (fun c => if selects tag c then [] else [removeIn tag c]) nodes.

Definition removeDangerous (nodes : list Node) : list Node :=
  fold_left (fun doc tag => removeAll tag doc) dangerousTags nodes.

(** The getter of [textContent]. *)
Fixpoint textContent (n : Node) : list ascii :=
  match n with
  | TextNode d => d
  | Element _ _ ch => concat (map textContent ch)
  end.

(** The setter of [textContent]: one text node, or none for the empty
    string. *)
Definition setTextContent (s : list ascii) : list Node :=
  if nonEmpty s then [TextNode s] else [].

(** [doc.querySelectorAll('style').forEach(el => el.textContent = ...)] *)
Fixpoint sanitizeStyle (n : Node) : Node :=
  match n with
  | TextNode d => TextNode d
  | Element t a ch =>
      if eqb t (str "style")
      then Element t a
             (setTextContent
                (scopeStyleToEmailBody
                   (sanitizeStyleContent (concat (map textContent ch)))))
      else Element t a (if isTemplate t then ch else map sanitizeStyle ch)
  end.

Definition hasAttribute (name : list ascii) (el : list Attr) : bool :=
  existsb (fun a => eqb (fst a) name) el.

Definition removeAttribute (name : list ascii) (el : list Attr) : list Attr :=
  List.filter (fun a => negb (eqb (fst a) name)) el.

Fixpoint setAttribute (name value : list ascii) (el : list Attr) : list Attr :=
  match el with
  | [] => [(name, value)]
  | a :: r =>
      if eqb (fst a) name then (fst a, value) :: r
      else a :: setAttribute name value r
  end.

Definition urlAttrs : list (list ascii) :=
  [ str "href"; str "src"; str "action"; str "xlink:href"; str "formaction" ].

Definition isScriptUrl (value : list ascii) : bool :=
  startsWith value (str "javascript:") || startsWith value (str "vbscript:").

Definition isNonImageData (value : list ascii) : bool :=
  startsWith value (str "data:") && negb (startsWith value (str "data:image/")).

(** The body of [attrs.forEach(attr => ...)]: [el] is the attribute list
    of the element as it stands, [attr] the entry of the snapshot. *)
Definition sanitizeAttr (el : list Attr) (attr : Attr) : list Attr :=
  let name := toLowerCase (fst attr) in
  let value := toLowerCase (snd attr) in
  if startsWith name (str "on") then removeAttribute (fst attr) el
  else
    let el :=
      if existsb (eqb name) urlAttrs then
        let el := if isScriptUrl value then removeAttribute (fst attr) el else el in
        if isNonImageData value then removeAttribute (fst attr) el else el
      else el in
    if eqb name (str "style") then
      if includes value (str "expression") || includes value (str "javascript")
      then removeAttribute (fst attr) el
      else
        let cleaned := stripColorStyles (snd attr) in
        if nonEmpty cleaned then setAttribute (str "style") cleaned el
        else removeAttribute (str "style") el
    else el.

Definition dropLegacyColors (el : list Attr) : list Attr :=
  let el := if hasAttribute (str "bgcolor") el
            then removeAttribute (str "bgcolor") el else el in
  if hasAttribute (str "color") el then removeAttribute (str "color") el else el.

Definition sanitizeAttributes (el : list Attr) : list Attr :=
  let el := dropLegacyColors el in
  fold_left sanitizeAttr el el.

(** [doc.querySelectorAll('*').forEach(el => ...)] *)
Fixpoint sanitizeElement (n : Node) : Node :=
  match n with
  | TextNode d => TextNode d
  | Element t a ch =>
      Element t (sanitizeAttributes a)
        (if isTemplate t then ch else map sanitizeElement ch)
  end.

(** [doc.querySelectorAll('a[href]')] *)
Definition targetBlank (tag : list ascii) (el : list Attr) : list Attr :=
  if eqb tag (str "a") && hasAttribute (str "href") el
  then setAttribute (str "rel") (str "noopener noreferrer")
         (setAttribute (str "target") (str "_blank") el)
  else el.

Fixpoint openInNewTab (n : Node) : Node :=
  match n with
  | TextNode d => TextNode d
  | Element t a ch =>
      Element t (targetBlank t a)
        (if isTemplate t then ch else map openInNewTab ch)
  end.

(** [sanitizeHtml], from the parsed body to the forest it serializes. *)
Definition sanitizeHtml (body : list Node) : list Node :=
  map openInNewTab
      (map sanitizeElement (map sanitizeStyle (removeDangerous body))).

(** [sanitizeHtml] from string to string, [parse] being what [DOMParser]
    makes of the string and [serialize] what [innerHTML] writes: both are
    the browser's. *)
Definition sanitize (parse : list ascii -> list Node)
    (serialize : list Node -> list ascii) (html : list ascii) : list ascii :=
  serialize (sanitizeHtml (parse html)).

(** *** What the properties are stated with *)

(** The declarations of a style string: its pieces between semicolons,
    trimmed, the empty ones left out. *)
Definition declarations (styleString : list ascii) : list (list ascii) :=
  List.filter nonEmpty (map trim (split ";" styleString)).

(** How a browser reads the scheme of the URL in an attribute: its URL
    parser drops the leading C0 controls and spaces and every tab and
    newline, and schemes are compared without case. *)
Definition isC0OrSpace (c : ascii) : bool := (code c <=? 32)%N.

Definition isTabOrNewline (c : ascii) : bool :=
  (code c =? 9)%N || (code c =? 10)%N || (code c =? 13)%N.

Fixpoint dropWhileC0 (s : list ascii) : list ascii :=
  match s with
  | c :: r => if isC0OrSpace c then dropWhileC0 r else s
  | [] => []
  end.

Definition urlInput (value : list ascii) : list ascii :=
  List.filter (fun c => negb (isTabOrNewline c)) (dropWhileC0 value).

Definition resolvesToScript (value : list ascii) : bool :=
  isScriptUrl (toLowerCase (urlInput value)).


(** What the parser guarantees of the attributes of an element, as far as
    the loop of [sanitizeHtml] depends on it: no name occurs twice, and the
    [style] attribute is spelled in lower case. *)
Definition styleSpelled (a : Attr) : bool :=
  implb (eqb (toLowerCase (fst a)) (str "style")) (eqb (fst a) (str "style")).

Definition parsedAttrs (el : list Attr) : bool :=
  bool_decide (NoDup (map fst el)) && forallb styleSpelled el.

Fixpoint parsed (n : Node) : bool :=
  match n with
  | TextNode _ => true
  | Element _ el ch => parsedAttrs el && forallb parsed ch
  end.

(** What the loop leaves in the place of one attribute of such an element:
    nothing, the attribute, or the cleaned [style]. *)
Definition sanitizedAttr (a : Attr) : list Attr :=
  let name := toLowerCase (fst a) in
  let value := toLowerCase (snd a) in
  if startsWith name (str "on") then []
  else if existsb (eqb name) urlAttrs && (isScriptUrl value || isNonImageData value)
  then []
  else if eqb name (str "style") then
    if includes value (str "expression") || includes value (str "javascript") then []
    else
      let cleaned := stripColorStyles (snd a) in
      if nonEmpty cleaned then [(fst a, cleaned)] else []
  else [a].

(** What the tests of [sanitizeAttr] look for. An attribute whose name
    begins with the prefix of the event handlers. *)
Definition isEventHandler (a : Attr) : bool :=
  startsWith (toLowerCase (fst a)) (str "on").

(** An attribute of the class of [href], [src] and [action] whose value, as
    written, begins in any case with [javascript:], [vbscript:], or [data:]
    other than [data:image/]. *)
Definition hasScriptScheme (a : Attr) : bool :=
  existsb (eqb (toLowerCase (fst a))) urlAttrs
  && (isScriptUrl (toLowerCase (snd a)) || isNonImageData (toLowerCase (snd a))).

Definition executable (a : Attr) : bool := isEventHandler a || hasScriptScheme a.

(** No element of tag [tag] in the tree, the content of the templates
    left aside. *)
Fixpoint without (tag : list ascii) (n : Node) : bool :=
  match n with
  | TextNode _ => true
  | Element t _ ch =>
      negb (eqb t tag) && (isTemplate t || forallb (without tag) ch)
  end.

(** No executable attribute on any element of the tree, the content of
    the templates left aside. *)
Fixpoint inert (n : Node) : bool :=
  match n with
  | TextNode _ => true
  | Element t el ch =>
      forallb (fun a => negb (executable a)) el
      && (isTemplate t || forallb inert ch)
  end.

(** No element of a dangerous tag and no executable attribute in the
    tree, the content of the templates left aside. *)
Definition safeNode (n : Node) : bool :=
  forallb (fun tag => without tag n) dangerousTags && inert n.

End Sanitizer.

(** ** Sync and cache engine ([static/app.js]) *)

Module Engine.
Import Text.

Inductive View : Type := ListView | DetailView | ComposeView.

(** An email of the list or of the detail cache. [fromEmail] is
    [from[0]?.email]; [body] is present on a fetched detail. *)
Record Email : Type := mkEmail {
  id : list ascii;
  fromEmail : option (list ascii);
  receivedAt : Z;
  isUnread : bool;
  isFlagged : bool;
  body : option (list ascii)
}.

Record Mailbox : Type := mkMailbox {
  mailboxId : list ascii;
  role : option (list ascii)
}.

(** What [pushUndo] stores. *)
Record UndoEntry : Type := mkUndo {
  action : list ascii;
  emailId : list ascii;
  emailData : option Email;
  insertIndex : Z;
  timestamp : Z
}.

(** What the detail pane shows: nothing yet, the fields of a list item
    ([renderEmailDetailPartial]) or a full email ([renderEmailDetail]). *)
Inductive Pane : Type :=
| Blank
| Partial (listItem : Email)
| Full (email : Email).

(** The requests of [api(method, path)]. *)
Inductive Request : Type :=
| GetEmails (mailbox : list ascii) (offset : nat)
            (split : option (list ascii)) (search : list ascii)
| GetEmail (email : list ascii)
| PostAction (email type : list ascii)
| PostMove (email mailbox : list ascii)
| PostUnsubscribe (email : list ascii).

#[global] Instance Email_eq_dec : EqDecision Email.
Proof. solve_decision. Defined.

(** A value of [state.splitCounts]: a number, as the server sends it, or
    the string [+=] makes of a value that is no number. The numbers are
    integers, which the model adds exactly and the language does below
    2^53. *)
Inductive Count : Type :=
| Number (n : Z)
| Text (s : list ascii).

Definition CACHE_LIMIT : nat := 150.
Definition REFILL_THRESHOLD : nat := 100.

(** The global [state] with the module-level [emailCache],
    [scrollPositions] and [refillInFlight], and what the detail pane of
    the page holds. [undoStack] has the end of the array at its head:
    [push] is a cons and [pop] takes the head. *)
Record State : Type := mkState {
  view : View;
  mailboxes : list Mailbox;
  currentMailbox : option Mailbox;
  emails : list Email;
  selectedIndex : Z;
  currentEmail : option Email;
  searchQuery : list ascii;
  undoStack : list UndoEntry;
  splits : list (list ascii);
  currentSplit : option (list ascii);
  splitCounts : gmap (list ascii) Count;
  emailCache : gmap (list ascii) Email;
  scrollPositions : gmap (list ascii) Z;
  refillInFlight : bool;
  detailPane : Pane;
  bodyScrollTop : Z
}.

Definition set_view (x : View) (st : State) : State :=
  mkState x (mailboxes st) (currentMailbox st) (emails st) (selectedIndex
    st) (currentEmail st) (searchQuery st) (undoStack st) (splits st)
    (currentSplit st) (splitCounts st) (emailCache st) (scrollPositions st)
    (refillInFlight st) (detailPane st) (bodyScrollTop st).

Definition set_emails (x : list Email) (st : State) : State :=
  mkState (view st) (mailboxes st) (currentMailbox st) x (selectedIndex st)
    (currentEmail st) (searchQuery st) (undoStack st) (splits st)
    (currentSplit st) (splitCounts st) (emailCache st) (scrollPositions st)
    (refillInFlight st) (detailPane st) (bodyScrollTop st).

Definition set_selectedIndex (x : Z) (st : State) : State :=
  mkState (view st) (mailboxes st) (currentMailbox st) (emails st) x
    (currentEmail st) (searchQuery st) (undoStack st) (splits st)
    (currentSplit st) (splitCounts st) (emailCache st) (scrollPositions st)
    (refillInFlight st) (detailPane st) (bodyScrollTop st).

Definition set_currentEmail (x : option Email) (st : State) : State :=
  mkState (view st) (mailboxes st) (currentMailbox st) (emails st)
    (selectedIndex st) x (searchQuery st) (undoStack st) (splits st)
    (currentSplit st) (splitCounts st) (emailCache st) (scrollPositions st)
    (refillInFlight st) (detailPane st) (bodyScrollTop st).

Definition set_undoStack (x : list UndoEntry) (st : State) : State :=
  mkState (view st) (mailboxes st) (currentMailbox st) (emails st)
    (selectedIndex st) (currentEmail st) (searchQuery st) x (splits st)
    (currentSplit st) (splitCounts st) (emailCache st) (scrollPositions st)
    (refillInFlight st) (detailPane st) (bodyScrollTop st).

Definition set_splitCounts (x : gmap (list ascii) Count) (st : State) : State :=
  mkState (view st) (mailboxes st) (currentMailbox st) (emails st)
    (selectedIndex st) (currentEmail st) (searchQuery st) (undoStack st)
    (splits st) (currentSplit st) x (emailCache st) (scrollPositions st)
    (refillInFlight st) (detailPane st) (bodyScrollTop st).

Definition set_emailCache (x : gmap (list ascii) Email) (st : State) : State :=
  mkState (view st) (mailboxes st) (currentMailbox st) (emails st)
    (selectedIndex st) (currentEmail st) (searchQuery st) (undoStack st)
    (splits st) (currentSplit st) (splitCounts st) x (scrollPositions st)
    (refillInFlight st) (detailPane st) (bodyScrollTop st).

Definition set_scrollPositions (x : gmap (list ascii) Z) (st : State) : State :=
  mkState (view st) (mailboxes st) (currentMailbox st) (emails st)
    (selectedIndex st) (currentEmail st) (searchQuery st) (undoStack st)
    (splits st) (currentSplit st) (splitCounts st) (emailCache st) x
    (refillInFlight st) (detailPane st) (bodyScrollTop st).

Definition set_refillInFlight (x : bool) (st : State) : State :=
  mkState (view st) (mailboxes st) (currentMailbox st) (emails st)
    (selectedIndex st) (currentEmail st) (searchQuery st) (undoStack st)
    (splits st) (currentSplit st) (splitCounts st) (emailCache st)
    (scrollPositions st) x (detailPane st) (bodyScrollTop st).

Definition set_detailPane (x : Pane) (st : State) : State :=
  mkState (view st) (mailboxes st) (currentMailbox st) (emails st)
    (selectedIndex st) (currentEmail st) (searchQuery st) (undoStack st)
    (splits st) (currentSplit st) (splitCounts st) (emailCache st)
    (scrollPositions st) (refillInFlight st) x (bodyScrollTop st).

Definition set_bodyScrollTop (x : Z) (st : State) : State :=
  mkState (view st) (mailboxes st) (currentMailbox st) (emails st)
    (selectedIndex st) (currentEmail st) (searchQuery st) (undoStack st)
    (splits st) (currentSplit st) (splitCounts st) (emailCache st)
    (scrollPositions st) (refillInFlight st) (detailPane st) x.
Definition len (st : State) : Z := Z.of_nat (length (emails st)).

(** [state.emails.find(e => e.id === emailId)] *)
Definition findEmail (emailId : list ascii) (l : list Email) : option Email :=
  List.find (fun e => eqb (id e) emailId) l.

(** [array.indexOf(x)]: objects are compared by identity. The object is the
    first of the list with its [id] ([find] returned it), so the first
    position holding an equal record is the position of the object. *)
Fixpoint indexOfFrom (i : Z) (x : Email) (l : list Email) : Z :=
  match l with
  | [] => -1
  | e :: r => if bool_decide (e = x) then i else indexOfFrom (i + 1) x r
  end.

Definition indexOf (x : option Email) (l : list Email) : Z :=
  match x with
  | Some e => indexOfFrom 0 e l
  | None => -1
  end.

(** [array.splice(start, 0, x)] *)
Definition spliceIn (start : Z) (x : Email) (l : list Email) : list Email :=
  let n := Z.of_nat (length l) in
  let k := Z.to_nat (if start <? 0 then Z.max (n + start) 0 else Z.min start n) in
  firstn k l ++ x :: skipn k l.

(** [array.filter(e => e.id !== emailId)] *)
Definition withoutId (emailId : list ascii) (l : list Email) : list Email :=
  List.filter (fun e => negb (eqb (id e) emailId)) l.

Definition isInbox (m : Mailbox) : bool :=
  bool_decide (role m = Some (str "inbox")).

(** A string that is neither [null] nor empty. *)
Definition truthy (s : option (list ascii)) : bool :=
  match s with
  | Some (_ :: _) => true
  | _ => false
  end.

(** [state.splitCounts] is a plain object: a name it has no property for
    is looked up in [Object.prototype], whose functions these are. *)
Definition objectPrototype : list (list ascii) :=
  [ str "constructor"; str "hasOwnProperty"; str "isPrototypeOf";
    str "propertyIsEnumerable"; str "toLocaleString"; str "toString";
    str "valueOf"; str "__defineGetter__"; str "__defineSetter__";
    str "__lookupGetter__"; str "__lookupSetter__" ].

(** The string [+] makes of such a function, as V8 and JavaScriptCore
    print it: [constructor] is the function [Object]. *)
Definition functionText (name : list ascii) : list ascii :=
  str "function "
  ++ (if eqb name (str "constructor") then str "Object" else name)
  ++ str "() { [native code] }".

(** The inherited value of a name, as a string. The object that
    [__proto__] reads is left out: the assignment of a string to
    [__proto__] changes nothing. *)
Definition inherited (key : list ascii) : option (list ascii) :=
  if existsb (eqb key) objectPrototype then Some (functionText key) else None.

(** [String(n)] for an integer. *)
Definition numberText (n : Z) : list ascii :=
  str (NilEmpty.string_of_int (Z.to_int n)).

(** [if (counts[key] != null) counts[key] += delta] *)
Definition bump (key : list ascii) (delta : Z) (counts : gmap (list ascii) Count)
    : gmap (list ascii) Count :=
  match counts !! key with
  | Some (Number n) => <[key := Number (n + delta)]> counts
  | Some (Text s) => <[key := Text (s ++ numberText delta)]> counts
  | None =>
      match inherited key with
      | Some text => <[key := Text (text ++ numberText delta)]> counts
      | None => counts
      end
  end.

Definition adjustSplitCounts (delta : Z) (st : State) : State :=
  let counts := bump (str "all") delta (splitCounts st) in
  let counts :=
    match currentSplit st with
    | Some s =>
        if truthy (Some s) && negb (eqb s (str "all")) then bump s delta counts
        else counts
    | None => counts
    end in
  set_splitCounts counts st.

(** The query of [buildEmailListUrl]. *)
Definition buildEmailListUrl (mailbox : list ascii) (offset : nat)
    (search : list ascii) (st : State) : Request :=
  let inInbox := match currentMailbox st with
                 | Some m => isInbox m
                 | None => false
                 end in
  let split :=
    if inInbox && truthy (currentSplit st)
       && negb (bool_decide (currentSplit st = Some (str "all")))
       && (0 <? length (splits st))%nat
    then currentSplit st else None in
  GetEmails mailbox offset split search.

(** [maybeRefillEmails] up to its [await]. *)
Definition maybeRefillEmails (st : State) : State * list Request :=
  if refillInFlight st || (REFILL_THRESHOLD <=? length (emails st))%nat then (st, [])
  else
    match currentMailbox st with
    | None => (st, [])
    | Some m =>
        (set_refillInFlight true st,
         [buildEmailListUrl (mailboxId m) (length (emails st)) (searchQuery st) st])
    end.

(** [maybeRefillEmails] when the page [fresh] arrives; [mailbox] and
    [search] are the values captured before the request. *)
Definition maybeRefillEmails_then (mailbox search : list ascii)
    (fresh : list Email) (st : State) : State :=
  let st :=
    if negb (bool_decide (mailboxId <$> currentMailbox st = Some mailbox))
       || negb (eqb (searchQuery st) search)
    then st
    else
      let existingIds : gset (list ascii) := list_to_set (map id (emails st)) in
      let newEmails :=
        List.filter (fun e => negb (bool_decide (id e ∈ existingIds))) fresh in
      if (0 <? length newEmails)%nat
      then set_emails (emails st ++ newEmails) st
      else st in
  set_refillInFlight false st.

Definition maybeRefillEmails_catch (st : State) : State :=
  set_refillInFlight false st.

Definition saveScrollPosition (st : State) : State :=
  match view st, currentEmail st with
  | DetailView, Some e =>
      set_scrollPositions (<[id e := bodyScrollTop st]> (scrollPositions st)) st
  | _, _ => st
  end.

Definition showView (v : View) (st : State) : State :=
  let st := match view st, v with
            | DetailView, DetailView => st
            | DetailView, _ => saveScrollPosition st
            | _, _ => st
            end in
  set_view v st.

(** [renderEmailDetail] *)
Definition renderEmailDetail (st : State) : State :=
  match currentEmail st with
  | Some e => set_detailPane (Full e) st
  | None => st
  end.

(** [state.emails.findIndex(e => e.id === id)] as a position, if any. *)
Fixpoint findIndex (emailId : list ascii) (l : list Email) : option nat :=
  match l with
  | [] => None
  | e :: r => if eqb (id e) emailId then Some O else S <$> findIndex emailId r
  end.

(** The requests of [prefetchAdjacentEmails]. *)
Definition prefetchAdjacentEmails (st : State) : list Request :=
  match currentEmail st with
  | None => []
  | Some cur =>
      match findIndex (id cur) (emails st) with
      | None => []
      | Some idx =>
          flat_map
            (fun i =>
               match nth_error (emails st) (idx + i) with
               | Some target =>
                   match emailCache st !! id target with
                   | Some _ => []
                   | None => [GetEmail (id target)]
                   end
               | None => []
               end)
            [1; 2; 3]%nat
      end
  end.

(** [prefetchAdjacentEmails]: the [then] of one of its requests. *)
Definition prefetch_then (target : list ascii) (email : Email) (st : State) : State :=
  set_emailCache (<[target := email]> (emailCache st)) st.

(** [loadEmailDetail] up to its [await]. *)
Definition loadEmailDetail (emailId : list ascii) (st : State)
    : State * list Request :=
  let st := saveScrollPosition st in
  match emailCache st !! emailId with
  | Some cached =>
      let st := set_currentEmail (Some cached) st in
      let st := renderEmailDetail st in
      let st := set_bodyScrollTop (default 0 (scrollPositions st !! emailId)) st in
      let st := showView DetailView st in
      (st, prefetchAdjacentEmails st)
  | None =>
      let st :=
        match findEmail emailId (emails st) with
        | Some listItem =>
            let st := set_currentEmail (Some listItem) st in
            let st := set_detailPane (Partial listItem) st in
            showView DetailView st
        | None => st
        end in
      (st, [GetEmail emailId])
  end.

(** [loadEmailDetail] when the fetch of [emailId] resolves with [email]. *)
Definition loadEmailDetail_then (emailId : list ascii) (email : Email)
    (st : State) : State * list Request :=
  let st := set_emailCache (<[emailId := email]> (emailCache st)) st in
  let st :=
    if bool_decide (id <$> currentEmail st = Some emailId) then
      let st := set_currentEmail (Some email) st in
      let st := renderEmailDetail st in
      set_bodyScrollTop 0 st
    else st in
  let st := showView DetailView st in
  (st, prefetchAdjacentEmails st).

Definition pushUndo (action emailId : list ascii) (emailData : option Email)
    (insertIndex now : Z) (st : State) : State :=
  set_undoStack (mkUndo action emailId emailData insertIndex now :: undoStack st) st.

Definition clampSelection (st : State) : State :=
  if len st <=? selectedIndex st
  then set_selectedIndex (Z.max 0 (len st - 1)) st
  else st.

Definition removeEmailFromList (emailId : list ascii) (st : State)
    : State * list Request :=
  let st := set_emails (withoutId emailId (emails st)) st in
  let st := clampSelection st in
  maybeRefillEmails st.

(** [emailAction] up to its [await]: the state, the requests, and the
    [removedEmail] and [removedIndex] its [catch] will use. [now] is
    [Date.now()]. *)
Definition emailAction (type emailId : list ascii) (now : Z) (st : State)
    : State * list Request * (option Email * Z) :=
  let label := if eqb type (str "archive") then str "Archived" else str "Trashed" in
  let removedEmail := findEmail emailId (emails st) in
  let removedIndex := indexOf removedEmail (emails st) in
  let st := pushUndo (toLowerCase label) emailId removedEmail removedIndex now st in
  let '(st, reqs) := removeEmailFromList emailId st in
  let st := adjustSplitCounts (-1) st in
  (st, reqs ++ [PostAction emailId type], (removedEmail, removedIndex)).

(** The [catch] of [emailAction]. *)
Definition emailAction_catch (removedEmail : option Email) (removedIndex : Z)
    (st : State) : State :=
  let st := set_undoStack (tail (undoStack st)) st in
  let st :=
    match removedEmail with
    | Some e => set_emails (spliceIn removedIndex e (emails st)) st
    | None => st
    end in
  adjustSplitCounts 1 st.

(** [performUndo] up to its [await]: the state, the requests, and the
    popped entry for its [catch]. *)
Definition performUndo (st : State) : State * list Request * option UndoEntry :=
  match undoStack st with
  | [] => (st, [], None)
  | item :: rest =>
      let st := set_undoStack rest st in
      let st :=
        match emailData item with
        | Some e =>
            let idx := Z.min (insertIndex item) (len st) in
            let st := set_emails (spliceIn idx e (emails st)) st in
            set_selectedIndex idx st
        | None => st
        end in
      let st := adjustSplitCounts 1 st in
      let reqs :=
        match List.find isInbox (mailboxes st) with
        | Some inbox => [PostMove (emailId item) (mailboxId inbox)]
        | None => []
        end in
      (st, reqs, Some item)
  end.

(** The [catch] of [performUndo]. *)
Definition performUndo_catch (item : UndoEntry) (st : State) : State :=
  let st :=
    match emailData item with
    | Some _ => set_emails (withoutId (emailId item) (emails st)) st
    | None => st
    end in
  adjustSplitCounts (-1) st.

Definition moveSelection (delta : Z) (st : State) : State * list Request :=
  let newIndex := selectedIndex st + delta in
  if (newIndex <? 0) || (len st <=? newIndex) then (st, [])
  else
    let st := set_selectedIndex newIndex st in
    match view st, nth_error (emails st) (Z.to_nat (selectedIndex st)) with
    | DetailView, Some e => loadEmailDetail (id e) st
    | _, _ => (st, [])
    end.

Definition moveToTop (st : State) : State := set_selectedIndex 0 st.

Definition moveToBottom (st : State) : State :=
  set_selectedIndex (Z.max 0 (len st - 1)) st.

(** [state.emails[state.selectedIndex]] *)
Definition selected (st : State) : option Email :=
  if selectedIndex st <? 0 then None
  else nth_error (emails st) (Z.to_nat (selectedIndex st)).

Definition getSelectedEmailId (st : State) : option (list ascii) :=
  match view st, currentEmail st with
  | DetailView, Some e => Some (id e)
  | _, _ => id <$> selected st
  end.

Definition goToNextEmail (st : State) : State * list Request :=
  if len st =? 0 then maybeRefillEmails (showView ListView st)
  else
    let nextIndex := Z.min (selectedIndex st) (len st - 1) in
    let st := set_selectedIndex nextIndex st in
    let '(st, reqs) :=
      match selected st with
      | Some nextEmail => loadEmailDetail (id nextEmail) st
      | None => (showView ListView st, [])
      end in
    let '(st, reqs') := maybeRefillEmails st in
    (st, reqs ++ reqs').

(** [e.from[0]?.email?.toLowerCase() === senderEmail] *)
Definition fromSender (senderEmail : list ascii) (e : Email) : bool :=
  bool_decide (toLowerCase <$> fromEmail e = Some senderEmail).

(** Stable insertion by [receivedAt], newest first: the order
    [sort((a, b) => new Date(b.receivedAt) - new Date(a.receivedAt))]
    produces. *)
Fixpoint insertByDate (x : Email) (l : list Email) : list Email :=
  match l with
  | [] => [x]
  | e :: r => if receivedAt e <=? receivedAt x then x :: l else e :: insertByDate x r
  end.

Definition sortByDate (l : list Email) : list Email :=
  fold_right insertByDate [] l.

(** [unsubscribeAndArchiveAll] up to its [await]: the state, the requests
    and the [removedEmails] its [catch] will use. *)
Definition unsubscribeAndArchiveAll (st : State)
    : State * list Request * list Email :=
  match getSelectedEmailId st with
  | Some (c :: i) =>
      let id' := c :: i in
      let email := match findEmail id' (emails st) with
                   | Some e => Some e
                   | None => currentEmail st
                   end in
      let senderEmail := toLowerCase <$> (email ≫= fromEmail) in
      let '(st, removedEmails) :=
        match senderEmail with
        | Some (c' :: s') =>
            let sender := c' :: s' in
            let removedEmails := List.filter (fromSender sender) (emails st) in
            let st := set_emails
                        (List.filter (fun e => negb (fromSender sender e)) (emails st))
                        st in
            (clampSelection st, removedEmails)
        | _ => (st, [])
        end in
      let '(st, reqs) :=
        match view st with
        | DetailView => goToNextEmail st
        | _ => (st, [])
        end in
      (st, reqs ++ [PostUnsubscribe id'], removedEmails)
  | _ => (st, [], [])
  end.

Definition unsubscribeAndArchiveAll_catch (removedEmails : list Email)
    (st : State) : State :=
  if (0 <? length removedEmails)%nat
  then set_emails (sortByDate (emails st ++ removedEmails)) st
  else st.

(** *** Runs and invariants the properties are stated with *)

(** Archiving the emails [ids] one after the other, every call of the
    server succeeding (nothing runs after the [await] then). *)
Fixpoint archiveEach (ids : list (list ascii)) (now : Z) (st : State) : State :=
  match ids with
  | [] => st
  | i :: r => archiveEach r now (fst (fst (emailAction (str "archive") i now st)))
  end.

(** [n] undos in a row, every move succeeding. *)
Fixpoint undoTimes (n : nat) (st : State) : State :=
  match n with
  | O => st
  | S k => undoTimes k (fst (fst (performUndo st)))
  end.

(** The selection is a position of the list, or 0 in an empty list. *)
Definition inBounds (st : State) : Prop :=
  if len st =? 0 then selectedIndex st = 0
  else 0 <= selectedIndex st <= len st - 1.

(** No two emails of the list share an id. *)
Definition distinctIds (l : list Email) : Prop := NoDup (map id l).

(** A count that is a number the language adds to exactly. *)
Definition exactCount (v : Count) : bool :=
  match v with
  | Number n => Z.abs n <? 2 ^ 53
  | Text _ => false
  end.

(** The counts are such numbers, and the split in use has a count or has
    not the name of a function every object inherits. *)
Definition plainCounts (st : State) : Prop :=
  map_Forall (fun _ v => exactCount v = true) (splitCounts st)
  /\ forall s, currentSplit st = Some s ->
       splitCounts st !! s = None -> inherited s = None.

End Engine.

(** ** Session discovery ([static/mobile/jmap.js]) *)

Module Jmap.
Import Text.

(** What [resp.json()] can resolve to. *)
#[local] Unset Elimination Schemes.
Inductive Json : Type :=
| JNull
| JBool (b : bool)
| JNum (n : Z)
| JStr (s : list ascii)
| JArr (items : list Json)
| JObj (members : list (list ascii * Json)).
#[local] Set Elimination Schemes.

(** The classes of [Error] the module throws, and the [TypeError] of the
    language for a property read on [null] or [undefined]. *)
Inductive Error : Type :=
| JmapAuthError (message : list ascii)
| JmapNetworkError (message : list ascii)
| TypeError.

Record Response : Type := mkResponse {
  status : Z;
  json : option Json
}.

(** [fetch] rejects with a message or resolves with a response. *)
Inductive Fetched : Type :=
| Rejected (message : list ascii)
| Resolved (resp : Response).

Record Session : Type := mkSession {
  username : list ascii;
  token : list ascii;
  apiUrl : option Json;
  accountId : option Json;
  uploadUrl : Json;
  downloadUrl : Json
}.

(** [resp.ok] *)
Definition ok (resp : Response) : bool :=
  (200 <=? status resp) && (status resp <=? 299).

(** [data.key] and [data[key]]: [None] is [undefined]; the read throws on
    [null]. *)
Definition get (key : list ascii) (data : Json) : Error + option Json :=
  match data with
  | JNull => inl TypeError
  | JObj members => inr (snd <$> List.find (fun m => eqb (fst m) key) members)
  | _ => inr None
  end.

Definition truthy (v : option Json) : bool :=
  match v with
  | None | Some JNull | Some (JBool false) => false
  | Some (JNum n) => negb (n =? 0)
  | Some (JStr s) => negb (bool_decide (s = []))
  | Some _ => true
  end.

(** [v || null] *)
Definition orNull (v : option Json) : Json :=
  match v with
  | Some j => if truthy v then j else JNull
  | None => JNull
  end.

Definition decimal (n : Z) : list ascii :=
  str (NilEmpty.string_of_int (Z.to_int n)).

(** [connect(username, token)], given what [fetch] did. *)
Definition connect (username token : list ascii) (fetched : Fetched)
    : Error + Session :=
  match fetched with
  | Rejected message => inl (JmapNetworkError (str "Network error: " ++ message))
  | Resolved resp =>
      if (status resp =? 401) || (status resp =? 403)
      then inl (JmapAuthError (str "Invalid token"))
      else if negb (ok resp)
      then inl (JmapNetworkError
                  (str "Connection failed (" ++ decimal (status resp) ++ str ")"))
      else
        match json resp with
        | None => inl (JmapNetworkError (str "Invalid JSON in session response"))
        | Some data =>
            match get (str "apiUrl") data with
            | inl e => inl e
            | inr api =>
                match get (str "primaryAccounts") data with
                | inl e => inl e
                | inr None => inl TypeError
                | inr (Some accounts) =>
                    match get (str "urn:ietf:params:jmap:mail") accounts with
                    | inl e => inl e
                    | inr account =>
                        match get (str "uploadUrl") data,
                              get (str "downloadUrl") data with
                        | inr up, inr down =>
                            inr (mkSession username token api account
                                           (orNull up) (orNull down))
                        | inl e, _ | _, inl e => inl e
                        end
                    end
                end
            end
        end
  end.

(** The class of an error, as [instanceof] tells them apart. *)
Inductive ErrorClass : Type := AuthClass | NetworkClass | TypeErrorClass.

Definition classOf (e : Error) : ErrorClass :=
  match e with
  | JmapAuthError _ => AuthClass
  | JmapNetworkError _ => NetworkClass
  | TypeError => TypeErrorClass
  end.

End Jmap.

(** ** Sample data for the scenarios *)

Module Sample.
Import Text Engine.

Definition email (name : string) (received : Z) : Email :=
  mkEmail (str name) (Some (str "sender@example.org")) received true false None.

Definition inbox : Mailbox := mkMailbox (str "mb-inbox") (Some (str "inbox")).
Definition sent : Mailbox := mkMailbox (str "mb-sent") (Some (str "sent")).

(** The list view of [mailbox] holding [l], nothing selected beyond the
    first row, nothing cached, no undo recorded. *)
Definition listing (mailbox : Mailbox) (l : list Email) : State :=
  mkState ListView [inbox; sent] (Some mailbox) l 0 None [] [] [] None
          ∅ ∅ ∅ false Blank 0.

Definition a : Email := email "a" 50.
Definition b : Email := email "b" 40.
Definition c : Email := email "c" 30.
Definition d : Email := email "d" 20.
Definition e : Email := email "e" 10.

End Sample.

(** ** Mailboxes, split tabs and the selected row ([static/app.js]) *)

Module Navigation.
Import Text Engine.

Definition set_currentMailbox (x : option Mailbox) (st : State) : State :=
  mkState (view st) (mailboxes st) x (emails st) (selectedIndex st)
    (currentEmail st) (searchQuery st) (undoStack st) (splits st)
    (currentSplit st) (splitCounts st) (emailCache st) (scrollPositions st)
    (refillInFlight st) (detailPane st) (bodyScrollTop st).

Definition set_searchQuery (x : list ascii) (st : State) : State :=
  mkState (view st) (mailboxes st) (currentMailbox st) (emails st)
    (selectedIndex st) (currentEmail st) x (undoStack st) (splits st)
    (currentSplit st) (splitCounts st) (emailCache st) (scrollPositions st)
    (refillInFlight st) (detailPane st) (bodyScrollTop st).

Definition set_currentSplit (x : option (list ascii)) (st : State) : State :=
  mkState (view st) (mailboxes st) (currentMailbox st) (emails st)
    (selectedIndex st) (currentEmail st) (searchQuery st) (undoStack st)
    (splits st) x (splitCounts st) (emailCache st) (scrollPositions st)
    (refillInFlight st) (detailPane st) (bodyScrollTop st).

(** The calls of this part of the program: those of [Engine], and the
    counts of the split tabs. *)
Inductive Call : Type :=
| Api (request : Request)
| GetSplitCounts (mailbox : list ascii).

(** [loadEmails] up to its [await]. *)
Definition loadEmails (st : State) : State * list Request :=
  match currentMailbox st with
  | None => (st, [])
  | Some m => (st, [buildEmailListUrl (mailboxId m) 0 (searchQuery st) st])
  end.

(** [loadEmails] when its page arrives. *)
Definition loadEmails_then (response : list Email) (st : State) : State :=
  set_selectedIndex 0 (set_emails response st).

(** [state.currentMailbox?.role !== 'inbox' || state.splits.length === 0] *)
Definition noTabs (st : State) : bool :=
  negb (match currentMailbox st with
        | Some m => isInbox m
        | None => false
        end)
  || (length (splits st) =? 0)%nat.

(** [loadSplitCounts] up to its [await]. *)
Definition loadSplitCounts (st : State) : list Call :=
  if noTabs st then []
  else match currentMailbox st with
       | Some m => [GetSplitCounts (mailboxId m)]
       | None => []
       end.

Definition selectSplit (splitId : option (list ascii)) (st : State)
    : State * list Request :=
  loadEmails (set_currentSplit splitId st).

(** [['all', ...state.splits.map(s => s.id)]] *)
Definition allTabs (st : State) : list (list ascii) :=
  str "all" :: splits st.

(** [allTabs.indexOf(x)] *)
Fixpoint indexOfTab (i : Z) (x : list ascii) (tabs : list (list ascii)) : Z :=
  match tabs with
  | [] => -1
  | t :: r => if eqb t x then i else indexOfTab (i + 1) x r
  end.

Definition tabIndex (x : option (list ascii)) (tabs : list (list ascii)) : Z :=
  match x with
  | Some s => indexOfTab 0 s tabs
  | None => -1
  end.

(** [tabs[i]]: [undefined] out of range. *)
Definition tabAt (tabs : list (list ascii)) (i : Z) : option (list ascii) :=
  if i <? 0 then None else nth_error tabs (Z.to_nat i).

(** [%] of the language: the remainder has the sign of the dividend. *)
Definition cycleSplit (direction : Z) (st : State) : State * list Request :=
  if noTabs st then (st, [])
  else
    let tabs := allTabs st in
    let currentIdx := tabIndex (currentSplit st) tabs in
    let n := Z.of_nat (length tabs) in
    let newIdx := Z.rem (currentIdx + direction + n) n in
    selectSplit (tabAt tabs newIdx) st.

Definition selectSplitByIndex (index : Z) (st : State) : State * list Request :=
  if noTabs st then (st, [])
  else
    let tabs := allTabs st in
    if (0 <=? index) && (index <? Z.of_nat (length tabs))
    then selectSplit (tabAt tabs index) st
    else (st, []).

Definition selectMailbox (mailbox : Mailbox) (st : State) : State * list Call :=
  let st := set_currentMailbox (Some mailbox) st in
  let st := set_searchQuery [] st in
  let st := set_currentSplit (if isInbox mailbox then Some (str "all") else None) st in
  let st := set_splitCounts ∅ st in
  let '(st, reqs) := loadEmails st in
  (st, map Api reqs ++ (if isInbox mailbox then loadSplitCounts st else [])).

(** [handleSearchKeyDown] on [Enter], [value] being the text of the input. *)
Definition submitSearch (value : list ascii) (st : State) : State * list Request :=
  loadEmails (set_searchQuery value st).

Definition openSelected (st : State) : State * list Request :=
  match selected st with
  | Some email => loadEmailDetail (id email) st
  | None => (st, [])
  end.

(** [actionSelected] up to the [await] of its [emailAction]: the state, the
    requests in the order they are sent, and what the [catch] of the action
    will use. *)
Definition actionSelected (type : list ascii) (now : Z) (st : State)
    : State * list Request * option (option Email * Z) :=
  match getSelectedEmailId st with
  | Some (c :: i) =>
      let '(st, reqs, removed) := emailAction type (c :: i) now st in
      match view st with
      | DetailView =>
          let '(st, reqs') := goToNextEmail st in
          (st, reqs ++ reqs', Some removed)
      | _ => (st, reqs, Some removed)
      end
  | _ => (st, [], None)
  end.

(** A request for a page of the list, as [maybeRefillEmails] and
    [loadEmails] send it. *)
Definition isListRequest (r : Request) : bool :=
  match r with
  | GetEmails _ _ _ _ => true
  | _ => false
  end.

End Navigation.

(** ** Orders of the list the properties are stated with *)

Module Order.
Import Text Engine.

(** Newest first: no email is older than one that follows it. *)
Fixpoint newestFirst (l : list Email) : bool :=
  match l with
  | [] => true
  | e :: r => forallb (fun x => receivedAt x <=? receivedAt e) r && newestFirst r
  end.

(** Newest first, no two emails received at the same time. *)
Fixpoint strictlyNewestFirst (l : list Email) : bool :=
  match l with
  | [] => true
  | e :: r =>
      forallb (fun x => receivedAt x <? receivedAt e) r && strictlyNewestFirst r
  end.

End Order.

(** ** What the sanitized markup is checked for *)

Module Markup.
Import Text Sanitizer.

(** [el.getAttribute(name)] *)
Definition getAttribute (name : list ascii) (el : list Attr) : option (list ascii) :=
  snd <$> List.find (fun a => eqb (fst a) name) el.

(** A test of the tag and the attributes, on every element of the tree
    that is not in the content of a template. *)
Fixpoint everyElement (q : list ascii -> list Attr -> bool) (n : Node) : bool :=
  match n with
  | TextNode _ => true
  | Element t el ch => q t el && (isTemplate t || forallb (everyElement q) ch)
  end.

(** A link opens in a new tab and hands over no opener. *)
Definition opensInNewTab (t : list ascii) (el : list Attr) : bool :=
  implb (eqb t (str "a") && hasAttribute (str "href") el)
        (bool_decide (getAttribute (str "target") el = Some (str "_blank"))
         && bool_decide (getAttribute (str "rel") el
                         = Some (str "noopener noreferrer"))).

(** Neither of the colour attributes of old markup. *)
Definition noLegacyColor (t : list ascii) (el : list Attr) : bool :=
  negb (hasAttribute (str "bgcolor") el) && negb (hasAttribute (str "color") el).

(** A style value that is not empty, declares none of the properties of
    [colorProps] and passes the tests of the loop for [expression] and
    [javascript]. *)
Definition cleanStyle (value : list ascii) : bool :=
  nonEmpty value
  && forallb (fun d => negb (isColorProp (propName d))) (declarations value)
  && negb (includes (toLowerCase value) (str "expression"))
  && negb (includes (toLowerCase value) (str "javascript")).

Definition styleIsClean (t : list ascii) (el : list Attr) : bool :=
  forallb (fun a => implb (eqb (fst a) (str "style")) (cleanStyle (snd a))) el.

(** The declarations of a style value that name a property, and not one
    of [colorProps]. *)
Definition keptDeclarations (value : list ascii) : list (list ascii) :=
  List.filter (fun d => nonEmpty (propName d) && negb (isColorProp (propName d)))
              (declarations value).

(** The value the loop of [sanitizeHtml] leaves in a [style] attribute,
    [None] when it removes the attribute. *)
Definition cleanedStyle (value : list ascii) : option (list ascii) :=
  if includes (toLowerCase value) (str "expression")
     || includes (toLowerCase value) (str "javascript")
  then None
  else match keptDeclarations value with
       | [] => None
       | kept => Some (join (str "; ") kept)
       end.

End Markup.

(** ** Plain text shown as markup ([static/app.js]) *)

Module PlainText.
Import Text.

(** The serialization of a text node: what [div.innerHTML] returns for
    one character of [div.textContent]. *)
Definition escapeChar (c : ascii) : list ascii :=
  if (code c =? 38)%N then str "&amp;"
  else if (code c =? 60)%N then str "&lt;"
  else if (code c =? 62)%N then str "&gt;"
  else if (code c =? 160)%N then str "&nbsp;"
  else [c].

Definition escapeHtml (text : list ascii) : list ascii :=
  flat_map escapeChar text.

(** A literal at the head of [s], the case of the letters counting: what
    follows it. *)
Fixpoint matchExact (lit s : list ascii) : option (list ascii) :=
  match lit, s with
  | [], _ => Some s
  | a :: lit', b :: s' => if Ascii.eqb a b then matchExact lit' s' else None
  | _ :: _, [] => None
  end.

(** The double quote. *)
Definition quote : ascii := ascii_of_N 34.

(** The class of the expression of [linkifyText]: anything but white
    space, the angle brackets, the ampersand, the two quotes, the closing
    parenthesis and the closing bracket. *)
Definition urlChar (c : ascii) : bool :=
  negb (isSpace c
        || existsb (Ascii.eqb c) ["<"; ">"; "&"; quote; "'"; ")"; "]"]%char).

(** [[.,;:!?]] *)
Definition isPunct (c : ascii) : bool :=
  existsb (Ascii.eqb c) ["."; ","; ";"; ":"; "!"; "?"]%char.

(** [url.replace(/[.,;:!?]+$/, '')] *)
Fixpoint trimPunct (url : list ascii) : list ascii :=
  match url with
  | [] => []
  | c :: r =>
      match trimPunct r with
      | [] => if isPunct c then [] else [c]
      | r' => c :: r'
      end
  end.

(** The callback of [linkifyText]. *)
Definition linkOf (trimmed : list ascii) : list ascii :=
  str "<a href=" ++ [quote] ++ trimmed ++ [quote]
  ++ str " target=" ++ [quote] ++ str "_blank" ++ [quote]
  ++ str " rel=" ++ [quote] ++ str "noopener noreferrer" ++ [quote] ++ str ">"
  ++ trimmed ++ str "</a>".

Definition linkify (url : list ascii) : list ascii :=
  let trimmed := trimPunct url in
  let suffix := skipn (length trimmed) url in
  linkOf trimmed ++ suffix.

(** [https?:\/\/]: the literal matched and what follows it. *)
Definition scheme (s : list ascii) : option (list ascii * list ascii) :=
  match matchExact (str "https://") s with
  | Some r => Some (str "https://", r)
  | None =>
      match matchExact (str "http://") s with
      | Some r => Some (str "http://", r)
      | None => None
      end
  end.

(** The expression of [linkifyText], [https?://] and one or more
    characters of the class, with the callback. *)
Definition reUrl (s : list ascii) : option (list ascii * nat) :=
  match scheme s with
  | Some (lit, r) =>
      let body := fst (span urlChar r) in
      match body with
      | [] => None
      | _ :: _ => Some (linkify (lit ++ body), length (lit ++ body))
      end
  | None => None
  end.

Definition linkifyText (text : list ascii) : list ascii :=
  replaceAll reUrl (escapeHtml text).

(** *** What the markup of [linkifyText] is made of *)

Definition isAngle (c : ascii) : bool := Ascii.eqb c "<" || Ascii.eqb c ">".

Definition isQuote (c : ascii) : bool := Ascii.eqb c quote || Ascii.eqb c "'".

(** The characters [escapeHtml] writes as entities. *)
Definition isSpecial (c : ascii) : bool :=
  (code c =? 38)%N || (code c =? 60)%N || (code c =? 62)%N || (code c =? 160)%N.

(** An address the callback links: [http://] or [https://] and then
    characters of the class of the expression. *)
Definition isHttpUrl (url : list ascii) : bool :=
  (startsWith url (str "http://") || startsWith url (str "https://"))
  && forallb urlChar url.

(** Text without an angle bracket, and links made by the callback. *)
Inductive Linkified : list ascii -> Prop :=
| linkified_nil : Linkified []
| linkified_char (c : ascii) (rest : list ascii) :
    isAngle c = false -> Linkified rest -> Linkified (c :: rest)
| linkified_link (url rest : list ascii) :
    isHttpUrl url = true -> Linkified rest -> Linkified (linkOf url ++ rest).

End PlainText.

(** ** Calls and download addresses ([static/mobile/jmap.js]) *)

Module JmapCalls.
Import Text Jmap.

(** [session?.apiUrl], as a condition. *)
Definition connected (session : option Session) : bool :=
  match session with
  | Some s => truthy (apiUrl s)
  | None => false
  end.

(** [jmapCall(session, methodCalls)], given what [fetch] does when it is
    called: without an address of the API it is not called. *)
Definition jmapCall (session : option Session) (fetched : Fetched)
    : Error + Json :=
  if negb (connected session) then inl (JmapNetworkError (str "Not connected"))
  else
    match fetched with
    | Rejected message => inl (JmapNetworkError (str "Network error: " ++ message))
    | Resolved resp =>
        if (status resp =? 401) || (status resp =? 403)
        then inl (JmapAuthError (str "Session expired"))
        else if negb (ok resp)
        then inl (JmapNetworkError
                    (str "JMAP call failed: HTTP " ++ decimal (status resp)))
        else
          match json resp with
          | None => inl (JmapNetworkError (str "Invalid JSON in JMAP response"))
          | Some data => inr data
          end
    end.

(** *** [encodeURIComponent] *)

Definition isAlnum (c : ascii) : bool :=
  between 48 57 c || between 65 90 c || between 97 122 c.

(** The characters [encodeURIComponent] leaves as they are. *)
Definition unreserved (c : ascii) : bool :=
  isAlnum c
  || existsb (Ascii.eqb c) ["-"; "_"; "."; "!"; "~"; "*"; "'"; "("; ")"]%char.

Definition hexDigit (n : N) : ascii :=
  nth (N.to_nat n) (str "0123456789ABCDEF") "0"%char.

(** One octet, escaped. *)
Definition escapeOctet (octet : N) : list ascii :=
  ["%"%char; hexDigit (octet / 16); hexDigit (octet mod 16)].

(** A code unit below 128 is one octet of UTF-8; one from 128 to 255 is
    two. *)
Definition encodeChar (c : ascii) : list ascii :=
  if unreserved c then [c]
  else if (code c <? 128)%N then escapeOctet (code c)
  else escapeOctet (192 + code c / 64) ++ escapeOctet (128 + code c mod 64).

Definition encodeURIComponent (s : list ascii) : list ascii :=
  flat_map encodeChar s.

(** *** [String.prototype.replace] with a string for pattern *)

(** The first place where [pattern] occurs: what is before and after it. *)
Fixpoint findFirst (pattern s : list ascii) : option (list ascii * list ascii) :=
  if startsWith s pattern then Some ([], skipn (length pattern) s)
  else
    match s with
    | [] => None
    | c :: r =>
        match findFirst pattern r with
        | Some (before, after) => Some (c :: before, after)
        | None => None
        end
    end.

(** The replacement text: [$$], [$&], the text before the match and the
    text after it stand for themselves in it. *)
Fixpoint expand (matched before after replacement : list ascii) : list ascii :=
  match replacement with
  | [] => []
  | c :: r =>
      if Ascii.eqb c "$" then
        match r with
        | d :: r' =>
            if Ascii.eqb d "$" then "$"%char :: expand matched before after r'
            else if Ascii.eqb d "&" then matched ++ expand matched before after r'
            else if Ascii.eqb d "`" then before ++ expand matched before after r'
            else if Ascii.eqb d "'" then after ++ expand matched before after r'
            else c :: expand matched before after r
        | [] => [c]
        end
      else c :: expand matched before after r
  end.

Definition replace (pattern replacement s : list ascii) : list ascii :=
  match findFirst pattern s with
  | Some (before, after) =>
      before ++ expand pattern before after replacement ++ after
  | None => s
  end.

(** *** [blobUrl] *)

Section Conversion.

(** How the language prints a number: the digits of an integer up to
    2^53, the digits of the nearest number it holds above, an exponent from
    10^21 on ([1e+21]). *)
Variable numberToString : Z -> list ascii.

(** The conversion to a string [encodeURIComponent] makes of its
    argument. *)
Fixpoint toString (v : Json) : list ascii :=
  match v with
  | JNull => str "null"
  | JBool true => str "true"
  | JBool false => str "false"
  | JNum n => numberToString n
  | JStr s => s
  | JArr items =>
      join (str ",")
           (map (fun x => match x with JNull => [] | _ => toString x end) items)
  | JObj _ => str "[object Object]"
  end.

Definition stringOf (v : option Json) : list ascii :=
  match v with
  | Some j => toString j
  | None => str "undefined"
  end.

(** [blobUrl(session, blobId, name, type)]: [None] is [null]; a
    [downloadUrl] that is no string has no [replace]. *)
Definition blobUrl (session : option Session) (blobId name : list ascii)
    (type : option (list ascii)) : Error + option (list ascii) :=
  match session with
  | None => inr None
  | Some s =>
      if negb (truthy (Some (downloadUrl s))) then inr None
      else
        match downloadUrl s with
        | JStr template =>
            let type' := if Engine.truthy type then default [] type
                         else str "application/octet-stream" in
            let url := replace (str "{accountId}")
                               (encodeURIComponent (stringOf (accountId s)))
                               template in
            let url := replace (str "{blobId}") (encodeURIComponent blobId) url in
            let url := replace (str "{name}") (encodeURIComponent name) url in
            let url := replace (str "{type}") (encodeURIComponent type') url in
            inr (Some url)
        | _ => inl TypeError
        end
  end.

End Conversion.

End JmapCalls.

(** ** The start of the mobile application *)

Module Mobile.
Import Text Jmap.

(** What the page shows: the login form, or the application running with
    a session. *)
Inductive Screen : Type :=
| LoginScreen
| AppShell (session : Session).

(** [init], given the session the storage holds and what [fetch] does:
    the session the storage holds afterwards, and the screen. *)
Definition init (stored : option Session) (fetched : Fetched)
    : option Session * Screen :=
  match stored with
  | Some session =>
      match connect (username session) (token session) fetched with
      | inr fresh => (Some fresh, AppShell fresh)
      | inl (JmapAuthError _) => (None, LoginScreen)
      | inl _ => (Some session, AppShell session)
      end
  | None => (None, LoginScreen)
  end.

End Mobile.

(** ** Composing and sending ([static/app.js]) *)

Module Compose.
Import Text.

(** The [status] of a pending attachment: ['uploading'], ['ready'],
    ['error']. *)
Inductive Status : Type := Uploading | Ready | Failed.

#[global] Instance Status_eq_dec : EqDecision Status.
Proof. solve_decision. Defined.

Record File : Type := mkFile {
  fileName : list ascii;
  fileType : list ascii;
  fileSize : Z
}.

(** An entry of [state.pendingAttachments]; [controller] tells whether it
    holds its [AbortController] still. *)
Record Attachment : Type := mkAttachment {
  _id : Z;
  name : list ascii;
  mime_type : list ascii;
  size : Z;
  status : Status;
  blob_id : option (list ascii);
  controller : bool
}.

(** [state.pendingAttachments] and the counter of the module. *)
Record Pending : Type := mkPending {
  pendingAttachments : list Attachment;
  attachmentIdCounter : Z
}.

(** The body of the loop of [handleFileSelect]: the state, and the id of
    the upload started, if one is. *)
Definition selectFile (file : File) (st : Pending) : Pending * list Z :=
  if 25 * 1024 * 1024 <? fileSize file then (st, [])
  else
    let id := attachmentIdCounter st + 1 in
    let att := mkAttachment id (fileName file)
                 (if Sanitizer.nonEmpty (fileType file) then fileType file
                  else str "application/octet-stream")
                 (fileSize file) Uploading None true in
    (mkPending (pendingAttachments st ++ [att]) id, [id]).

(** [handleFileSelect]: the state, and the ids of the uploads started. *)
Fixpoint handleFileSelect (files : list File) (st : Pending) : Pending * list Z :=
  match files with
  | [] => (st, [])
  | file :: rest =>
      let '(st, started) := selectFile file st in
      let '(st, more) := handleFileSelect rest st in
      (st, started ++ more)
  end.

(** [att => ...] applied to the first attachment with the id, if any:
    what [find] and the assignments to the object found do. *)
Fixpoint updateFirst (id : Z) (f : Attachment -> Attachment)
    (l : list Attachment) : list Attachment :=
  match l with
  | [] => []
  | a :: r => if _id a =? id then f a :: r else a :: updateFirst id f r
  end.

(** [uploadAttachment] when the upload of [id] succeeds, [blob] being the
    [blob_id] of the answer. *)
Definition uploadAttachment_then (id : Z) (blob : option (list ascii))
    (st : Pending) : Pending :=
  mkPending
    (updateFirst id
       (fun a => mkAttachment (_id a) (name a) (mime_type a) (size a)
                   Ready blob false)
       (pendingAttachments st))
    (attachmentIdCounter st).

(** [uploadAttachment] when the upload of [id] fails; [aborted] tells
    whether the error is the [AbortError] of its controller. *)
Definition uploadAttachment_catch (id : Z) (aborted : bool) (st : Pending)
    : Pending :=
  if aborted then st
  else
    mkPending
      (updateFirst id
         (fun a => mkAttachment (_id a) (name a) (mime_type a) (size a)
                     Failed (blob_id a) false)
         (pendingAttachments st))
      (attachmentIdCounter st).

(** [array.splice(idx, 1)] at the first attachment with the id. *)
Fixpoint removeFirst (id : Z) (l : list Attachment) : list Attachment :=
  match l with
  | [] => []
  | a :: r => if _id a =? id then r else a :: removeFirst id r
  end.

(** [handleAttachmentListClick] on the remove button of [id]. *)
Definition handleAttachmentListClick (id : Z) (st : Pending) : Pending :=
  mkPending (removeFirst id (pendingAttachments st)) (attachmentIdCounter st).

(** What [clearCompose] does to the attachments. *)
Definition clearCompose (st : Pending) : Pending :=
  mkPending [] (attachmentIdCounter st).

(** *** [sendEmail] *)

(** The fields of the form. *)
Record Draft : Type := mkDraft {
  composeTo : list ascii;
  composeCc : list ascii;
  composeFrom : option (list ascii);
  composeSubject : list ascii;
  composeBody : list ascii
}.

(** [state.replyContext] *)
Record ReplyContext : Type := mkReplyContext {
  inReplyTo : option (list ascii);
  quotedHtml : option (list ascii);
  quotedText : option (list ascii)
}.

(** An entry of [attachments] in the body of the call. *)
Record Sent : Type := mkSent {
  sent_blob_id : option (list ascii);
  sent_name : list ascii;
  sent_mime_type : list ascii;
  sent_size : Z
}.

(** The body of [POST /emails/send]; [None] is [null] or [undefined]. *)
Record Message : Type := mkMessage {
  to : list (list ascii);
  cc : list (list ascii);
  subject : list ascii;
  body : list ascii;
  html_body : option (list ascii);
  in_reply_to : option (list ascii);
  from_address : option (list ascii);
  attachments : option (list Sent)
}.

Inductive Outcome : Type :=
| Refused (message : list ascii)
| Posted (message : Message).

(** [value.split(',').map(s => s.trim()).filter(Boolean)] *)
Definition addresses (value : list ascii) : list (list ascii) :=
  List.filter Sanitizer.nonEmpty (map trim (split "," value)).

(** [v || null] for a string. *)
Definition orNull (v : option (list ascii)) : option (list ascii) :=
  if Engine.truthy v then v else None.

Definition newline : ascii := ascii_of_N 10.

(** [text.replace(/\n/g, '<br>')] *)
Definition breakLines (text : list ascii) : list ascii :=
  flat_map (fun c => if Ascii.eqb c newline then str "<br>" else [c]) text.

(** [sendEmail] up to its [await]. *)
Definition sendEmail (draft : Draft) (replyContext : option ReplyContext)
    (st : Pending) : Outcome :=
  let to := addresses (composeTo draft) in
  let cc := addresses (composeCc draft) in
  let fromAddress := orNull (composeFrom draft) in
  let userText := composeBody draft in
  if (length to =? 0)%nat then Refused (str "No recipients")
  else if existsb (fun a => bool_decide (status a = Uploading))
                  (pendingAttachments st)
  then Refused (str "Wait for uploads to finish")
  else
    let quotedText := orNull (replyContext ≫= quotedText) in
    let quotedHtml := orNull (replyContext ≫= quotedHtml) in
    let fullTextBody :=
      match quotedText with
      | Some q =>
          userText ++ [newline; newline]
          ++ join [newline] (map (fun l => str "> " ++ l) (split newline q))
      | None => userText
      end in
    let fullHtmlBody :=
      match quotedHtml with
      | Some q =>
          Some (str "<div>" ++ breakLines (PlainText.escapeHtml userText)
                ++ str "</div>"
                ++ str "<blockquote style=" ++ [PlainText.quote]
                ++ str "border-left:2px solid #ccc;padding-left:12px;margin-left:0"
                ++ [PlainText.quote] ++ str ">" ++ q ++ str "</blockquote>")
      | None => None
      end in
    let readyAttachments :=
      map (fun a => mkSent (blob_id a) (name a) (mime_type a) (size a))
          (List.filter (fun a => bool_decide (status a = Ready))
                       (pendingAttachments st)) in
    Posted (mkMessage to cc (composeSubject draft) fullTextBody fullHtmlBody
              (orNull (replyContext ≫= inReplyTo)) fromAddress
              (if (0 <? length readyAttachments)%nat
               then Some readyAttachments else None)).

(** *** [autoSelectFromAddress] *)

(** The first identity whose address is [addr], the case of the letters
    left aside. *)
Definition identityFor (identities : list (list ascii)) (addr : list ascii)
    : option (list ascii) :=
  List.find (fun id => eqb (toLowerCase id) (toLowerCase addr)) identities.

(** The loop over one list of recipients; a recipient without address is
    the empty string. *)
Fixpoint firstIdentity (identities : list (list ascii))
    (recipients : list (list ascii)) : option (list ascii) :=
  match recipients with
  | [] => None
  | r :: rest =>
      if Sanitizer.nonEmpty r then
        match identityFor identities r with
        | Some id => Some id
        | None => firstIdentity identities rest
        end
      else firstIdentity identities rest
  end.

(** [autoSelectFromAddress]: the value it gives the [From] field, [None]
    when it leaves the field alone. *)
Definition autoSelectFromAddress (identities : list (list ascii))
    (to cc : list (list ascii)) : option (list ascii) :=
  match identities with
  | [] => None
  | _ :: _ =>
      match firstIdentity identities to with
      | Some id => Some id
      | None => firstIdentity identities cc
      end
  end.

(** *** What the properties are stated with *)

Definition ids (st : Pending) : list Z := map _id (pendingAttachments st).

(** The ids of the attachments are distinct, positive and not above the
    counter, which is not below 0, where it starts. *)
Definition wellNumbered (st : Pending) : Prop :=
  NoDup (ids st)
  /\ Forall (fun i => 0 < i <= attachmentIdCounter st) (ids st)
  /\ 0 <= attachmentIdCounter st.

(** What the user does to the attachments, and what the uploads answer. *)
Inductive Event : Type :=
| FilesSelected (files : list File)
| UploadDone (id : Z) (blob : option (list ascii))
| UploadFailed (id : Z) (aborted : bool)
| RemoveClicked (id : Z)
| ComposeCleared.

Definition handle (ev : Event) (st : Pending) : Pending :=
  match ev with
  | FilesSelected files => (handleFileSelect files st).1
  | UploadDone id blob => uploadAttachment_then id blob st
  | UploadFailed id aborted => uploadAttachment_catch id aborted st
  | RemoveClicked id => handleAttachmentListClick id st
  | ComposeCleared => clearCompose st
  end.

Definition run (events : list Event) (st : Pending) : Pending :=
  fold_left (fun st ev => handle ev st) events st.

(** An address that is some identity's, the case of the letters left
    aside. *)
Definition isOwn (identities : list (list ascii)) (addr : list ascii) : bool :=
  Sanitizer.nonEmpty addr
  && existsb (fun id => eqb (toLowerCase id) (toLowerCase addr)) identities.

End Compose.

(** ** The handlers, one step at a time *)

Module Run.
Import Text Engine Navigation.

(** An undo entry that holds an email holds the index it was found at. *)
Definition undoable (item : UndoEntry) : bool :=
  match emailData item with
  | Some _ => 0 <=? insertIndex item
  | None => true
  end.

(** The selection is in the list, and the undo stack is one that
    [pushUndo] built. *)
Definition steady (st : State) : Prop :=
  inBounds st /\ forallb undoable (undoStack st) = true.

(** One handler, or one continuation of a handler, run on the state; the
    values a continuation captured are any values. The [catch] of
    [performUndo] is not among them. *)
Inductive Step (st : State) : State -> Prop :=
| step_emailAction type x now :
    Step st (emailAction type x now st).1.1
| step_emailAction_catch removed index :
    Step st (emailAction_catch removed index st)
| step_performUndo :
    Step st (performUndo st).1.1
| step_moveSelection delta :
    Step st (moveSelection delta st).1
| step_moveToTop :
    Step st (moveToTop st)
| step_moveToBottom :
    Step st (moveToBottom st)
| step_openSelected :
    Step st (openSelected st).1
| step_actionSelected type now :
    Step st (actionSelected type now st).1.1
| step_goToNextEmail :
    Step st (goToNextEmail st).1
| step_unsubscribeAndArchiveAll :
    Step st (unsubscribeAndArchiveAll st).1.1
| step_unsubscribeAndArchiveAll_catch removed :
    Step st (unsubscribeAndArchiveAll_catch removed st)
| step_maybeRefillEmails :
    Step st (maybeRefillEmails st).1
| step_maybeRefillEmails_then mailbox search fresh :
    Step st (maybeRefillEmails_then mailbox search fresh st)
| step_maybeRefillEmails_catch :
    Step st (maybeRefillEmails_catch st)
| step_loadEmailDetail x :
    Step st (loadEmailDetail x st).1
| step_loadEmailDetail_then x email :
    Step st (loadEmailDetail_then x email st).1
| step_prefetch_then target email :
    Step st (prefetch_then target email st)
| step_loadEmails_then page :
    Step st (loadEmails_then page st)
| step_selectMailbox m :
    Step st (selectMailbox m st).1
| step_cycleSplit direction :
    Step st (cycleSplit direction st).1
| step_selectSplitByIndex index :
    Step st (selectSplitByIndex index st).1
| step_submitSearch value :
    Step st (submitSearch value st).1
| step_showView v :
    Step st (showView v st).

(** Any number of steps. *)
Inductive Steps (st : State) : State -> Prop :=
| steps_none : Steps st st
| steps_more st1 st2 : Steps st st1 -> Step st1 st2 -> Steps st st2.

End Run.

(** * Properties *)

(** ** The email list under removal and reinsertion *)

Section ListFacts.
Import Text Engine.

Implicit Types (l pre post : list Email) (e : Email) (x : list ascii).

Lemma eqb_true (a b : list ascii) : eqb a b = true <-> a = b.
Proof. unfold eqb. apply bool_decide_eq_true. Qed.

Lemma eqb_false (a b : list ascii) : eqb a b = false <-> a <> b.
Proof. unfold eqb. apply bool_decide_eq_false. Qed.

Lemma eqb_refl (a : list ascii) : eqb a a = true.
Proof. by apply eqb_true. Qed.

(** [find] returns the first email with the id, and cuts the list there. *)
Lemma findEmail_Some l x e :
  findEmail x l = Some e ->
  exists pre post,
    l = pre ++ e :: post /\ id e = x /\ Forall (fun a => id a <> x) pre.
Proof.
  induction l as [|a l IH]; simpl; [discriminate|].
  destruct (eqb (id a) x) eqn:E.
  - intros [= ->]. exists [], l. apply eqb_true in E. auto.
  - intros H. destruct (IH H) as (pre & post & -> & Hid & Hpre).
    exists (a :: pre), post. apply eqb_false in E. auto.
Qed.

Lemma findEmail_None l x :
  findEmail x l = None -> Forall (fun a => id a <> x) l.
Proof.
  induction l as [|a l IH]; simpl; [constructor|].
  destruct (eqb (id a) x) eqn:E; [discriminate|].
  intros H. apply eqb_false in E. auto.
Qed.

Lemma withoutId_absent l x :
  Forall (fun a => id a <> x) l -> withoutId x l = l.
Proof.
  induction 1 as [|a l Ha _ IH]; simpl; [done|].
  apply eqb_false in Ha. rewrite Ha. simpl. by rewrite IH.
Qed.

Lemma withoutId_app l1 l2 x :
  withoutId x (l1 ++ l2) = withoutId x l1 ++ withoutId x l2.
Proof. apply List.filter_app. Qed.

Lemma in_ids l a : In a l -> id a ∈ map id l.
Proof. intros H. apply list_elem_of_In, in_map, H. Qed.

Lemma distinct_around pre e post :
  distinctIds (pre ++ e :: post) ->
  Forall (fun a => id a <> id e) pre /\ Forall (fun a => id a <> id e) post.
Proof.
  unfold distinctIds. rewrite map_app. simpl.
  intros (_ & Hpre & [Hpost _]%NoDup_cons)%NoDup_app.
  split; apply List.Forall_forall; intros a Ha Heq.
  - apply (Hpre (id a)); [by apply in_ids|]. rewrite Heq. left.
  - apply Hpost. rewrite <- Heq. by apply in_ids.
Qed.

(** Removing by id takes out exactly the email found, when ids are
    distinct. *)
Lemma withoutId_cut pre e post :
  distinctIds (pre ++ e :: post) ->
  withoutId (id e) (pre ++ e :: post) = pre ++ post.
Proof.
  intros [Hpre Hpost]%distinct_around.
  rewrite withoutId_app. simpl. rewrite eqb_refl. simpl.
  by rewrite !withoutId_absent.
Qed.

Lemma indexOfFrom_cut i pre e post :
  Forall (fun a => id a <> id e) pre ->
  indexOfFrom i e (pre ++ e :: post) = i + Z.of_nat (length pre).
Proof.
  intros H. revert i. induction H as [|a pre Ha _ IH]; intros i; simpl.
  - rewrite bool_decide_eq_true_2 by done. lia.
  - rewrite bool_decide_eq_false_2 by congruence. rewrite IH. lia.
Qed.

(** [splice] at the length of a prefix inserts right after it. *)
Lemma spliceIn_cut pre e post :
  spliceIn (Z.of_nat (length pre)) e (pre ++ post) = pre ++ e :: post.
Proof.
  unfold spliceIn.
  destruct (Z.ltb_spec (Z.of_nat (length pre)) 0) as [|_]; [lia|].
  rewrite length_app, Z.min_l by lia. rewrite Nat2Z.id.
  rewrite firstn_app, skipn_app, Nat.sub_diag, firstn_all, skipn_all.
  simpl. by rewrite app_nil_r.
Qed.

Lemma withoutId_distinct l x : distinctIds l -> distinctIds (withoutId x l).
Proof.
  unfold distinctIds. induction l as [|a l IH]; simpl; [done|].
  intros [Ha Hl]%NoDup_cons.
  destruct (negb (eqb (id a) x)); simpl; [|auto].
  apply NoDup_cons. split; [|auto].
  intros (b & Hb & Hin)%list_elem_of_In%in_map_iff. apply Ha.
  rewrite <- Hb. apply in_ids.
  unfold withoutId in Hin. apply filter_In in Hin. tauto.
Qed.

(** The heart of every rollback: what [emailAction] removes, [splice] at
    the recorded index puts back. *)
Lemma remove_then_splice l x :
  distinctIds l ->
  match findEmail x l with
  | Some e => spliceIn (indexOf (Some e) l) e (withoutId x l) = l
  | None => withoutId x l = l
  end.
Proof.
  intros Hl. destruct (findEmail x l) as [e|] eqn:F.
  - apply findEmail_Some in F as (pre & post & -> & <- & Hpre).
    rewrite withoutId_cut by done. simpl.
    rewrite indexOfFrom_cut by done. apply spliceIn_cut.
  - apply withoutId_absent. by apply findEmail_None.
Qed.

End ListFacts.

(** ** Optimistic actions, rollback and undo *)

Section ActionFacts.
Import Text Engine.

Implicit Types (st : State) (l : list Email).

Lemma adjustSplitCounts_keeps delta st :
  emails (adjustSplitCounts delta st) = emails st
  /\ undoStack (adjustSplitCounts delta st) = undoStack st
  /\ selectedIndex (adjustSplitCounts delta st) = selectedIndex st
  /\ mailboxes (adjustSplitCounts delta st) = mailboxes st.
Proof. done. Qed.

Lemma maybeRefillEmails_keeps st :
  emails (maybeRefillEmails st).1 = emails st
  /\ undoStack (maybeRefillEmails st).1 = undoStack st
  /\ selectedIndex (maybeRefillEmails st).1 = selectedIndex st
  /\ mailboxes (maybeRefillEmails st).1 = mailboxes st.
Proof.
  unfold maybeRefillEmails.
  destruct (_ || _); [done|]. by destruct (currentMailbox st).
Qed.

Lemma clampSelection_keeps st :
  emails (clampSelection st) = emails st
  /\ undoStack (clampSelection st) = undoStack st
  /\ mailboxes (clampSelection st) = mailboxes st.
Proof. unfold clampSelection. by destruct (_ <=? _). Qed.

(** What [emailAction] leaves before its [await]. *)
Lemma emailAction_sync type x now st :
  let r := emailAction type x now st in
  emails r.1.1 = withoutId x (emails st)
  /\ (exists label, undoStack r.1.1 =
        mkUndo label x (findEmail x (emails st))
               (indexOf (findEmail x (emails st)) (emails st)) now
        :: undoStack st)
  /\ r.2 = (findEmail x (emails st), indexOf (findEmail x (emails st)) (emails st)).
Proof.
  unfold emailAction, removeEmailFromList. cbn zeta.
  match goal with |- context [maybeRefillEmails ?s] =>
    pose proof (maybeRefillEmails_keeps s) as (He & Hu & _);
    destruct (maybeRefillEmails s) as [s' reqs] end.
  cbn -[withoutId findEmail indexOf clampSelection] in *. rewrite He, Hu.
  match goal with |- context [clampSelection ?s] =>
    destruct (clampSelection_keeps s) as (-> & -> & _) end.
  cbn -[withoutId findEmail indexOf]. eauto.
Qed.

Lemma emailAction_catch_lists removed index st :
  emails (emailAction_catch removed index st) =
    match removed with
    | Some e => spliceIn index e (emails st)
    | None => emails st
    end
  /\ undoStack (emailAction_catch removed index st) = tail (undoStack st).
Proof. unfold emailAction_catch. by destruct removed. Qed.

(** What [performUndo] does to the list and the stack. *)
Lemma performUndo_lists st :
  let r := performUndo st in
  match undoStack st with
  | [] => r = (st, [], None)
  | item :: rest =>
      undoStack r.1.1 = rest /\ r.2 = Some item
      /\ emails r.1.1 =
           match emailData item with
           | Some e => spliceIn (Z.min (insertIndex item) (len st)) e (emails st)
           | None => emails st
           end
  end.
Proof.
  unfold performUndo. destruct (undoStack st) as [|item rest]; [done|].
  cbn zeta. by destruct (emailData item).
Qed.

(** The list and the stack after an undo depend on the list and the stack
    before it, and on nothing else. *)
Lemma performUndo_congruence st st' :
  emails st = emails st' -> undoStack st = undoStack st' ->
  emails (performUndo st).1.1 = emails (performUndo st').1.1
  /\ undoStack (performUndo st).1.1 = undoStack (performUndo st').1.1.
Proof.
  intros He Hu.
  pose proof (performUndo_lists st) as H. pose proof (performUndo_lists st') as H'.
  cbn zeta in *. rewrite <- Hu in H'.
  destruct (undoStack st) as [|item rest] eqn:Es.
  - rewrite H, H'. cbn. by rewrite He, Es, Hu.
  - destruct H as (-> & _ & ->), H' as (-> & _ & ->).
    unfold len. by rewrite He.
Qed.

(** An undo right after an action gives back the list and the stack the
    action found. *)
Lemma undo_after_action type x now st :
  distinctIds (emails st) ->
  let st1 := (emailAction type x now st).1.1 in
  emails (performUndo st1).1.1 = emails st
  /\ undoStack (performUndo st1).1.1 = undoStack st.
Proof.
  intros Hd st1.
  destruct (emailAction_sync type x now st) as (He & (label & Hu) & _).
  fold st1 in He, Hu.
  pose proof (performUndo_lists st1) as H. cbn zeta in H. rewrite Hu in H.
  destruct H as (-> & _ & ->). split; [|done]. cbn [emailData insertIndex].
  pose proof (remove_then_splice (emails st) x Hd) as R.
  unfold len. rewrite He.
  destruct (findEmail x (emails st)) as [e|] eqn:F; [|done].
  rewrite Z.min_l; [done|].
  apply findEmail_Some in F as (pre & post & Hl & <- & Hpre).
  rewrite Hl, withoutId_cut by (by rewrite <- Hl). cbn [indexOf].
  rewrite indexOfFrom_cut by done. rewrite length_app. lia.
Qed.

Lemma emailAction_distinct type x now st :
  distinctIds (emails st) -> distinctIds (emails (emailAction type x now st).1.1).
Proof.
  intros H. destruct (emailAction_sync type x now st) as (-> & _).
  by apply withoutId_distinct.
Qed.

Lemma undoTimes_succ n st :
  undoTimes (S n) st = (performUndo (undoTimes n st)).1.1.
Proof.
  revert st. induction n as [|n IH]; intros st; [done|].
  change (undoTimes (S (S n)) st) with (undoTimes (S n) (performUndo st).1.1).
  by rewrite IH.
Qed.

(** The rollback in the case it is written for. An archive or trash whose
    call fails before anything else runs is rolled back exactly: the email
    found at [removedIndex] is back at that index, the list is the one the
    action found, in content and in order, and the undo entry the action
    pushed is gone. The ids of the list are distinct. *)
Theorem emailAction_failure_restores type x now st :
  distinctIds (emails st) ->
  let r := emailAction type x now st in
  let st2 := emailAction_catch r.2.1 r.2.2 r.1.1 in
  emails st2 = emails st
  /\ undoStack st2 = undoStack st
  /\ (exists label, undoStack r.1.1 = mkUndo label x r.2.1 r.2.2 now :: undoStack st)
  /\ (forall e, r.2.1 = Some e ->
        id e = x /\ 0 <= r.2.2
        /\ nth_error (emails st) (Z.to_nat r.2.2) = Some e
        /\ nth_error (emails st2) (Z.to_nat r.2.2) = Some e
        /\ ~ In e (emails r.1.1)).
Proof.
  intros Hd r st2.
  destruct (emailAction_sync type x now st) as (He & (label & Hu) & Hc).
  fold r in He, Hu, Hc.
  destruct (emailAction_catch_lists r.2.1 r.2.2 r.1.1) as (He2 & Hu2).
  fold st2 in He2, Hu2. rewrite Hc in *. cbn [fst snd] in *.
  pose proof (remove_then_splice (emails st) x Hd) as R.
  assert (emails st2 = emails st) as E.
  { rewrite He2, He. by destruct (findEmail x (emails st)). }
  split; [done|]. split; [by rewrite Hu2, Hu|]. split; [eauto|].
  intros e F. rewrite E.
  pose proof F as (pre & post & Hl & Hid & Hpre)%findEmail_Some.
  rewrite F, He, Hl. subst x. cbn [indexOf].
  rewrite indexOfFrom_cut by done. rewrite Z.add_0_l, Nat2Z.id.
  split; [done|]. split; [lia|].
  rewrite nth_error_app2, Nat.sub_diag by lia. split; [done|]. split; [done|].
  rewrite withoutId_cut by (by rewrite <- Hl).
  intros Hin. rewrite Hl in Hd. apply distinct_around in Hd as [H1 H2].
  apply in_app_or in Hin as [Hin|Hin];
    [ eapply List.Forall_forall in H1 | eapply List.Forall_forall in H2 ]; eauto.
Qed.

Lemma emailAction_failure_restores_witness :
  let st := Sample.listing Sample.inbox [Sample.a; Sample.b; Sample.c; Sample.d; Sample.e] in
  let r := emailAction (str "archive") (str "c") 7 st in
  distinctIds (emails st)
  /\ emails r.1.1 = [Sample.a; Sample.b; Sample.d; Sample.e]
  /\ r.2 = (Some Sample.c, 2)
  /\ emails (emailAction_catch r.2.1 r.2.2 r.1.1) = emails st
  /\ undoStack (emailAction_catch r.2.1 r.2.2 r.1.1) = undoStack st.
Proof.
  intros st r.
  assert (distinctIds (emails st)) as Hd.
  { unfold distinctIds. apply (bool_decide_unpack (NoDup _)). vm_compute. exact I. }
  destruct (emailAction_failure_restores (str "archive") (str "c") 7 st Hd)
    as (H1 & H2 & _).
  split; [exact Hd|].
  split; [reflexivity|]. split; [reflexivity|]. split; [exact H1 | exact H2].
Defined.

(** C2. The failure of a call comes when it comes, and the rollback takes
    no account of what ran since the action: it pops the entry on top of
    the undo stack and puts the email back at the index it had. On the list
    [a; b; c], [b] is archived and then [a], and the call for [b] fails:
    the entry popped is the one of [a], the entry of [b] stays, and [b]
    comes back after [c]. When instead the user undoes the archive of [b]
    before its call fails, the rollback puts a second [b] into the list. *)
Theorem failure_after_a_later_step_is_rolled_back_wrongly :
  let st := Sample.listing Sample.inbox [Sample.a; Sample.b; Sample.c] in
  let first := emailAction (str "archive") (str "b") 7 st in
  let second := emailAction (str "archive") (str "a") 8 first.1.1 in
  let failed := emailAction_catch first.2.1 first.2.2 second.1.1 in
  let undone := performUndo first.1.1 in
  let failed' := emailAction_catch first.2.1 first.2.2 undone.1.1 in
  first.2 = (Some Sample.b, 1)
  /\ emails second.1.1 = [Sample.c]
  /\ map emailId (undoStack second.1.1) = [str "a"; str "b"]
  /\ emails failed = [Sample.c; Sample.b]
  /\ map emailId (undoStack failed) = [str "b"]
  /\ emails undone.1.1 = [Sample.a; Sample.b; Sample.c]
  /\ emails failed' = [Sample.a; Sample.b; Sample.b; Sample.c]
  /\ undoStack failed' = [].
Proof. cbn zeta. repeat split; vm_compute; reflexivity. Qed.

(** C3, as the code has it. [N] archives, all successful, followed by [N]
    undos, all successful, give back the list the first archive found, the
    emails in their order with their flags, and the undo stack as it was:
    the entries are consumed last pushed, first popped. The ids of the list
    are distinct; the ids archived are any ids; nothing else runs in
    between. *)
Theorem archive_then_undo_restores ids now st :
  distinctIds (emails st) ->
  let st' := undoTimes (length ids) (archiveEach ids now st) in
  emails st' = emails st /\ undoStack st' = undoStack st.
Proof.
  revert st. induction ids as [|x ids IH]; intros st Hd; [done|].
  cbn zeta. change (length (x :: ids)) with (S (length ids)).
  rewrite undoTimes_succ. cbn [archiveEach].
  set (st1 := (emailAction (str "archive") x now st).1.1).
  destruct (IH st1) as (He & Hu); [by apply emailAction_distinct|].
  cbn zeta in He, Hu.
  destruct (performUndo_congruence _ _ He Hu) as (-> & ->).
  by apply undo_after_action.
Qed.

Lemma archive_then_undo_restores_witness :
  let st := Sample.listing Sample.inbox [Sample.a; Sample.b; Sample.c; Sample.d; Sample.e] in
  let ids := [str "b"; str "d"; str "a"] in
  distinctIds (emails st)
  /\ emails (archiveEach ids 7 st) = [Sample.c; Sample.e]
  /\ emails (undoTimes 3 (archiveEach ids 7 st)) = emails st
  /\ undoStack (undoTimes 3 (archiveEach ids 7 st)) = undoStack st.
Proof.
  intros st ids.
  assert (distinctIds (emails st)) as Hd.
  { unfold distinctIds. apply (bool_decide_unpack (NoDup _)). vm_compute. exact I. }
  split; [exact Hd|]. split; [reflexivity|].
  exact (archive_then_undo_restores ids 7 st Hd).
Defined.

(** C3, against the wording of the specification: in a list that holds an
    id twice, the archive takes out both entries and the undo puts back
    one. *)
Lemma repeated_id_is_not_restored :
  let st := Sample.listing Sample.inbox [Sample.a; Sample.a; Sample.b] in
  let st' := undoTimes 1 (archiveEach [str "a"] 7 st) in
  emails (archiveEach [str "a"] 7 st) = [Sample.b]
  /\ emails st' = [Sample.a; Sample.b]
  /\ emails st' <> emails st.
Proof.
  cbn zeta. split; [reflexivity|]. split; [reflexivity|].
  vm_compute. discriminate.
Qed.

End ActionFacts.

(** ** Refill, detail fetch, undo and the selection *)

Section EngineFacts.
Import Text Engine.

Implicit Types (st : State) (l : list Email).

Lemma distinct_app l k :
  distinctIds l -> distinctIds k ->
  (forall e, In e k -> id e ∉ map id l) ->
  distinctIds (l ++ k).
Proof.
  unfold distinctIds. intros Hl Hk Hnew. rewrite map_app.
  apply NoDup_app. split; [done|]. split; [|done].
  intros x Hx (e & <- & He)%list_elem_of_In%in_map_iff.
  by apply (Hnew e).
Qed.

Lemma distinct_filter (p : Email -> bool) l :
  distinctIds l -> distinctIds (List.filter p l).
Proof.
  unfold distinctIds. induction l as [|a l IH]; simpl; [done|].
  intros [Ha Hl]%NoDup_cons. destruct (p a); simpl; [|auto].
  apply NoDup_cons. split; [|auto].
  intros (b & Hb & Hin)%list_elem_of_In%in_map_iff. apply Ha.
  rewrite <- Hb. apply in_ids. apply filter_In in Hin. tauto.
Qed.

(** C4, as the code has it. A refill keeps the ids of the cache distinct:
    of the page the server returned it appends, after the emails already
    there, only those whose id the cache does not hold, whatever the
    overlap between the page and the cache. The cache has distinct ids
    before, and so has the page, being a slice of the server's list. *)
Theorem refill_keeps_ids_distinct mailbox search fresh st :
  distinctIds (emails st) -> distinctIds fresh ->
  let st' := maybeRefillEmails_then mailbox search fresh st in
  distinctIds (emails st')
  /\ exists added,
       emails st' = emails st ++ added
       /\ (forall e, In e added -> In e fresh /\ id e ∉ map id (emails st))
       /\ (mailboxId <$> currentMailbox st = Some mailbox -> searchQuery st = search ->
           forall e, In e fresh -> id e ∉ map id (emails st) -> In e added).
Proof.
  intros Hd Hf. unfold maybeRefillEmails_then. cbn zeta.
  set (stay := negb _ || negb _).
  set (new := List.filter _ fresh).
  assert (forall e, In e new <-> In e fresh /\ id e ∉ map id (emails st)) as Hnew.
  { intros e. unfold new. rewrite filter_In, negb_true_iff, bool_decide_eq_false.
    by rewrite elem_of_list_to_set. }
  destruct stay eqn:Hstay; cbn [emails set_refillInFlight].
  - split; [done|]. exists []. rewrite app_nil_r. split; [done|].
    split; [by intros e []|]. intros Hm Hs. exfalso.
    unfold stay in Hstay. apply orb_true_iff in Hstay as [H|H].
    + apply negb_true_iff, bool_decide_eq_false in H. auto.
    + apply negb_true_iff, eqb_false in H. auto.
  - destruct (0 <? length new)%nat eqn:Hn; cbn [emails set_emails].
    + split.
      * apply distinct_app; [done|by apply distinct_filter|]. intros e. by apply Hnew.
      * exists new. split; [done|]. split; [intros e; apply Hnew|].
        intros _ _ e ? ?. by apply Hnew.
    + split; [done|]. exists []. rewrite app_nil_r. split; [done|].
      split; [by intros e []|]. intros _ _ e H1 H2.
      assert (In e new) as Hin by by apply Hnew.
      destruct new; [done|]. cbn in Hn. discriminate.
Qed.

Lemma refill_keeps_ids_distinct_witness :
  let st := Sample.listing Sample.inbox [Sample.a; Sample.b] in
  let fresh := [Sample.a; Sample.b; Sample.c] in
  distinctIds (emails st) /\ distinctIds fresh
  /\ emails (maybeRefillEmails_then (str "mb-inbox") [] fresh st)
     = [Sample.a; Sample.b] ++ [Sample.c]
  /\ distinctIds (emails (maybeRefillEmails_then (str "mb-inbox") [] fresh st)).
Proof.
  intros st fresh.
  assert (distinctIds (emails st)) as Hd.
  { unfold distinctIds. apply (bool_decide_unpack (NoDup _)). vm_compute. exact I. }
  assert (distinctIds fresh) as Hf.
  { unfold distinctIds. apply (bool_decide_unpack (NoDup _)). vm_compute. exact I. }
  split; [exact Hd|]. split; [exact Hf|]. split; [vm_compute; reflexivity|].
  exact (proj1 (refill_keeps_ids_distinct (str "mb-inbox") [] fresh st Hd Hf)).
Defined.

(** C4, against the wording of the specification. The page is filtered
    against the cache and not against itself: an id the page holds twice is
    appended twice. And the cache of a reachable state can hold an id
    twice before any refill: [a] is archived, the list is loaded again
    while it still holds [a], and the undo puts the [a] of its entry back. *)
Lemma refill_does_not_filter_the_page_against_itself :
  let st := Sample.listing Sample.inbox [Sample.a; Sample.b] in
  let st' := maybeRefillEmails_then (str "mb-inbox") []
               [Sample.b; Sample.c; Sample.c] st in
  let archived := (emailAction (str "archive") (str "a") 7 st).1.1 in
  let reloaded := Navigation.loadEmails_then [Sample.a; Sample.b] archived in
  let undone := (performUndo reloaded).1.1 in
  distinctIds (emails st)
  /\ emails st' = [Sample.a; Sample.b; Sample.c; Sample.c]
  /\ ~ distinctIds (emails st')
  /\ Run.Steps st undone
  /\ emails undone = [Sample.a; Sample.a; Sample.b]
  /\ ~ distinctIds (emails undone).
Proof.
  cbn zeta. split.
  { unfold distinctIds. apply (bool_decide_unpack (NoDup _)). vm_compute. exact I. }
  split; [vm_compute; reflexivity|]. split.
  { unfold distinctIds. intros H. apply (bool_decide_pack (NoDup _)) in H.
    vm_compute in H. exact H. }
  split.
  { eapply Run.steps_more; [eapply Run.steps_more; [eapply Run.steps_more|]|].
    - apply Run.steps_none.
    - apply (Run.step_emailAction _ (str "archive") (str "a") 7).
    - apply (Run.step_loadEmails_then _ [Sample.a; Sample.b]).
    - apply Run.step_performUndo. }
  split; [vm_compute; reflexivity|].
  unfold distinctIds. intros H. apply (bool_decide_pack (NoDup _)) in H.
  vm_compute in H. exact H.
Qed.

(** The example of the specification: the page [a; b; c] over the cache
    [a; b] appends [c] alone. A page that is a slice of a server list with
    distinct ids has distinct ids itself. *)
Lemma page_of_distinct_list (server : list Email) (offset limit : nat) :
  distinctIds server -> distinctIds (firstn limit (skipn offset server)).
Proof.
  unfold distinctIds. rewrite <- firstn_map, <- skipn_map.
  intros H. apply NoDup_ListNoDup in H. apply NoDup_ListNoDup.
  revert H. generalize (map id server). intros ids H.
  assert (List.NoDup (skipn offset ids)) as H'.
  { rewrite <- (firstn_skipn offset ids) in H. by apply NoDup_app_remove_l in H. }
  revert H'. generalize (skipn offset ids). clear. intros k H.
  rewrite <- (firstn_skipn limit k) in H. by apply NoDup_app_remove_r in H.
Qed.

(** *** Detail fetch *)

Lemma showView_detail st :
  showView DetailView st = set_view DetailView st.
Proof. unfold showView. by destruct (view st). Qed.

(** The guard of the continuation of [loadEmailDetail]. When the fetch of
    message [emailId] completes and [state.currentEmail] is another one (or
    none), the result goes into the detail cache and the current email, the
    content of the detail pane and its scroll position are left as they
    are, as are the list and the selection. The view is not: see below. *)
Theorem stale_detail_is_cached_not_rendered emailId email st :
  id <$> currentEmail st <> Some emailId ->
  let st' := (loadEmailDetail_then emailId email st).1 in
  emailCache st' !! emailId = Some email
  /\ currentEmail st' = currentEmail st
  /\ detailPane st' = detailPane st
  /\ bodyScrollTop st' = bodyScrollTop st
  /\ emails st' = emails st
  /\ selectedIndex st' = selectedIndex st.
Proof.
  intros Hstale. unfold loadEmailDetail_then. cbn zeta.
  rewrite showView_detail. cbn [fst].
  rewrite bool_decide_eq_false_2 by done. cbn.
  by rewrite lookup_insert_eq.
Qed.

Lemma stale_detail_is_cached_not_rendered_witness :
  let st := set_detailPane (Partial Sample.b)
              (set_currentEmail (Some Sample.b)
                 (set_view DetailView
                    (Sample.listing Sample.inbox [Sample.a; Sample.b; Sample.c]))) in
  let st' := (loadEmailDetail_then (str "a") Sample.a st).1 in
  id <$> currentEmail st <> Some (str "a")
  /\ emailCache st' !! str "a" = Some Sample.a
  /\ currentEmail st' = Some Sample.b
  /\ detailPane st' = Partial Sample.b.
Proof.
  intros st st'.
  assert (id <$> currentEmail st <> Some (str "a")) as Hstale.
  { vm_compute. discriminate. }
  destruct (stale_detail_is_cached_not_rendered (str "a") Sample.a st Hstale)
    as (H1 & H2 & H3 & _).
  split; [exact Hstale|]. split; [exact H1|]. split; [exact H2 | exact H3].
Defined.

(** The other side of the guard: the result is rendered when the open
    message is still [emailId]. *)
Lemma current_detail_is_rendered emailId email st :
  id <$> currentEmail st = Some emailId ->
  let st' := (loadEmailDetail_then emailId email st).1 in
  emailCache st' !! emailId = Some email
  /\ currentEmail st' = Some email
  /\ detailPane st' = Full email
  /\ bodyScrollTop st' = 0.
Proof.
  intros Hcur. unfold loadEmailDetail_then. cbn zeta.
  rewrite showView_detail. cbn [fst].
  rewrite bool_decide_eq_true_2 by done. cbn.
  by rewrite lookup_insert_eq.
Qed.

(** C5. The continuation of [loadEmailDetail] ends with
    [showView('detail')] outside the guard its comment announces, and the
    guard looks at [state.currentEmail], which leaving the detail view does
    not clear. So the answer to a fetch takes the user to the detail view
    wherever they are. Email [a] is opened from the list and its fetch
    starts; the user goes back to the list; the answer arrives: it is
    rendered and the detail view is shown again. Or the user has opened [b]
    since and is writing a message: the answer for [a] closes the compose
    view and shows the detail view, with [b] in it. *)
Theorem late_detail_answer_takes_over_the_view :
  let full := mkEmail (str "a") (Some (str "sender@example.org")) 50 false false
                      (Some (str "<p>hello</p>")) in
  let st := Sample.listing Sample.inbox [Sample.a; Sample.b; Sample.c] in
  let opened := loadEmailDetail (str "a") st in
  let left := showView ListView opened.1 in
  let late := (loadEmailDetail_then (str "a") full left).1 in
  let other := (loadEmailDetail (str "b") left).1 in
  let composing := showView ComposeView other in
  let late' := (loadEmailDetail_then (str "a") full composing).1 in
  (forall x email s, view (loadEmailDetail_then x email s).1 = DetailView)
  /\ opened.2 = [GetEmail (str "a")]
  /\ detailPane opened.1 = Partial Sample.a
  /\ view left = ListView
  /\ view late = DetailView
  /\ detailPane late = Full full
  /\ view composing = ComposeView
  /\ currentEmail composing = Some Sample.b
  /\ view late' = DetailView
  /\ detailPane late' = Partial Sample.b
  /\ emailCache late' !! str "a" = Some full.
Proof.
  cbn zeta. split.
  { intros x email s. unfold loadEmailDetail_then. cbn zeta. cbn [fst].
    by rewrite showView_detail. }
  repeat split; vm_compute; reflexivity.
Qed.

(** *** Undo *)

Lemma withoutId_splice l e k :
  Forall (fun a => id a <> id e) l ->
  withoutId (id e) (spliceIn k e l) = l.
Proof.
  intros H. unfold spliceIn. set (n := Z.to_nat _).
  rewrite withoutId_app. simpl. rewrite eqb_refl. simpl.
  rewrite !withoutId_absent.
  - apply firstn_skipn.
  - rewrite <- (firstn_skipn n l) in H. by apply Forall_app in H as [_ H].
  - rewrite <- (firstn_skipn n l) in H. by apply Forall_app in H as [H _].
Qed.

Lemma absent_ids l x :
  x ∉ map id l -> Forall (fun a => id a <> x) l.
Proof.
  intros H. apply List.Forall_forall. intros a Ha <-. by apply H, in_ids.
Qed.

(** C9, as the code has it. An undo first puts the email of the popped
    entry back into the list, then asks the server to move it to the mailbox
    whose role is the inbox (no request when there is none), whichever
    mailbox the undone action was taken in; if that call fails the [catch]
    takes the email out again and the list is the one the undo found. The
    entry is one [emailAction] pushed (its email carries its id) and the
    email is not in the list, as after a successful archive. *)
Theorem undo_is_optimistic st item rest e :
  undoStack st = item :: rest ->
  emailData item = Some e ->
  id e = emailId item ->
  emailId item ∉ map id (emails st) ->
  let r := performUndo st in
  r.2 = Some item
  /\ emails r.1.1 = spliceIn (Z.min (insertIndex item) (len st)) e (emails st)
  /\ In e (emails r.1.1)
  /\ r.1.2 = match List.find isInbox (mailboxes st) with
             | Some inbox => [PostMove (emailId item) (mailboxId inbox)]
             | None => []
             end
  /\ emails (performUndo_catch item r.1.1) = emails st.
Proof.
  intros Hs Hd Hid Habs r.
  pose proof (performUndo_lists st) as H. cbn zeta in H. fold r in H.
  rewrite Hs, Hd in H. destruct H as (_ & Hi & He).
  split; [done|]. split; [done|]. split.
  { rewrite He. unfold spliceIn. apply in_or_app. right. by left. }
  split.
  { unfold r, performUndo. rewrite Hs, Hd. cbn. done. }
  unfold performUndo_catch. rewrite Hd. cbn. rewrite He, <- Hid.
  apply withoutId_splice, absent_ids. by rewrite Hid.
Qed.

Lemma undo_is_optimistic_witness :
  let st := (emailAction (str "archive") (str "b") 7
               (Sample.listing Sample.inbox [Sample.a; Sample.b; Sample.c])).1.1 in
  let r := performUndo st in
  emails st = [Sample.a; Sample.c]
  /\ emails r.1.1 = [Sample.a; Sample.b; Sample.c]
  /\ r.1.2 = [PostMove (str "b") (str "mb-inbox")]
  /\ emails (performUndo_catch (mkUndo (str "archived") (str "b") (Some Sample.b) 1 7) r.1.1)
     = [Sample.a; Sample.c].
Proof.
  intros st r.
  assert (str "b" ∉ map id (emails st)) as Habs.
  { apply (bool_decide_unpack (_ ∉ _)). vm_compute. exact I. }
  destruct (undo_is_optimistic st
              (mkUndo (str "archived") (str "b") (Some Sample.b) 1 7) []
              Sample.b eq_refl eq_refl eq_refl Habs)
    as (_ & H2 & _ & H4 & H5).
  split; [reflexivity|]. split; [exact H2|]. split; [exact H4 | exact H5].
Defined.

(** C9, against the wording of the specification: an email archived while
    the Sent mailbox is open is moved by the undo to the inbox, not to the
    mailbox it came from. *)
Lemma undo_moves_to_inbox_not_to_origin :
  let st0 := Sample.listing Sample.sent [Sample.a; Sample.b] in
  let st1 := (emailAction (str "archive") (str "a") 7 st0).1.1 in
  currentMailbox st0 = Some Sample.sent
  /\ (performUndo st1).1.2 = [PostMove (str "a") (mailboxId Sample.inbox)]
  /\ (performUndo st1).1.2 <> [PostMove (str "a") (mailboxId Sample.sent)].
Proof.
  cbn zeta. split; [reflexivity|]. split; [reflexivity|]. vm_compute. discriminate.
Qed.

(** When the list holds the email already (it was archived, and the list
    was loaded again while it still held it), the undo puts a second copy
    in and the [catch] takes out both: the list is not the one the undo
    found. *)
Lemma failed_undo_takes_out_every_copy :
  let st0 := Sample.listing Sample.inbox [Sample.a; Sample.b] in
  let archived := (emailAction (str "archive") (str "a") 7 st0).1.1 in
  let reloaded := Navigation.loadEmails_then [Sample.a; Sample.b] archived in
  let r := performUndo reloaded in
  emails reloaded = [Sample.a; Sample.b]
  /\ emails r.1.1 = [Sample.a; Sample.a; Sample.b]
  /\ match r.2 with
     | Some item => emails (performUndo_catch item r.1.1) = [Sample.b]
     | None => False
     end.
Proof. cbn zeta. repeat split; vm_compute; reflexivity. Qed.

(** *** The selection *)

Lemma clampSelection_inBounds st :
  0 <= selectedIndex st -> inBounds (clampSelection st).
Proof.
  unfold inBounds, clampSelection, len. intros H.
  destruct (Z.leb_spec (Z.of_nat (length (emails st))) (selectedIndex st));
    cbn; destruct (Z.eqb_spec (Z.of_nat (length (emails st))) 0); lia.
Qed.

Lemma inBounds_nonneg st : inBounds st -> 0 <= selectedIndex st.
Proof.
  unfold inBounds. destruct (Z.eqb_spec (len st) 0); lia.
Qed.

Lemma inBounds_same st st' :
  emails st' = emails st -> selectedIndex st' = selectedIndex st ->
  inBounds st -> inBounds st'.
Proof. unfold inBounds, len. by intros -> ->. Qed.

(** Growing the list keeps a selection that was in bounds there. *)
Lemma inBounds_grow st st' :
  (length (emails st) <= length (emails st'))%nat ->
  selectedIndex st' = selectedIndex st ->
  inBounds st -> inBounds st'.
Proof.
  unfold inBounds, len. intros Hl ->.
  destruct (Z.eqb_spec (Z.of_nat (length (emails st))) 0);
    destruct (Z.eqb_spec (Z.of_nat (length (emails st'))) 0); lia.
Qed.

Lemma removeEmailFromList_inBounds x st :
  0 <= selectedIndex st -> inBounds (removeEmailFromList x st).1.
Proof.
  intros H. unfold removeEmailFromList. cbn zeta.
  match goal with |- context [maybeRefillEmails ?s] =>
    destruct (maybeRefillEmails_keeps s) as (He & _ & Hs & _);
    apply (inBounds_same s); [done..|] end.
  by apply clampSelection_inBounds.
Qed.

Lemma spliceIn_length k e l : length (spliceIn k e l) = S (length l).
Proof.
  unfold spliceIn. set (n := Z.to_nat _).
  rewrite length_app. cbn [length]. rewrite <- (firstn_skipn n l) at 3.
  rewrite length_app. lia.
Qed.

Lemma emailAction_catch_inBounds removed index st :
  inBounds st -> inBounds (emailAction_catch removed index st).
Proof.
  intros H. destruct (emailAction_catch_lists removed index st) as (He & _).
  apply (inBounds_grow st); [|by destruct removed|done].
  rewrite He. destruct removed; [rewrite spliceIn_length|]; lia.
Qed.

Lemma performUndo_inBounds st :
  inBounds st ->
  (forall item, head (undoStack st) = Some item -> 0 <= insertIndex item) ->
  inBounds (performUndo st).1.1.
Proof.
  intros H Hidx. unfold performUndo.
  destruct (undoStack st) as [|item rest]; [done|].
  specialize (Hidx item eq_refl). cbn zeta. cbn [fst].
  destruct (emailData item) as [e|]; [|done].
  unfold inBounds, len. cbn. rewrite spliceIn_length.
  destruct (Z.eqb_spec (Z.of_nat (S (length (emails st)))) 0); lia.
Qed.

Lemma loadEmailDetail_keeps x st :
  emails (loadEmailDetail x st).1 = emails st
  /\ selectedIndex (loadEmailDetail x st).1 = selectedIndex st.
Proof.
  unfold loadEmailDetail. cbn zeta.
  destruct (emailCache _ !! x) as [cached|]; cbn [fst].
  - rewrite showView_detail. unfold saveScrollPosition. by repeat case_match.
  - destruct (findEmail x _) as [listItem|];
      [rewrite showView_detail|]; unfold saveScrollPosition; by repeat case_match.
Qed.

Lemma moveSelection_inBounds delta st :
  inBounds st -> inBounds (moveSelection delta st).1.
Proof.
  intros H. unfold moveSelection. cbn zeta.
  destruct (Z.ltb_spec (selectedIndex st + delta) 0) as [|Hlo]; [done|].
  destruct (Z.leb_spec (len st) (selectedIndex st + delta)) as [|Hhi]; [done|].
  cbn [orb]. set (st1 := set_selectedIndex _ st).
  assert (inBounds st1) as H1.
  { unfold inBounds, st1, len in *. cbn.
    destruct (Z.eqb_spec (Z.of_nat (length (emails st))) 0); lia. }
  destruct (view st1); [done| |done].
  destruct (nth_error _ _) as [e|]; [|done].
  destruct (loadEmailDetail_keeps (id e) st1) as (He & Hs).
  by apply (inBounds_same st1).
Qed.

Lemma showView_keeps v st :
  emails (showView v st) = emails st
  /\ selectedIndex (showView v st) = selectedIndex st.
Proof. unfold showView, saveScrollPosition. by repeat case_match. Qed.

Lemma goToNextEmail_inBounds st :
  inBounds st -> inBounds (goToNextEmail st).1.
Proof.
  intros H. unfold goToNextEmail.
  destruct (Z.eqb_spec (len st) 0) as [E|E].
  - destruct (maybeRefillEmails_keeps (showView ListView st)) as (He & _ & Hs & _).
    destruct (showView_keeps ListView st) as (He' & Hs').
    apply (inBounds_same st); [congruence..|done].
  - cbn zeta. set (st1 := set_selectedIndex _ st).
    assert (inBounds st1) as H1.
    { unfold inBounds, st1, len in *. cbn.
      destruct (Z.eqb_spec (Z.of_nat (length (emails st))) 0); lia. }
    assert (inBounds (match selected st1 with
                      | Some nextEmail => loadEmailDetail (id nextEmail) st1
                      | None => (showView ListView st1, [])
                      end).1) as H2.
    { destruct (selected st1) as [e|].
      - destruct (loadEmailDetail_keeps (id e) st1) as (He & Hs).
        by apply (inBounds_same st1).
      - destruct (showView_keeps ListView st1) as (He & Hs).
        by apply (inBounds_same st1). }
    destruct (match selected st1 with Some _ => _ | None => _ end) as [st2 reqs].
    cbn [fst] in H2.
    destruct (maybeRefillEmails_keeps st2) as (He & _ & Hs & _).
    destruct (maybeRefillEmails st2) as [st3 reqs']. cbn [fst] in *.
    by apply (inBounds_same st2).
Qed.

Lemma unsubscribeAndArchiveAll_inBounds st :
  inBounds st -> inBounds (unsubscribeAndArchiveAll st).1.1.
Proof.
  intros H. unfold unsubscribeAndArchiveAll.
  destruct (getSelectedEmailId st) as [[|c i]|]; [done| |done].
  cbn zeta.
  set (email := match findEmail _ _ with Some e => Some e | None => _ end).
  assert (forall sender,
            inBounds (clampSelection
                        (set_emails
                           (List.filter (fun e => negb (fromSender sender e)) (emails st))
                           st))) as Hclamp.
  { intros sender. apply clampSelection_inBounds. cbn. by apply inBounds_nonneg. }
  set (p := match toLowerCase <$> (email ≫= fromEmail) with
            | Some (c' :: s') => _
            | _ => (st, [])
            end).
  assert (inBounds p.1) as Hp.
  { unfold p. destruct (toLowerCase <$> _) as [[|c' s']|]; [done| |done]. apply Hclamp. }
  destruct p as [st1 removed]. cbn [fst] in Hp.
  assert (inBounds (match view st1 with
                    | DetailView => goToNextEmail st1
                    | _ => (st1, [])
                    end).1) as Hq.
  { destruct (view st1); [done| |done]. by apply goToNextEmail_inBounds. }
  by destruct (match view st1 with DetailView => _ | _ => _ end) as [st2 reqs].
Qed.

Lemma insertByDate_length x l : length (insertByDate x l) = S (length l).
Proof.
  induction l as [|e l IH]; [done|]. cbn. destruct (_ <=? _); cbn; [done|].
  by rewrite IH.
Qed.

Lemma sortByDate_length l : length (sortByDate l) = length l.
Proof.
  unfold sortByDate. induction l as [|e l IH]; [done|].
  cbn [fold_right]. by rewrite insertByDate_length, IH.
Qed.

Lemma unsubscribeAndArchiveAll_catch_inBounds removed st :
  inBounds st -> inBounds (unsubscribeAndArchiveAll_catch removed st).
Proof.
  intros H. unfold unsubscribeAndArchiveAll_catch.
  destruct (0 <? length removed)%nat; [|done].
  apply (inBounds_grow st); [|done..].
  cbn. rewrite sortByDate_length, length_app. lia.
Qed.

(** C10. The failure path of an undo breaks the bound on the selection:
    with the list [a; b], archiving [b] and undoing selects the reinserted
    [b] at index 1; when the move then fails the email is filtered out
    again and the selection stays at 1 in a list of length 1. Every state
    before that one is in bounds. *)
Theorem failed_undo_leaves_selection_out_of_bounds :
  let st0 := Sample.listing Sample.inbox [Sample.a; Sample.b] in
  let st1 := (emailAction (str "archive") (str "b") 7 st0).1.1 in
  let r := performUndo st1 in
  let st3 := match r.2 with
             | Some item => performUndo_catch item r.1.1
             | None => r.1.1
             end in
  inBounds st0 /\ inBounds st1 /\ inBounds r.1.1
  /\ r.1.2 = [PostMove (str "b") (str "mb-inbox")]
  /\ emails st3 = [Sample.a] /\ selectedIndex st3 = 1
  /\ ~ inBounds st3
  /\ selected st3 = None.
Proof.
  cbn zeta. unfold inBounds. vm_compute.
  repeat split; try discriminate; try reflexivity.
  intros [_ H]. by apply H.
Qed.

End EngineFacts.

(** ** Session discovery *)

Section JmapFacts.
Import Text Jmap.

(** C8, as the code has it. [connect] throws a [JmapAuthError] for a 401
    or a 403, and a [JmapNetworkError] in three cases: when [fetch] itself
    fails, for any other status outside 200..299, and for a body that is
    not JSON. The module has these two classes only: the malformed body is
    reported in the class of the transport failures. *)
Theorem connect_error_classes username token :
  (forall resp, status resp = 401 \/ status resp = 403 ->
     exists m, connect username token (Resolved resp) = inl (JmapAuthError m))
  /\ (forall message,
        exists m, connect username token (Rejected message) = inl (JmapNetworkError m))
  /\ (forall resp, status resp <> 401 -> status resp <> 403 ->
        ~ 200 <= status resp <= 299 ->
        exists m, connect username token (Resolved resp) = inl (JmapNetworkError m))
  /\ (forall resp, 200 <= status resp <= 299 -> json resp = None ->
        exists m, connect username token (Resolved resp) = inl (JmapNetworkError m)).
Proof.
  repeat split.
  - intros resp H. unfold connect.
    destruct (Z.eqb_spec (status resp) 401), (Z.eqb_spec (status resp) 403);
      cbn; eauto; lia.
  - intros message. cbn. eauto.
  - intros resp H1 H2 H3. unfold connect, ok.
    destruct (Z.eqb_spec (status resp) 401), (Z.eqb_spec (status resp) 403); try lia.
    cbn. destruct (Z.leb_spec 200 (status resp)), (Z.leb_spec (status resp) 299);
      cbn; eauto; lia.
  - intros resp H1 H2. unfold connect, ok.
    destruct (Z.eqb_spec (status resp) 401), (Z.eqb_spec (status resp) 403); try lia.
    cbn. destruct (Z.leb_spec 200 (status resp)), (Z.leb_spec (status resp) 299);
      try lia.
    cbn. rewrite H2. eauto.
Qed.

Lemma connect_error_classes_witness :
  (exists m, connect (str "u") (str "t") (Resolved (mkResponse 403 None))
             = inl (JmapAuthError m))
  /\ (exists m, connect (str "u") (str "t") (Resolved (mkResponse 500 None))
                = inl (JmapNetworkError m))
  /\ (exists m, connect (str "u") (str "t") (Resolved (mkResponse 200 None))
                = inl (JmapNetworkError m)).
Proof.
  destruct (connect_error_classes (str "u") (str "t")) as (H1 & _ & H3 & H4).
  split; [|split].
  - apply (H1 (mkResponse 403 None)). right. reflexivity.
  - apply (H3 (mkResponse 500 None)); cbn; lia.
  - apply (H4 (mkResponse 200 None)); [cbn; lia | reflexivity].
Defined.

(** C8, against the wording of the specification: a 200 whose body does
    not parse and a connection that could not be made end in the same class
    of error. *)
Lemma malformed_body_is_a_network_error :
  exists e1 e2,
    connect (str "u") (str "t") (Resolved (mkResponse 200 None)) = inl e1
    /\ connect (str "u") (str "t") (Rejected (str "Failed to fetch")) = inl e2
    /\ classOf e1 = NetworkClass
    /\ classOf e2 = NetworkClass
    /\ ~ classOf e1 <> classOf e2.
Proof.
  eexists _, _. split; [reflexivity|]. split; [reflexivity|].
  split; [reflexivity|]. split; [reflexivity|]. intros H. by apply H.
Qed.

End JmapFacts.

(** ** The sanitizer: what never comes out *)

Section SanitizerSafety.
Import Text Sanitizer.

Implicit Types (n : Node) (el snap : list Attr) (a y : Attr) (t tag : list ascii).

#[local] Arguments eqb : simpl never.
#[local] Arguments isTemplate : simpl never.

(** Induction on a tree, with the children as a [Forall]. *)
Lemma Node_ind (P : Node -> Prop) :
  (forall d, P (TextNode d)) ->
  (forall t el ch, Forall P ch -> P (Element t el ch)) ->
  forall n, P n.
Proof.
  intros Htext Helem. fix IH 1. intros [d|t el ch]; [apply Htext|].
  apply Helem. induction ch as [|c ch IHch]; constructor; [apply IH | apply IHch].
Qed.

Lemma forallb_map_Forall {A B} (p : B -> bool) (f : A -> B) (l : list A) :
  Forall (fun x => p (f x) = true) l -> forallb p (map f l) = true.
Proof. induction 1; cbn; [done|]. apply andb_true_iff. auto. Qed.

(** *** Tags *)

Lemma removeAll_unfold tag c l :
  removeAll tag (c :: l) =
    (if selects tag c then [] else [removeIn tag c]) ++ removeAll tag l.
Proof. done. Qed.

Lemma removeIn_without tag n :
  selects tag n = false -> without tag (removeIn tag n) = true.
Proof.
  induction n as [d|t el ch IH] using Node_ind; [done|].
  cbn. intros ->. cbn. destruct (isTemplate t); [done|]. cbn [orb].
  fold (removeAll tag ch).
  induction IH as [|c ch Hc _ IHch]; [done|].
  rewrite removeAll_unfold, forallb_app, IHch, andb_true_r.
  destruct (selects tag c) eqn:E; [done|]. cbn. by rewrite Hc.
Qed.

Lemma removeAll_without tag l : forallb (without tag) (removeAll tag l) = true.
Proof.
  induction l as [|c l IH]; [done|].
  rewrite removeAll_unfold, forallb_app, IH, andb_true_r.
  destruct (selects tag c) eqn:E; [done|]. cbn. by rewrite removeIn_without.
Qed.

Lemma removeIn_keeps_without t tag n :
  without t n = true -> without t (removeIn tag n) = true.
Proof.
  induction n as [d|t' el ch IH] using Node_ind; [done|].
  cbn. intros [Ht Hch]%andb_true_iff. rewrite Ht. cbn.
  destruct (isTemplate t'); [done|]. cbn [orb] in *.
  fold (removeAll tag ch).
  induction IH as [|c ch Hc _ IHch]; [done|].
  cbn in Hch. apply andb_true_iff in Hch as [Hc' Hch].
  rewrite removeAll_unfold, forallb_app, IHch, andb_true_r by done.
  destruct (selects tag c); [done|]. cbn. by rewrite Hc.
Qed.

Lemma removeAll_keeps_without t tag l :
  forallb (without t) l = true -> forallb (without t) (removeAll tag l) = true.
Proof.
  induction l as [|c l IH]; [done|]. cbn [forallb].
  intros [Hc Hl]%andb_true_iff.
  rewrite removeAll_unfold, forallb_app, IH, andb_true_r by done.
  destruct (selects tag c); [done|]. cbn. by rewrite removeIn_keeps_without.
Qed.

Lemma fold_removeAll_keeps t tags l :
  forallb (without t) l = true ->
  forallb (without t) (fold_left (fun doc tag => removeAll tag doc) tags l) = true.
Proof.
  revert l. induction tags as [|x tags IH]; intros l H; [done|].
  cbn. by apply IH, removeAll_keeps_without.
Qed.

Lemma removeDangerous_without tag body :
  In tag dangerousTags -> forallb (without tag) (removeDangerous body) = true.
Proof.
  unfold removeDangerous. generalize dangerousTags. intros tags. revert body.
  induction tags as [|x tags IH]; intros body; [done|].
  intros [->|Hin]; cbn.
  - apply fold_removeAll_keeps, removeAll_without.
  - by apply IH.
Qed.


Lemma sanitizeElement_without tag n :
  without tag n = true -> without tag (sanitizeElement n) = true.
Proof.
  induction n as [d|t el ch IH] using Node_ind; [done|].
  cbn. intros [Ht Hch]%andb_true_iff. rewrite Ht. cbn.
  destruct (isTemplate t); [done|]. cbn [orb] in *.
  apply forallb_map_Forall. rewrite forallb_forall in Hch.
  rewrite List.Forall_forall in *. auto.
Qed.

Lemma openInNewTab_without tag n :
  without tag n = true -> without tag (openInNewTab n) = true.
Proof.
  induction n as [d|t el ch IH] using Node_ind; [done|].
  cbn. intros [Ht Hch]%andb_true_iff. rewrite Ht. cbn.
  destruct (isTemplate t); [done|]. cbn [orb] in *.
  apply forallb_map_Forall. rewrite forallb_forall in Hch.
  rewrite List.Forall_forall in *. auto.
Qed.

(** *** Attributes *)

Lemma removeAttribute_In name el y :
  In y (removeAttribute name el) <-> In y el /\ fst y <> name.
Proof.
  unfold removeAttribute. rewrite filter_In, negb_true_iff.
  unfold eqb. by rewrite bool_decide_eq_false.
Qed.

Lemma setAttribute_In name value el y :
  In y (setAttribute name value el) -> In y el \/ y = (name, value).
Proof.
  induction el as [|a el IH]; cbn [setAttribute].
  - intros [<-|[]]. by right.
  - unfold eqb. case_bool_decide as E.
    + intros [<-|H]; [right; by rewrite E | left; by right].
    + intros [<-|H]; [left; by left|]. destruct (IH H); [left; by right | by right].
Qed.

(** An entry of the element after one step of the loop was there before,
    or is the [style] attribute the step has set. *)
Lemma sanitizeAttr_In el a y :
  In y (sanitizeAttr el a) -> In y el \/ fst y = str "style".
Proof.
  unfold sanitizeAttr.
  repeat match goal with
         | |- context [if ?b then _ else _] => destruct b
         end;
    intros H;
    repeat match goal with
           | H : In _ (removeAttribute _ _) |- _ => apply removeAttribute_In in H as [H _]
           | H : In _ (setAttribute _ _ _) |- _ =>
               apply setAttribute_In in H as [H| ->]; [|by right]
           end;
    by left.
Qed.

Lemma urlAttr_not_style name :
  existsb (eqb name) urlAttrs = true -> eqb name (str "style") = false.
Proof.
  intros H. apply bool_decide_eq_false. intros ->. vm_compute in H. discriminate.
Qed.

(** The step for an executable attribute leaves no attribute of its name. *)
Lemma sanitizeAttr_removes el a y :
  executable a = true -> In y (sanitizeAttr el a) -> fst y <> fst a.
Proof.
  unfold executable, isEventHandler, hasScriptScheme, sanitizeAttr.
  destruct (startsWith (toLowerCase (fst a)) (str "on")).
  - intros _ H. by apply removeAttribute_In in H as [_ H].
  - cbn [orb]. intros [Hurl Hscheme]%andb_true_iff.
    rewrite Hurl, (urlAttr_not_style _ Hurl).
    apply orb_true_iff in Hscheme as [->| ->].
    + destruct (isNonImageData _); intros H;
        repeat apply removeAttribute_In in H as [H ?]; done.
    + destruct (isScriptUrl _); intros H;
        repeat apply removeAttribute_In in H as [H ?]; done.
Qed.

Lemma style_not_executable y : fst y = str "style" -> executable y = false.
Proof. destruct y as [k v]. cbn [fst]. by intros ->. Qed.

(** After the whole loop over the snapshot [snap]: an entry was there at
    the start or is a [style] attribute, and bears the name of no
    executable entry of the snapshot. *)
Lemma fold_sanitizeAttr_In snap el y :
  In y (fold_left sanitizeAttr snap el) ->
  (In y el \/ fst y = str "style")
  /\ forall a, In a snap -> executable a = true -> fst y <> fst a.
Proof.
  revert el. induction snap as [|x snap IH]; intros el; cbn [fold_left].
  - intros H. split; [by left | by intros a []].
  - intros [Horigin Hnames]%IH. split.
    + destruct Horigin as [H|H]; [by apply sanitizeAttr_In in H | by right].
    + intros a [<-|Ha] Hx; [|by apply Hnames].
      destruct Horigin as [H|H]; [by apply (sanitizeAttr_removes el)|].
      intros Heq. rewrite H in Heq.
      assert (executable x = false) as E by by apply style_not_executable.
      congruence.
Qed.

Lemma dropLegacyColors_In el y : In y (dropLegacyColors el) -> In y el.
Proof.
  unfold dropLegacyColors.
  repeat match goal with
         | |- context [if ?b then _ else _] => destruct b
         end;
    intros H; repeat apply removeAttribute_In in H as [H _]; done.
Qed.






(** The predicate does tell trees apart: the input of the scenario of the
    specification is not safe, its output is. *)
Lemma safeNode_discriminates :
  let p := Element (str "p")
             [(str "style", str "color:red;margin:4px"); (str "onclick", str "evil()")]
             [TextNode (str "x"); Element (str "script") [] [TextNode (str "evil()")]] in
  safeNode p = false
  /\ sanitizeHtml [p] =
       [Element (str "p") [(str "style", str "margin:4px")] [TextNode (str "x")]].
Proof. cbn zeta. split; vm_compute; reflexivity. Qed.

(** The content of a template is out of the reach of the selectors: the
    element keeps it as it is, whatever it holds, and has its own
    attributes cleaned as those of any element. *)
Lemma template_content_is_left_alone (el : list Attr) (content : list Node) :
  sanitizeHtml [Element (str "template") el content]
  = [Element (str "template") (sanitizeAttributes el) content].
Proof. reflexivity. Qed.

Lemma template_content_example :
  let inside :=
    [Element (str "script") [] [TextNode (str "evil()")];
     Element (str "a") [(str "href", str "javascript:alert(1)");
                        (str "onclick", str "evil()")] [TextNode (str "x")]] in
  sanitizeHtml [Element (str "div") [(str "onclick", str "evil()")]
                  [Element (str "template") [] inside]]
  = [Element (str "div") [] [Element (str "template") [] inside]].
Proof. vm_compute. reflexivity. Qed.

(** The prefix test of the code and the reading of the browser agree on a
    value that begins with no space or control character and holds no tab
    or newline: the values the test misses are the others. *)
Lemma resolvesToScript_plain (value : list ascii) :
  match value with [] => True | c :: _ => isC0OrSpace c = false end ->
  forallb (fun c => negb (isTabOrNewline c)) value = true ->
  resolvesToScript value = isScriptUrl (toLowerCase value).
Proof.
  intros Hhead Hall. unfold resolvesToScript, urlInput.
  assert (dropWhileC0 value = value) as ->.
  { destruct value as [|c v]; [done|]. cbn. by rewrite Hhead. }
  f_equal. f_equal. clear Hhead.
  induction value as [|c v IH]; [done|]. cbn [forallb] in Hall.
  apply andb_true_iff in Hall as [Hc Hv]. cbn [List.filter].
  by rewrite Hc, IH.
Qed.

(** C1. A URL that a browser resolves to the [javascript:] scheme comes
    out untouched when its value does not begin with the scheme as written:
    the test of the code is a prefix test on the lower-cased value, and a
    leading space defeats it. The link of the payload leaves the sanitizer
    with its [href], and the browser reads that [href] as a [javascript:]
    URL. *)
Theorem spaced_script_url_survives :
  let payload :=
    [Element (str "a") [(str "href", str " javascript:alert(1)")]
             [TextNode (str "x")]] in
  sanitizeHtml payload =
    [Element (str "a")
             [(str "href", str " javascript:alert(1)");
              (str "target", str "_blank");
              (str "rel", str "noopener noreferrer")]
             [TextNode (str "x")]]
  /\ resolvesToScript (str " javascript:alert(1)") = true
  /\ hasScriptScheme (str "href", str " javascript:alert(1)") = false.
Proof. cbn zeta. repeat split; vm_compute; reflexivity. Qed.

End SanitizerSafety.

(** ** Strings: split, join, trim and search *)

Section TextFacts.
Import Text.

Implicit Types (s p d pat glue : list ascii) (c sep : ascii) (ds : list (list ascii)).

Lemma ascii_eqb_true c1 c2 : Ascii.eqb c1 c2 = true <-> c1 = c2.
Proof. apply Ascii.eqb_eq. Qed.

Lemma ascii_eqb_false c1 c2 : Ascii.eqb c1 c2 = false <-> c1 <> c2.
Proof. apply Ascii.eqb_neq. Qed.

(** *** Stretches *)

Lemma occursIn_refl s : occursIn s s.
Proof. exists [], []. by rewrite app_nil_r. Qed.

Lemma occursIn_trans p q s : occursIn p q -> occursIn q s -> occursIn p s.
Proof.
  intros (a & b & ->) (a' & b' & ->). exists (a' ++ a), (b ++ b').
  by rewrite <- !app_assoc.
Qed.

Lemma occursIn_app_l p s1 s2 : occursIn p s1 -> occursIn p (s1 ++ s2).
Proof.
  intros (a & b & ->). exists a, (b ++ s2). by rewrite <- !app_assoc.
Qed.

Lemma occursIn_app_r p s1 s2 : occursIn p s2 -> occursIn p (s1 ++ s2).
Proof.
  intros (a & b & ->). exists (s1 ++ a), b. by rewrite <- !app_assoc.
Qed.

Lemma occursIn_cons p c s : occursIn p s -> occursIn p (c :: s).
Proof. apply (occursIn_app_r p [c] s). Qed.

Lemma occursIn_map (f : ascii -> ascii) p s :
  occursIn p s -> occursIn (map f p) (map f s).
Proof. intros (a & b & ->). exists (map f a), (map f b). by rewrite !map_app. Qed.

Lemma occursIn_nil_r p : occursIn p [] -> p = [].
Proof.
  intros (a & b & H). symmetry in H.
  apply app_eq_nil in H as [_ H]. by apply app_eq_nil in H as [H _].
Qed.

(** A stretch that lacks [c] does not straddle an occurrence of [c]. *)
Lemma occursIn_around c pat s1 s2 :
  ~ In c pat -> occursIn pat (s1 ++ c :: s2) -> occursIn pat s1 \/ occursIn pat s2.
Proof.
  intros Hc (a & b & H).
  apply app_eq_app in H as (l & [[Hs1 H]|[Ha H]]).
  - (* the stretch starts inside [s1] *)
    apply app_eq_app in H as (l' & [[Hpat H]|[Hl H]]).
    + destruct l' as [|x l'].
      * left. exists a, []. rewrite app_nil_r in *. by rewrite Hs1, Hpat.
      * injection H as <- _. destruct Hc. rewrite Hpat.
        apply in_or_app. right. by left.
    + left. exists a, l'. by rewrite Hs1, Hl.
  - (* the stretch starts after [s1] *)
    destruct l as [|x l].
    + destruct pat as [|y pat].
      * left. exists s1, []. by rewrite !app_nil_r.
      * injection H as -> _. destruct Hc. by left.
    + injection H as _ ->. right. by exists l, b.
Qed.

(** *** startsWith and includes *)

Lemma startsWith_spec s p : startsWith s p = true <-> exists post, s = p ++ post.
Proof.
  revert s. induction p as [|a p IH]; intros [|b s]; cbn.
  - split; [intros _; by exists [] | done].
  - split; [intros _; by exists (b :: s) | done].
  - split; [done | by intros (post & [=])].
  - rewrite andb_true_iff, ascii_eqb_true, IH. split.
    + intros (-> & post & ->). by exists post.
    + intros (post & [= -> ->]). eauto.
Qed.

Lemma includes_spec s p : includes s p = true <-> occursIn p s.
Proof.
  induction s as [|c s IH]; cbn [includes]; rewrite orb_true_iff, startsWith_spec.
  - split.
    + intros [(post & H)|[=]]. exists [], post. done.
    + intros H%occursIn_nil_r. left. exists []. by rewrite H.
  - rewrite IH. split.
    + intros [(post & ->)|H]; [by exists [], post | by apply occursIn_cons].
    + intros ([|x a] & b & H).
      * left. by exists b.
      * right. injection H as -> ->. by exists a, b.
Qed.

(** *** split and join *)

Lemma split_not_nil sep s : split sep s <> [].
Proof.
  induction s as [|c s IH]; cbn; [done|].
  destruct (Ascii.eqb c sep); [done|]. by destruct (split sep s).
Qed.

Lemma join_cons glue p q ds :
  join glue (p :: q :: ds) = p ++ glue ++ join glue (q :: ds).
Proof. done. Qed.

(** Joining the pieces on the separator gives the string back. *)
Lemma join_split sep s : join [sep] (split sep s) = s.
Proof.
  induction s as [|c s IH]; [done|]. cbn [split].
  destruct (split sep s) as [|q qs] eqn:E; [by apply split_not_nil in E|].
  destruct (Ascii.eqb c sep) eqn:Ec.
  - apply ascii_eqb_true in Ec as ->. by rewrite join_cons, IH.
  - destruct qs; [cbn in *; by rewrite IH|].
    rewrite join_cons in *. rewrite <- app_comm_cons. by f_equal.
Qed.

Lemma In_join_occurs glue d ds : In d ds -> occursIn d (join glue ds).
Proof.
  induction ds as [|p ds IH]; [done|]. intros [->|H].
  - destruct ds; [apply occursIn_refl|]. rewrite join_cons.
    apply occursIn_app_l, occursIn_refl.
  - destruct ds as [|q ds]; [done|]. rewrite join_cons.
    by apply occursIn_app_r, occursIn_app_r, IH.
Qed.

Lemma split_occurs sep s p : In p (split sep s) -> occursIn p s.
Proof.
  intros H. rewrite <- (join_split sep s) at 1. by apply In_join_occurs.
Qed.

Lemma split_lacks_sep sep s p : In p (split sep s) -> ~ In sep p.
Proof.
  revert p. induction s as [|c s IH]; intros p; cbn [split].
  - by intros [<-|[]] [].
  - destruct (split sep s) as [|q qs] eqn:E; [by apply split_not_nil in E|].
    destruct (Ascii.eqb c sep) eqn:Ec.
    + intros [<-|H]; [by intros [] | by apply IH].
    + apply ascii_eqb_false in Ec. intros [<-|H].
      * intros [->|Hin]; [done|]. apply (IH q); [by left | done].
      * apply IH. by right.
Qed.

(** A piece that lacks the separator is a piece of the split. *)
Lemma split_app_sep sep p s :
  ~ In sep p -> split sep (p ++ sep :: s) = p :: split sep s.
Proof.
  induction p as [|c p IH]; cbn; intros H.
  - by rewrite (proj2 (ascii_eqb_true sep sep)).
  - rewrite (proj2 (ascii_eqb_false c sep)) by (intros ->; apply H; by left).
    rewrite IH; [done|]. intros Hin. apply H. by right.
Qed.

Lemma split_lacking sep p : ~ In sep p -> split sep p = [p].
Proof.
  induction p as [|c p IH]; cbn; intros H; [done|].
  rewrite (proj2 (ascii_eqb_false c sep)) by (intros ->; apply H; by left).
  rewrite IH; [done|]. intros Hin. apply H. by right.
Qed.

Lemma split_lacking_app sep p s :
  ~ In sep p ->
  split sep (p ++ s) = (p ++ hd [] (split sep s)) :: tl (split sep s).
Proof.
  induction p as [|c p IH]; intros H.
  - cbn. destruct (split sep s) eqn:E; [by apply split_not_nil in E | done].
  - cbn [app split].
    rewrite (proj2 (ascii_eqb_false c sep)) by (intros ->; apply H; by left).
    rewrite IH; [done|]. intros Hin. apply H. by right.
Qed.

(** Splitting what [join] made with [sep] followed by [gap]: the pieces
    come back, all but the first behind the gap. *)
Lemma split_join sep gap d ds :
  ~ In sep gap -> Forall (fun x => ~ In sep x) (d :: ds) ->
  split sep (join (sep :: gap) (d :: ds)) = d :: map (app gap) ds.
Proof.
  intros Hgap H. revert d H. induction ds as [|q ds IH]; intros d H.
  - cbn. apply split_lacking. by apply Forall_inv in H.
  - rewrite join_cons. cbn [app].
    rewrite split_app_sep by by apply Forall_inv in H.
    rewrite split_lacking_app by done.
    rewrite IH by by apply Forall_inv_tail in H. done.
Qed.

(** *** trim *)

Lemma trimStart_suffix s : exists ws, s = ws ++ trimStart s.
Proof.
  induction s as [|c s (ws & IH)]; [by exists []|]. cbn.
  destruct (isSpace c); [|by exists []].
  exists (c :: ws). cbn. by f_equal.
Qed.

Lemma trimEnd_prefix s : exists ws, s = trimEnd s ++ ws.
Proof.
  induction s as [|c s (ws & IH)]; [by exists []|]. cbn.
  destruct (trimEnd s) as [|x r].
  - destruct (isSpace c); [by exists (c :: s)|]. exists s. done.
  - exists ws. cbn in *. by f_equal.
Qed.

Lemma trim_occurs s : occursIn (trim s) s.
Proof.
  unfold trim. destruct (trimStart_suffix s) as (ws & Hs).
  destruct (trimEnd_prefix (trimStart s)) as (ws' & Ht).
  exists ws, ws'. by rewrite <- Ht.
Qed.

Lemma occursIn_In c p s : occursIn p s -> In c p -> In c s.
Proof.
  intros (a & b & ->) H. apply in_or_app. right. apply in_or_app. by left.
Qed.

Lemma trimEnd_trimEnd s : trimEnd (trimEnd s) = trimEnd s.
Proof.
  induction s as [|c s IH]; [done|]. cbn.
  destruct (trimEnd s) as [|x r] eqn:E.
  - destruct (isSpace c) eqn:Ec; [done|]. cbn. by rewrite Ec.
  - cbn [trimEnd] in *. by rewrite IH.
Qed.

(** A string that does not begin with white space. *)
Lemma trimStart_id s :
  match s with [] => True | c :: _ => isSpace c = false end -> trimStart s = s.
Proof. destruct s as [|c s]; [done|]. cbn. by intros ->. Qed.

Lemma trimStart_head s :
  match trimStart s with [] => True | c :: _ => isSpace c = false end.
Proof.
  induction s as [|c s IH]; [done|]. cbn. by destruct (isSpace c) eqn:E.
Qed.

Lemma trimEnd_head s :
  match s with [] => True | c :: _ => isSpace c = false end ->
  match trimEnd s with [] => True | c :: _ => isSpace c = false end.
Proof.
  destruct s as [|c s]; [done|]. cbn. intros H.
  destruct (trimEnd s); [by rewrite H | done].
Qed.

Lemma trim_trim s : trim (trim s) = trim s.
Proof.
  unfold trim. rewrite (trimStart_id (trimEnd (trimStart s))).
  - apply trimEnd_trimEnd.
  - apply trimEnd_head, trimStart_head.
Qed.

Lemma trim_space c s : isSpace c = true -> trim (c :: s) = trim s.
Proof. unfold trim. cbn. by intros ->. Qed.

Lemma trim_nil_nonEmpty s : trim s <> [] -> s <> [].
Proof. by intros H ->. Qed.

End TextFacts.

(** ** The sanitizer: inline styles *)

Section StyleFacts.
Import Text Sanitizer.

Implicit Types (s d : list ascii) (ds : list (list ascii)).

(** What [stripColorStyles] joins: trimmed, non-empty declarations without
    a semicolon, each of which the filter keeps. *)
Lemma kept_declarations s d :
  In d (List.filter keepDeclaration (map trim (split ";" s))) ->
  ~ In ";"%char d /\ trim d = d /\ nonEmpty d = true /\ keepDeclaration d = true
  /\ occursIn d s.
Proof.
  intros [Hin Hk]%filter_In.
  apply in_map_iff in Hin as (p & <- & Hp).
  split; [|split; [|split; [|split]]].
  - intros H. apply (split_lacks_sep _ _ _ Hp).
    by apply (occursIn_In _ _ _ (trim_occurs p)).
  - apply trim_trim.
  - unfold keepDeclaration in Hk. by destruct (nonEmpty (trim p)).
  - done.
  - apply (occursIn_trans _ p); [apply trim_occurs | by apply (split_occurs ";"%char)].
Qed.

(** The pieces of a joined list of such declarations are the declarations. *)
Lemma pieces_of_joined ds :
  ds <> [] ->
  Forall (fun d => ~ In ";"%char d /\ trim d = d) ds ->
  map trim (split ";" (join (str "; ") ds)) = ds.
Proof.
  destruct ds as [|d ds]; [done|]. intros _ H.
  change (str "; ") with (";"%char :: str " ").
  rewrite split_join.
  - cbn [map]. f_equal; [by apply Forall_inv in H as [_ H]|].
    apply Forall_inv_tail in H. induction H as [|x ds [_ Hx] _ IH]; [done|].
    cbn [map]. rewrite IH. f_equal. cbn [str list_ascii_of_string app].
    by rewrite trim_space.
  - intros [[=]|[]].
  - eapply List.Forall_impl; [|exact H]. by intros x [Hx _].
Qed.

Lemma filter_all_kept {A} (f : A -> bool) (l : list A) :
  Forall (fun x => f x = true) l -> List.filter f l = l.
Proof. induction 1 as [|x l Hx _ IH]; cbn; [done|]. by rewrite Hx, IH. Qed.

Lemma filter_implied {A} (f g : A -> bool) (l : list A) :
  (forall x, f x = true -> g x = true) ->
  List.filter f (List.filter g l) = List.filter f l.
Proof.
  intros H. induction l as [|x l IH]; [done|]. cbn.
  destruct (g x) eqn:G; cbn; [by rewrite IH|].
  destruct (f x) eqn:F; [|done]. apply H in F. congruence.
Qed.

Lemma keepDeclaration_nonEmpty d : keepDeclaration d = true -> nonEmpty d = true.
Proof. unfold keepDeclaration. by destruct (nonEmpty d). Qed.

(** The declarations of the output are the declarations the filter kept. *)
Lemma stripColorStyles_pieces s :
  let ds := List.filter keepDeclaration (map trim (split ";" s)) in
  stripColorStyles s = join (str "; ") ds
  /\ (ds <> [] -> map trim (split ";" (stripColorStyles s)) = ds).
Proof.
  intros ds. split; [done|]. intros Hne. unfold stripColorStyles. fold ds.
  apply pieces_of_joined; [done|].
  apply List.Forall_forall. intros d Hd.
  apply kept_declarations in Hd as (H1 & H2 & _). done.
Qed.

(** The declarations of the output of
    [stripColorStyles] are the declarations of the input, in their order,
    less those without a property name and those whose property is one of
    [color], [background], [background-color], [background-image],
    [outline-color], [text-decoration-color], [text-shadow], [box-shadow] or
    begins with one of them followed by a dash. Every other declaration is
    kept: the layout ones, and [border-color] too, which is not in the
    list. *)
Theorem stripColorStyles_declarations s :
  declarations (stripColorStyles s) =
    List.filter (fun d => nonEmpty (propName d) && negb (isColorProp (propName d)))
                (declarations s).
Proof.
  destruct (stripColorStyles_pieces s) as [Hjoin Hpieces]. cbn zeta in *.
  set (ds := List.filter keepDeclaration (map trim (split ";" s))) in *.
  assert (declarations (stripColorStyles s) = ds) as ->.
  { unfold declarations. destruct ds as [|d ds'] eqn:E.
    - by rewrite Hjoin.
    - rewrite Hpieces by done. rewrite <- E. apply filter_all_kept.
      apply List.Forall_forall. intros x Hx.
      by apply kept_declarations in Hx as (_ & _ & H & _). }
  unfold ds, declarations.
  rewrite <- (filter_implied keepDeclaration nonEmpty)
    by apply keepDeclaration_nonEmpty.
  apply filter_ext_in. intros d [_ Hd]%filter_In.
  unfold keepDeclaration. by rewrite Hd.
Qed.

(** The list of the code, property by property. *)
Lemma color_properties :
  Forall (fun p => isColorProp (str p) = true)
         ["color"; "background"; "background-color"; "background-image";
          "background-position"; "outline-color"; "text-decoration-color";
          "text-shadow"; "box-shadow"]%string
  /\ Forall (fun p => isColorProp (str p) = false)
            ["margin"; "padding"; "display"; "width"; "height"; "max-width";
             "border-color"; "border"; "border-top-color"; "fill";
             "caret-color"]%string.
Proof. split; repeat constructor. Qed.

(** The example of the specification. *)
Lemma stripColorStyles_example :
  stripColorStyles (str "color:red;margin:4px") = str "margin:4px".
Proof. reflexivity. Qed.

(** C7, against the wording of the specification: the colour of a border
    is not stripped. *)
Lemma border_color_is_kept :
  stripColorStyles (str "border-color:red;color:red;margin:4px")
  = str "border-color:red; margin:4px"
  /\ In (str "border-color:red")
        (declarations (stripColorStyles (str "border-color:red;color:red;margin:4px"))).
Proof. split; [reflexivity|]. vm_compute. by left. Qed.

(** Stripping twice is stripping once. *)
Lemma stripColorStyles_idempotent s :
  stripColorStyles (stripColorStyles s) = stripColorStyles s.
Proof.
  destruct (stripColorStyles_pieces s) as [Hjoin Hpieces]. cbn zeta in *.
  set (ds := List.filter keepDeclaration (map trim (split ";" s))) in *.
  destruct ds as [|d ds'] eqn:E; [by rewrite Hjoin|].
  unfold stripColorStyles at 1. rewrite Hpieces by done.
  rewrite filter_all_kept; [by rewrite Hjoin|].
  apply List.Forall_forall. intros x Hx. rewrite <- E in Hx.
  by apply kept_declarations in Hx as (_ & _ & _ & H & _).
Qed.

End StyleFacts.

(** ** The sanitizer: a second pass *)

Section SecondPass.
Import Text Sanitizer.

Implicit Types (n : Node) (el X Y : list Attr) (a y : Attr) (t tag name : list ascii).

#[local] Arguments eqb : simpl never.
#[local] Arguments isTemplate : simpl never.

(** *** The loop, attribute by attribute *)

Lemma removeAttribute_absent name el :
  ~ In name (map fst el) -> removeAttribute name el = el.
Proof.
  intros H. unfold removeAttribute. apply filter_all_kept.
  apply List.Forall_forall. intros a Ha. apply negb_true_iff, eqb_false.
  intros <-. by apply H, in_map.
Qed.

Lemma removeAttribute_app name X Y :
  removeAttribute name (X ++ Y) = removeAttribute name X ++ removeAttribute name Y.
Proof. apply List.filter_app. Qed.

Lemma removeAttribute_cons_own a Y :
  removeAttribute (fst a) (a :: Y) = removeAttribute (fst a) Y.
Proof. unfold removeAttribute. cbn. by rewrite eqb_refl. Qed.

Lemma removeAttribute_own X a Y :
  ~ In (fst a) (map fst X) -> ~ In (fst a) (map fst Y) ->
  removeAttribute (fst a) (X ++ a :: Y) = X ++ Y.
Proof.
  intros HX HY. rewrite removeAttribute_app, removeAttribute_cons_own.
  by rewrite !removeAttribute_absent.
Qed.

Lemma setAttribute_own X a Y value :
  ~ In (fst a) (map fst X) ->
  setAttribute (fst a) value (X ++ a :: Y) = X ++ (fst a, value) :: Y.
Proof.
  induction X as [|x X IH]; cbn; intros H.
  - by rewrite eqb_refl.
  - rewrite (proj2 (eqb_false (fst x) (fst a))) by (intros E; apply H; by left).
    rewrite IH; [done|]. intros Hin. apply H. by right.
Qed.

Lemma styleSpelled_style a :
  styleSpelled a = true -> eqb (toLowerCase (fst a)) (str "style") = true ->
  fst a = str "style".
Proof. unfold styleSpelled. intros H E. rewrite E in H. by apply eqb_true. Qed.

(** One step of the loop works on the attribute it visits and on no other. *)
Lemma sanitizeAttr_own X a Y :
  ~ In (fst a) (map fst X) -> ~ In (fst a) (map fst Y) -> styleSpelled a = true ->
  sanitizeAttr (X ++ a :: Y) a = X ++ sanitizedAttr a ++ Y.
Proof.
  intros HX HY Hs. unfold sanitizeAttr, sanitizedAttr.
  destruct (startsWith (toLowerCase (fst a)) (str "on")).
  { by apply removeAttribute_own. }
  destruct (existsb (eqb (toLowerCase (fst a))) urlAttrs) eqn:Hurl.
  { rewrite (urlAttr_not_style _ Hurl). cbn [andb].
    destruct (isScriptUrl _), (isNonImageData _); cbn [orb];
      rewrite ?removeAttribute_own by done; try done.
    by apply removeAttribute_absent; rewrite map_app; intros [?|?]%in_app_or. }
  cbn [andb]. destruct (eqb (toLowerCase (fst a)) (str "style")) eqn:Hstyle; [|done].
  pose proof (styleSpelled_style a Hs Hstyle) as Hname.
  destruct (_ || _); [by apply removeAttribute_own|].
  destruct (nonEmpty _).
  - rewrite <- Hname. by apply setAttribute_own.
  - rewrite <- Hname. by apply removeAttribute_own.
Qed.

Lemma sanitizedAttr_names a y : In y (sanitizedAttr a) -> fst y = fst a.
Proof.
  unfold sanitizedAttr.
  repeat match goal with
         | |- context [if ?b then _ else _] => destruct b
         end; intros H; cbn in H; repeat (destruct H as [<-|H]); done.
Qed.

(** The whole loop is the steps side by side. *)
Lemma fold_sanitizeAttr_own X todo :
  NoDup (map fst todo) ->
  (forall a, In a todo -> ~ In (fst a) (map fst X)) ->
  forallb styleSpelled todo = true ->
  fold_left sanitizeAttr todo (X ++ todo) = X ++ flat_map sanitizedAttr todo.
Proof.
  revert X. induction todo as [|a todo IH]; intros X Hnd HX Hs; [done|].
  cbn [map] in Hnd. apply NoDup_cons in Hnd as [Ha Hnd].
  cbn [forallb] in Hs. apply andb_true_iff in Hs as [Hsa Hs].
  cbn [fold_left flat_map].
  rewrite sanitizeAttr_own; [| apply HX; by left | by rewrite <- list_elem_of_In | done].
  rewrite app_assoc, IH; [by rewrite <- app_assoc | done | | done].
  intros b Hb. rewrite map_app. intros [Hin|Hin]%in_app_or.
  - apply (HX b); [by right | done].
  - apply in_map_iff in Hin as (y & Hy & Hin). apply sanitizedAttr_names in Hin.
    apply Ha. rewrite <- Hin, Hy. apply list_elem_of_In. by apply in_map.
Qed.

Lemma parsedAttrs_spec el :
  parsedAttrs el = true <-> NoDup (map fst el) /\ forallb styleSpelled el = true.
Proof. unfold parsedAttrs. by rewrite andb_true_iff, bool_decide_eq_true. Qed.

Lemma removeAttribute_parsed name el :
  parsedAttrs el = true -> parsedAttrs (removeAttribute name el) = true.
Proof.
  rewrite !parsedAttrs_spec. intros [Hnd Hs]. unfold removeAttribute. split.
  - clear Hs. induction el as [|a el IH]; [done|]. cbn in *.
    apply NoDup_cons in Hnd as [Ha Hnd]. destruct (negb _); [|auto]. cbn.
    apply NoDup_cons. split; [|auto].
    intros (y & Hy & Hin)%list_elem_of_In%in_map_iff. apply Ha.
    rewrite <- Hy. apply list_elem_of_In, in_map. apply filter_In in Hin. tauto.
  - rewrite forallb_forall in *. intros a [Ha _]%filter_In. auto.
Qed.

Lemma dropLegacyColors_parsed el :
  parsedAttrs el = true -> parsedAttrs (dropLegacyColors el) = true.
Proof.
  intros H. unfold dropLegacyColors.
  repeat match goal with
         | |- context [if ?b then _ else _] => destruct b
         end; auto using removeAttribute_parsed.
Qed.

(** On the attributes of a parsed element the loop is [sanitizedAttr],
    attribute by attribute. *)
Lemma sanitizeAttributes_parsed el :
  parsedAttrs el = true ->
  sanitizeAttributes el = flat_map sanitizedAttr (dropLegacyColors el).
Proof.
  intros [Hnd Hs]%dropLegacyColors_parsed%parsedAttrs_spec.
  unfold sanitizeAttributes. cbn zeta.
  apply (fold_sanitizeAttr_own [] _ Hnd); [by intros a _ [] | done].
Qed.

(** *** What the loop leaves is left alone by the loop *)

Lemma toLowerCase_join glue (ds : list (list ascii)) :
  toLowerCase (join glue ds) = join (toLowerCase glue) (map toLowerCase ds).
Proof.
  unfold toLowerCase. induction ds as [|d ds IH]; [done|].
  destruct ds as [|q ds]; [done|].
  rewrite join_cons, !map_app, IH. done.
Qed.

(** A stretch found in a joined string that holds neither character of
    the glue lies in one of the parts. *)
Lemma occursIn_join c1 c2 pat (ds : list (list ascii)) :
  pat <> [] -> ~ In c1 pat -> ~ In c2 pat ->
  occursIn pat (join [c1; c2] ds) -> exists d, In d ds /\ occursIn pat d.
Proof.
  intros Hne H1 H2. induction ds as [|d ds IH].
  - by intros ->%occursIn_nil_r.
  - destruct ds as [|q ds].
    + intros H. exists d. split; [by left | done].
    + rewrite join_cons. cbn [app]. intros H.
      apply (occursIn_around c1) in H; [|done]. destruct H as [H|H].
      * exists d. split; [by left | done].
      * apply (occursIn_around c2 pat []) in H; [|done].
        destruct H as [H|H]; [by apply occursIn_nil_r in H|].
        destruct (IH H) as (x & Hx & Hocc). exists x. split; [by right | done].
Qed.

(** [stripColorStyles] brings no [expression] and no [javascript] into a
    value that had none. *)
Lemma stripColorStyles_guard pat s :
  pat <> [] -> ~ In ";"%char pat -> ~ In " "%char pat ->
  includes (toLowerCase s) pat = false ->
  includes (toLowerCase (stripColorStyles s)) pat = false.
Proof.
  intros Hne H1 H2 Hs. apply not_true_is_false. intros H. apply not_true_iff_false in Hs.
  apply Hs. apply includes_spec. apply includes_spec in H.
  unfold stripColorStyles in H. rewrite toLowerCase_join in H.
  change (toLowerCase (str "; ")) with [";"%char; " "%char] in H.
  apply occursIn_join in H as (x & Hx & Hocc); [|done..].
  apply in_map_iff in Hx as (d & <- & Hd).
  apply kept_declarations in Hd as (_ & _ & _ & _ & Hd).
  apply (occursIn_trans _ (toLowerCase d)); [done|]. by apply occursIn_map.
Qed.

Lemma nonEmpty_true (s : list ascii) : nonEmpty s = true <-> s <> [].
Proof. by destruct s. Qed.

(** Each attribute the loop leaves is one the loop would leave as it is. *)
Lemma sanitizedAttr_fixed a y : In y (sanitizedAttr a) -> sanitizedAttr y = [y].
Proof.
  unfold sanitizedAttr at 1.
  destruct (startsWith (toLowerCase (fst a)) (str "on")) eqn:Hon; [done|].
  destruct (existsb (eqb (toLowerCase (fst a))) urlAttrs
            && (isScriptUrl (toLowerCase (snd a)) || isNonImageData (toLowerCase (snd a))))
    eqn:Hurl; [done|].
  destruct (eqb (toLowerCase (fst a)) (str "style")) eqn:Hstyle.
  - destruct (includes (toLowerCase (snd a)) (str "expression")) eqn:He; [done|].
    destruct (includes (toLowerCase (snd a)) (str "javascript")) eqn:Hj; [done|].
    cbn [orb]. destruct (nonEmpty (stripColorStyles (snd a))) eqn:Hc; [|done].
    intros [<-|[]]. unfold sanitizedAttr. cbn [fst snd].
    rewrite Hon, Hstyle.
    assert (existsb (eqb (toLowerCase (fst a))) urlAttrs = false) as ->.
    { apply eqb_true in Hstyle. by rewrite Hstyle. }
    cbn [andb].
    rewrite (stripColorStyles_guard (str "expression")) by (done || by vm_compute; intuition discriminate).
    rewrite (stripColorStyles_guard (str "javascript")) by (done || by vm_compute; intuition discriminate).
    cbn [orb]. by rewrite stripColorStyles_idempotent, Hc.
  - intros [<-|[]]. unfold sanitizedAttr. by rewrite Hon, Hurl, Hstyle.
Qed.

Lemma flat_map_fixed {A} (f : A -> list A) (l : list A) :
  (forall z, In z l -> f z = [z]) -> flat_map f l = l.
Proof.
  induction l as [|x l IH]; [done|]. intros H. cbn.
  rewrite (H x) by by left. cbn. rewrite IH; [done|]. intros z Hz. apply H. by right.
Qed.

(** *** setAttribute *)

Lemma hasAttribute_spec name el :
  hasAttribute name el = true <-> In name (map fst el).
Proof.
  unfold hasAttribute. rewrite existsb_exists, in_map_iff.
  split; intros (a & H1 & H2); exists a.
  - apply eqb_true in H2. done.
  - split; [done|]. by apply eqb_true.
Qed.

Lemma hasAttribute_false name el :
  hasAttribute name el = false <-> ~ In name (map fst el).
Proof. rewrite <- hasAttribute_spec. by destruct (hasAttribute name el). Qed.

Lemma setAttribute_names name value el :
  map fst (setAttribute name value el) =
    if hasAttribute name el then map fst el else map fst el ++ [name].
Proof.
  induction el as [|a el IH]; [done|]. cbn [setAttribute hasAttribute existsb].
  destruct (eqb (fst a) name) eqn:E; [done|]. cbn [orb map]. rewrite IH.
  fold (hasAttribute name el). by destruct (hasAttribute name el).
Qed.

Lemma setAttribute_has name value el : In (name, value) (setAttribute name value el).
Proof.
  induction el as [|a el IH]; cbn [setAttribute]; [by left|].
  destruct (eqb (fst a) name) eqn:E.
  - apply eqb_true in E. left. by rewrite E.
  - by right.
Qed.

Lemma setAttribute_keeps name value el y :
  In y el -> fst y <> name -> In y (setAttribute name value el).
Proof.
  intros Hin Hne. induction el as [|a el IH]; [done|]. cbn [setAttribute].
  destruct (eqb (fst a) name) eqn:E.
  - destruct Hin as [->|Hin]; [by apply eqb_true in E | by right].
  - destruct Hin as [->|Hin]; [by left | right; by apply IH].
Qed.

Lemma setAttribute_same name value el :
  NoDup (map fst el) -> In (name, value) el -> setAttribute name value el = el.
Proof.
  induction el as [|a el IH]; [done|]. cbn [map setAttribute].
  intros [Ha Hnd]%NoDup_cons [->|Hin].
  - cbn [fst]. by rewrite eqb_refl.
  - destruct (eqb (fst a) name) eqn:E.
    + apply eqb_true in E. destruct Ha. rewrite E.
      apply list_elem_of_In. by apply (in_map fst _ (name, value)).
    + by rewrite IH.
Qed.

Lemma setAttribute_parsed name value el :
  eqb (toLowerCase name) (str "style") = false ->
  parsedAttrs el = true -> parsedAttrs (setAttribute name value el) = true.
Proof.
  intros Hname [Hnd Hs]%parsedAttrs_spec. apply parsedAttrs_spec. split.
  - rewrite setAttribute_names. destruct (hasAttribute name el) eqn:E; [done|].
    apply hasAttribute_false in E. apply NoDup_app. split; [done|].
    split; [|apply NoDup_singleton].
    intros x Hx ->%list_elem_of_singleton. by apply E, list_elem_of_In.
  - rewrite forallb_forall in *. intros y [Hy| ->]%setAttribute_In; [auto|].
    unfold styleSpelled. cbn [fst]. by rewrite Hname.
Qed.

(** *** The attributes after one pass *)

Lemma sanitizedAttrs_names el y :
  In y (flat_map sanitizedAttr el) -> In (fst y) (map fst el).
Proof.
  intros (a & Ha & Hy)%in_flat_map. apply sanitizedAttr_names in Hy.
  rewrite Hy. by apply in_map.
Qed.

Lemma sanitizedAttr_short a :
  sanitizedAttr a = [] \/ exists y, sanitizedAttr a = [y].
Proof.
  unfold sanitizedAttr.
  repeat match goal with
         | |- context [if ?b then _ else _] => destruct b
         end; eauto.
Qed.

Lemma sanitizedAttrs_parsed el :
  parsedAttrs el = true -> parsedAttrs (flat_map sanitizedAttr el) = true.
Proof.
  rewrite !parsedAttrs_spec. intros [Hnd Hs]. split.
  - clear Hs. induction el as [|a el IH]; [done|].
    cbn [map] in Hnd. apply NoDup_cons in Hnd as [Ha Hnd].
    cbn [flat_map]. rewrite map_app. apply NoDup_app.
    split; [|split; [|auto]].
    + destruct (sanitizedAttr_short a) as [-> | [y ->]]; cbn.
      * apply NoDup_nil_2.
      * apply NoDup_singleton.
    + intros x (y & <- & Hy)%list_elem_of_In%in_map_iff.
      intros (z & Hz & Hin)%list_elem_of_In%in_map_iff.
      apply sanitizedAttr_names in Hy. apply sanitizedAttrs_names in Hin.
      apply Ha. rewrite <- Hy, <- Hz. by apply list_elem_of_In.
  - rewrite forallb_forall in *. intros y (a & Ha & Hy)%in_flat_map.
    apply sanitizedAttr_names in Hy. specialize (Hs a Ha).
    unfold styleSpelled in *. by rewrite Hy.
Qed.

Lemma removed_if_present name el :
  ~ In name (map fst (if hasAttribute name el then removeAttribute name el else el)).
Proof.
  destruct (hasAttribute name el) eqn:E; [|by apply hasAttribute_false].
  intros (y & Hy & Hin)%in_map_iff. by apply removeAttribute_In in Hin as [_ Hin].
Qed.

Lemma dropLegacyColors_none el :
  ~ In (str "bgcolor") (map fst (dropLegacyColors el))
  /\ ~ In (str "color") (map fst (dropLegacyColors el)).
Proof.
  split; [|apply removed_if_present].
  intros (y & Hy & Hin)%in_map_iff.
  apply (removed_if_present (str "bgcolor") el).
  apply in_map_iff. exists y. split; [done|].
  unfold dropLegacyColors in Hin. cbv zeta in Hin.
  destruct (hasAttribute (str "color") _); [|done].
  by apply removeAttribute_In in Hin as [Hin _].
Qed.

Lemma dropLegacyColors_id el :
  ~ In (str "bgcolor") (map fst el) -> ~ In (str "color") (map fst el) ->
  dropLegacyColors el = el.
Proof.
  intros H1%hasAttribute_false H2%hasAttribute_false.
  unfold dropLegacyColors. by rewrite H1, H2.
Qed.

Lemma targetBlank_In t el y :
  In y (targetBlank t el) ->
  In y el \/ y = (str "target", str "_blank")
  \/ y = (str "rel", str "noopener noreferrer").
Proof.
  unfold targetBlank. destruct (_ && _); [|by left].
  intros [[H|H]%setAttribute_In|H]%setAttribute_In; auto.
Qed.

Lemma targetBlank_parsed t el :
  parsedAttrs el = true -> parsedAttrs (targetBlank t el) = true.
Proof.
  intros H. unfold targetBlank. destruct (_ && _); [|done].
  by repeat apply setAttribute_parsed.
Qed.

Lemma targetBlank_idempotent t el :
  parsedAttrs el = true -> targetBlank t (targetBlank t el) = targetBlank t el.
Proof.
  intros Hp.
  destruct (eqb t (str "a") && hasAttribute (str "href") el) eqn:E.
  2:{ assert (targetBlank t el = el) as -> by (unfold targetBlank; by rewrite E).
      unfold targetBlank. by rewrite E. }
  set (el1 := setAttribute (str "target") (str "_blank") el).
  set (el2 := setAttribute (str "rel") (str "noopener noreferrer") el1).
  assert (targetBlank t el = el2) as -> by (unfold targetBlank; by rewrite E).
  assert (parsedAttrs el2 = true) as [Hnd _]%parsedAttrs_spec
    by (by repeat apply setAttribute_parsed).
  assert (In (str "target", str "_blank") el2) as Htarget.
  { apply setAttribute_keeps; [apply setAttribute_has | done]. }
  assert (In (str "rel", str "noopener noreferrer") el2) as Hrel
    by apply setAttribute_has.
  unfold targetBlank.
  assert (eqb t (str "a") && hasAttribute (str "href") el2 = true) as ->.
  { apply andb_true_iff in E as [-> Hhref]. cbn [andb].
    apply hasAttribute_spec in Hhref. apply hasAttribute_spec.
    apply in_map_iff in Hhref as (y & Hy & Hin). apply in_map_iff. exists y.
    split; [done|]. unfold el2, el1.
    by repeat apply setAttribute_keeps; rewrite ?Hy. }
  rewrite (setAttribute_same (str "target") _ el2 Hnd Htarget).
  by apply setAttribute_same.
Qed.

(** A second pass over the attributes of an element changes nothing. *)
Lemma attributes_twice t el :
  parsedAttrs el = true ->
  let once := targetBlank t (sanitizeAttributes el) in
  targetBlank t (sanitizeAttributes once) = once.
Proof.
  intros Hp once.
  pose proof (dropLegacyColors_parsed el Hp) as Hp1.
  pose proof (sanitizedAttrs_parsed _ Hp1) as Hp2.
  rewrite <- (sanitizeAttributes_parsed el Hp) in Hp2.
  assert (parsedAttrs once = true) as Honce by by apply targetBlank_parsed.
  assert (forall y, In y once ->
            sanitizedAttr y = [y]
            /\ fst y <> str "bgcolor" /\ fst y <> str "color") as Hfixed.
  { intros y [Hy|[-> | ->]]%targetBlank_In; [|done..].
    rewrite (sanitizeAttributes_parsed el Hp) in Hy.
    split.
    - apply in_flat_map in Hy as (a & _ & Hy). by apply (sanitizedAttr_fixed a).
    - apply sanitizedAttrs_names in Hy.
      destruct (dropLegacyColors_none el) as [H1 H2].
      split; intros E; rewrite E in Hy; done. }
  rewrite (sanitizeAttributes_parsed once Honce).
  rewrite dropLegacyColors_id.
  - rewrite flat_map_fixed by (intros y Hy; by apply Hfixed).
    unfold once. apply targetBlank_idempotent. done.
  - intros (y & Hy & Hin)%in_map_iff. by apply Hfixed in Hin as (_ & H & _).
  - intros (y & Hy & Hin)%in_map_iff. by apply Hfixed in Hin as (_ & _ & H).
Qed.

(** *** The tree *)

Lemma without_selects tag n : without tag n = true -> selects tag n = false.
Proof.
  destruct n as [d|t el ch]; [done|]. cbn [without selects].
  by intros [Ht%negb_true_iff _]%andb_true_iff.
Qed.

Lemma removeIn_id tag n : without tag n = true -> removeIn tag n = n.
Proof.
  induction n as [d|t el ch IH] using Node_ind; [done|].
  cbn [without removeIn]. intros [_ Hch]%andb_true_iff. f_equal.
  destruct (isTemplate t); [done|]. cbn [orb] in Hch.
  induction IH as [|c ch Hc _ IHch]; [done|].
  cbn [forallb] in Hch. apply andb_true_iff in Hch as [Hc' Hch].
  cbn [flat_map]. by rewrite (without_selects _ _ Hc'), Hc, IHch.
Qed.

Lemma removeAll_id tag (l : list Node) :
  forallb (without tag) l = true -> removeAll tag l = l.
Proof.
  induction l as [|c l IH]; [done|]. cbn [forallb].
  intros [Hc Hl]%andb_true_iff.
  by rewrite removeAll_unfold, IH, (without_selects _ _ Hc), removeIn_id.
Qed.

Lemma removeDangerous_id (l : list Node) :
  forallb (fun n => forallb (fun tag => without tag n) dangerousTags) l = true ->
  removeDangerous l = l.
Proof.
  intros H. unfold removeDangerous.
  assert (forall tag, In tag dangerousTags -> forallb (without tag) l = true) as Hall.
  { intros tag Htag. apply forallb_forall. intros n Hn.
    rewrite forallb_forall in H. specialize (H n Hn).
    rewrite forallb_forall in H. by apply H. }
  clear H. revert Hall. generalize dangerousTags. intros tags.
  induction tags as [|tag tags IH]; [done|]. intros Hall. cbn [fold_left].
  rewrite removeAll_id by (apply Hall; by left).
  apply IH. intros tag' H. apply Hall. by right.
Qed.

Lemma sanitizeStyle_id n :
  without (str "style") n = true -> sanitizeStyle n = n.
Proof.
  induction n as [d|t el ch IH] using Node_ind; [done|].
  cbn [without sanitizeStyle]. intros [Ht Hch]%andb_true_iff.
  apply negb_true_iff in Ht. rewrite Ht. f_equal.
  destruct (isTemplate t); [done|]. cbn [orb] in Hch.
  induction IH as [|c ch Hc _ IHch]; [done|].
  cbn [forallb] in Hch. apply andb_true_iff in Hch as [Hc' Hch].
  cbn [map]. by rewrite Hc, IHch.
Qed.

Lemma map_id_on {A} (f : A -> A) (l : list A) :
  Forall (fun x => f x = x) l -> map f l = l.
Proof. induction 1 as [|x l Hx _ IH]; cbn; [done|]. by rewrite Hx, IH. Qed.

Lemma removeIn_parsed tag n : parsed n = true -> parsed (removeIn tag n) = true.
Proof.
  induction n as [d|t el ch IH] using Node_ind; [done|].
  cbn [parsed removeIn]. intros [Hel Hch]%andb_true_iff. rewrite Hel. cbn [andb].
  destruct (isTemplate t); [done|].
  induction IH as [|c ch Hc _ IHch]; [done|].
  cbn [forallb] in Hch. apply andb_true_iff in Hch as [Hc' Hch].
  cbn [flat_map]. rewrite forallb_app, IHch, andb_true_r by done.
  destruct (selects tag c); [done|]. cbn. by rewrite Hc.
Qed.

Lemma removeAll_parsed tag (l : list Node) :
  forallb parsed l = true -> forallb parsed (removeAll tag l) = true.
Proof.
  induction l as [|c l IH]; [done|]. cbn [forallb].
  intros [Hc Hl]%andb_true_iff.
  rewrite removeAll_unfold, forallb_app, IH, andb_true_r by done.
  destruct (selects tag c); [done|]. cbn. by rewrite removeIn_parsed.
Qed.

Lemma removeDangerous_parsed (l : list Node) :
  forallb parsed l = true -> forallb parsed (removeDangerous l) = true.
Proof.
  unfold removeDangerous. generalize dangerousTags. intros tags. revert l.
  induction tags as [|tag tags IH]; intros l H; [done|].
  cbn [fold_left]. by apply IH, removeAll_parsed.
Qed.

(** The two passes over the elements, run a second time on a parsed tree,
    give the tree of the first run. *)
Lemma elements_twice n :
  parsed n = true ->
  openInNewTab (sanitizeElement (openInNewTab (sanitizeElement n)))
  = openInNewTab (sanitizeElement n).
Proof.
  induction n as [d|t el ch IH] using Node_ind; [done|].
  cbn [parsed sanitizeElement openInNewTab].
  intros [Hel Hch]%andb_true_iff.
  rewrite (attributes_twice t el Hel). f_equal.
  destruct (isTemplate t); [done|].
  induction IH as [|c ch Hc _ IHch]; [done|].
  cbn [forallb] in Hch. apply andb_true_iff in Hch as [Hc' Hch].
  cbn [map]. by rewrite Hc, IHch.
Qed.

(** The passes run a second time on a parsed body without [style]
    element give the document of the first run. *)
Lemma second_run_changes_nothing (body : list Node) :
  forallb parsed body = true ->
  forallb (without (str "style")) body = true ->
  sanitizeHtml (sanitizeHtml body) = sanitizeHtml body.
Proof.
  intros Hp Hs.
  pose proof (removeDangerous_parsed body Hp) as Hp'.
  assert (forallb (without (str "style")) (removeDangerous body) = true) as Hs'
    by by apply fold_removeAll_keeps.
  assert (forall l, forallb (without (str "style")) l = true -> map sanitizeStyle l = l)
    as Hstyle.
  { intros l H. apply map_id_on. rewrite forallb_forall in H.
    apply List.Forall_forall. intros n Hn. by apply sanitizeStyle_id, H. }
  set (R := removeDangerous body) in *.
  set (O := map openInNewTab (map sanitizeElement R)).
  assert (sanitizeHtml body = O) as -> by (unfold sanitizeHtml; fold R; by rewrite Hstyle).
  assert (forallb (without (str "style")) O = true) as HsO.
  { apply forallb_forall. intros n (n1 & <- & (n0 & <- & Hn)%in_map_iff)%in_map_iff.
    apply openInNewTab_without, sanitizeElement_without.
    rewrite forallb_forall in Hs'. by apply Hs'. }
  assert (removeDangerous O = O) as HO.
  { apply removeDangerous_id. apply forallb_forall.
    intros n (n1 & <- & (n0 & <- & Hn)%in_map_iff)%in_map_iff.
    apply forallb_forall. intros tag Htag.
    apply openInNewTab_without, sanitizeElement_without.
    pose proof (removeDangerous_without tag body Htag) as H.
    rewrite forallb_forall in H. by apply H. }
  unfold sanitizeHtml. rewrite HO, (Hstyle _ HsO). unfold O.
  rewrite !map_map. apply map_ext_in. intros n Hn. apply elements_twice.
  rewrite forallb_forall in Hp'. by apply Hp'.
Qed.



(** On strings, the second call parses what the first serialized. When
    the parser reads that output back as the document it was written from,
    the second call returns the output of the first; when it does not (a
    line feed that follows the start tag of a [pre] is dropped by the
    parser, a carriage return written from a character reference is read
    back as a line feed), nothing is said. *)
Lemma sanitize_twice_on_strings (parse : list ascii -> list Node)
    (serialize : list Node -> list ascii) (html : list ascii) :
  forallb parsed (parse html) = true ->
  forallb (without (str "style")) (parse html) = true ->
  parse (sanitize parse serialize html) = sanitizeHtml (parse html) ->
  sanitize parse serialize (sanitize parse serialize html)
  = sanitize parse serialize html.
Proof.
  intros Hp Hs Hround. unfold sanitize at 1. rewrite Hround. unfold sanitize.
  by rewrite second_run_changes_nothing.
Qed.


End SecondPass.

(** ** Refill, prefetch and the split counts *)

Section RefillFacts.
Import Text Engine Navigation.

Implicit Types (st : State) (l : list Email) (r : Request).

Lemma maybeRefillEmails_in_flight st :
  refillInFlight st = true -> maybeRefillEmails st = (st, []).
Proof. intros H. unfold maybeRefillEmails. by rewrite H. Qed.

Lemma prefetch_no_list st :
  Forall (fun r => isListRequest r = false) (prefetchAdjacentEmails st).
Proof.
  unfold prefetchAdjacentEmails.
  destruct (currentEmail st) as [cur|]; [|constructor].
  destruct (findIndex _ _) as [idx|]; [|constructor].
  cbn [flat_map]. rewrite app_nil_r.
  repeat (apply Forall_app; split);
    (destruct (nth_error _ _) as [t|]; [|constructor]);
    (destruct (emailCache st !! id t); repeat constructor).
Qed.

Lemma saveScrollPosition_flag st :
  refillInFlight (saveScrollPosition st) = refillInFlight st.
Proof.
  unfold saveScrollPosition. destruct (view st); try done.
  by destruct (currentEmail st).
Qed.

Lemma showView_flag v st : refillInFlight (showView v st) = refillInFlight st.
Proof.
  unfold showView.
  destruct (view st), v; cbn; try done; apply saveScrollPosition_flag.
Qed.

(** Opening an email leaves the refill alone and asks for emails only. *)
Lemma loadEmailDetail_flag x st :
  refillInFlight (loadEmailDetail x st).1 = refillInFlight st
  /\ Forall (fun r => isListRequest r = false) (loadEmailDetail x st).2.
Proof.
  unfold loadEmailDetail. cbn zeta.
  destruct (emailCache (saveScrollPosition st) !! x) as [cached|].
  - cbn [fst snd]. split; [|apply prefetch_no_list].
    rewrite showView_flag. cbn. apply saveScrollPosition_flag.
  - cbn [fst snd]. split; [|by repeat constructor].
    destruct (findEmail x _) as [item|]; [|apply saveScrollPosition_flag].
    rewrite showView_flag. cbn. apply saveScrollPosition_flag.
Qed.

Lemma clampSelection_flag st :
  refillInFlight (clampSelection st) = refillInFlight st.
Proof. unfold clampSelection. by destruct (_ <=? _). Qed.

Lemma goToNextEmail_in_flight st :
  refillInFlight st = true ->
  refillInFlight (goToNextEmail st).1 = true
  /\ Forall (fun r => isListRequest r = false) (goToNextEmail st).2.
Proof.
  intros H. unfold goToNextEmail.
  destruct (len st =? 0).
  - rewrite maybeRefillEmails_in_flight by (by rewrite showView_flag).
    cbn [fst snd]. rewrite showView_flag. by split; [|constructor].
  - cbn zeta.
    destruct (selected _) as [next|].
    + match goal with |- context [loadEmailDetail ?y ?s] =>
        destruct (loadEmailDetail_flag y s) as [Hf Hr];
        destruct (loadEmailDetail y s) as [s1 reqs] end.
      cbn [fst snd] in Hf, Hr.
      rewrite maybeRefillEmails_in_flight by (by rewrite Hf).
      cbn [fst snd]. rewrite app_nil_r. split; [by rewrite Hf | done].
    + rewrite maybeRefillEmails_in_flight by (by rewrite showView_flag).
      cbn [fst snd]. rewrite showView_flag. by split; [|constructor].
Qed.

Lemma emailAction_in_flight type x now st :
  refillInFlight st = true ->
  (emailAction type x now st).1.2 = [PostAction x type]
  /\ refillInFlight (emailAction type x now st).1.1 = true.
Proof.
  intros H. unfold emailAction, removeEmailFromList. cbn zeta.
  rewrite maybeRefillEmails_in_flight by (by rewrite clampSelection_flag).
  cbn [fst snd app]. split; [done|].
  change (refillInFlight (adjustSplitCounts (-1) ?s)) with (refillInFlight s).
  by rewrite clampSelection_flag.
Qed.

(** X1. While a refill is in flight, the operations that end in
    [maybeRefillEmails] send no second request for a page of the list: an
    archive or trash sends its own call only, going to the next email and
    the archive of the open email ask for emails but for no page, and the
    flag stays set through all of them. *)
Theorem refill_in_flight_blocks_list_requests type x now st :
  refillInFlight st = true ->
  ((emailAction type x now st).1.2 = [PostAction x type]
   /\ refillInFlight (emailAction type x now st).1.1 = true)
  /\ (Forall (fun r => isListRequest r = false) (goToNextEmail st).2
      /\ refillInFlight (goToNextEmail st).1 = true)
  /\ (Forall (fun r => isListRequest r = false) (actionSelected type now st).1.2
      /\ refillInFlight (actionSelected type now st).1.1 = true)
  /\ (Forall (fun r => isListRequest r = false) (unsubscribeAndArchiveAll st).1.2
      /\ refillInFlight (unsubscribeAndArchiveAll st).1.1 = true).
Proof.
  intros H.
  split; [by apply emailAction_in_flight|].
  split; [by destruct (goToNextEmail_in_flight st H)|].
  split.
  - unfold actionSelected.
    destruct (getSelectedEmailId st) as [[|c i]|]; try (by split; [constructor|]).
    destruct (emailAction_in_flight type (c :: i) now st H) as [Hr Hf].
    destruct (emailAction type (c :: i) now st) as [[s1 reqs] removed].
    cbn [fst snd] in Hr, Hf. subst reqs.
    destruct (view s1);
      try (cbn [fst snd]; split; [by repeat constructor | done]).
    destruct (goToNextEmail_in_flight s1 Hf) as [Hf' Hr'].
    destruct (goToNextEmail s1) as [s2 reqs']. cbn [fst snd] in *.
    split; [|done]. by constructor.
  - unfold unsubscribeAndArchiveAll.
    destruct (getSelectedEmailId st) as [[|c i]|]; try (by split; [constructor|]).
    cbn zeta.
    destruct (toLowerCase <$> _) as [[|c' s']|].
    all: cbn beta iota zeta.
    all: match goal with |- context [view ?s] =>
           assert (refillInFlight s = true) as Hs
             by (try rewrite clampSelection_flag; exact H);
           destruct (view s) end.
    all: try (cbn [fst snd]; split; [by repeat constructor | done]).
    all: match goal with |- context [goToNextEmail ?s] =>
           destruct (goToNextEmail_in_flight s Hs) as [Hf' Hr'];
           destruct (goToNextEmail s) as [s2 reqs'] end.
    all: cbn [fst snd] in *; split; [|done].
    all: apply Forall_app; split; [done | by repeat constructor].
Qed.

Lemma refill_in_flight_blocks_list_requests_witness :
  let st := set_refillInFlight true
              (Sample.listing Sample.inbox [Sample.a; Sample.b; Sample.c]) in
  refillInFlight st = true
  /\ (emailAction (str "archive") (str "b") 7 st).1.2
     = [PostAction (str "b") (str "archive")]
  /\ refillInFlight (emailAction (str "archive") (str "b") 7 st).1.1 = true.
Proof.
  intros st. split; [reflexivity|].
  exact (proj1 (refill_in_flight_blocks_list_requests
                  (str "archive") (str "b") 7 st eq_refl)).
Defined.

Lemma maybeRefillEmails_twice st :
  (maybeRefillEmails (maybeRefillEmails st).1).2 = [].
Proof.
  unfold maybeRefillEmails at 2.
  destruct (refillInFlight st || _) eqn:E.
  - cbn [fst]. unfold maybeRefillEmails. by rewrite E.
  - destruct (currentMailbox st) as [m|] eqn:M; cbn [fst].
    + by rewrite maybeRefillEmails_in_flight.
    + unfold maybeRefillEmails. rewrite E, M. done.
Qed.

Lemma maybeRefillEmails_requests st :
  (length (maybeRefillEmails st).2 <= 1)%nat
  /\ ((maybeRefillEmails st).2 <> [] -> refillInFlight (maybeRefillEmails st).1 = true).
Proof.
  unfold maybeRefillEmails. destruct (_ || _); [by split; [cbn; lia|]|].
  destruct (currentMailbox st); cbn; split; (lia || done).
Qed.

Lemma filter_list_app (p : Request -> bool) (a b : list Request) :
  length (List.filter p (a ++ b)) =
  (length (List.filter p a) + length (List.filter p b))%nat.
Proof. by rewrite List.filter_app, length_app. Qed.

Lemma filter_none (p : Request -> bool) (a : list Request) :
  Forall (fun r => p r = false) a -> List.filter p a = [].
Proof.
  induction 1 as [|r a Hr _ IH]; [done|]. cbn. by rewrite Hr.
Qed.

Lemma filter_short (p : Request -> bool) (a : list Request) :
  (length (List.filter p a) <= length a)%nat.
Proof.
  induction a as [|r a IH]; [done|]. cbn. destruct (p r); cbn; lia.
Qed.

(** What [goToNextEmail] sends: at most one request for a page, and none
    while a refill is in flight. *)
Lemma goToNextEmail_requests st :
  (length (List.filter isListRequest (goToNextEmail st).2) <= 1)%nat.
Proof.
  unfold goToNextEmail. destruct (len st =? 0).
  - etrans; [apply filter_short|]. apply maybeRefillEmails_requests.
  - cbn zeta. destruct (selected _) as [next|].
    + match goal with |- context [loadEmailDetail ?y ?s] =>
        destruct (loadEmailDetail_flag y s) as [_ Hr];
        destruct (loadEmailDetail y s) as [s1 reqs] end.
      cbn [snd] in Hr.
      pose proof (maybeRefillEmails_requests s1) as [Hn _].
      destruct (maybeRefillEmails s1) as [s2 reqs']. cbn [fst snd] in *.
      rewrite filter_list_app, (filter_none _ _ Hr). cbn.
      etrans; [apply filter_short|]. done.
    + match goal with |- context [maybeRefillEmails ?s] =>
        pose proof (maybeRefillEmails_requests s) as [Hn _];
        destruct (maybeRefillEmails s) as [s2 reqs'] end.
      cbn [fst snd app] in *. etrans; [apply filter_short|]. done.
Qed.

(** X2. The archive or trash of the selected email, with the move to the
    next email it makes in the detail view, sends at most one request for a
    page of the list, although [maybeRefillEmails] runs twice in it; with
    no email selected it sends nothing at all. *)
Theorem actionSelected_sends_one_list_request type now st :
  (length (List.filter isListRequest (actionSelected type now st).1.2) <= 1)%nat
  /\ (getSelectedEmailId st = None -> (actionSelected type now st).1.2 = []).
Proof.
  unfold actionSelected. split; [|by intros ->].
  destruct (getSelectedEmailId st) as [[|c i]|]; try (cbn; lia).
  unfold emailAction, removeEmailFromList. cbn zeta.
  match goal with |- context [maybeRefillEmails ?s] =>
    pose proof (maybeRefillEmails_requests s) as [Hn Hf];
    pose proof (maybeRefillEmails_keeps s) as _;
    destruct (maybeRefillEmails s) as [s1 reqs] eqn:E end.
  cbn [fst snd] in *.
  change (view (adjustSplitCounts (-1) s1)) with (view s1).
  destruct (view s1).
  1,3: cbn [fst snd]; rewrite filter_list_app; cbn;
       pose proof (filter_short isListRequest reqs); lia.
  destruct reqs as [|q reqs].
  - pose proof (goToNextEmail_requests (adjustSplitCounts (-1) s1)) as Hg.
    destruct (goToNextEmail _) as [s2 reqs']. cbn [fst snd app] in *.
    exact Hg.
  - assert (refillInFlight (adjustSplitCounts (-1) s1) = true) as Hs
      by (by apply Hf).
    destruct (goToNextEmail_in_flight _ Hs) as [_ Hr].
    destruct (goToNextEmail _) as [s2 reqs']. cbn [fst snd] in *.
    pose proof (filter_short isListRequest (q :: reqs)) as Hq.
    rewrite !filter_list_app, (filter_none _ _ Hr).
    change (List.filter isListRequest [PostAction (c :: i) type]) with (@nil Request).
    change (length (@nil Request)) with O. lia.
Qed.

End RefillFacts.

(** ** Pages that arrive late, and the counts of the tabs *)

Section StaleFacts.
Import Text Engine Navigation.

Implicit Types (st : State) (l : list Email).

Lemma existing_ids l (x : list ascii) :
  x ∈ (list_to_set (map id l) : gset (list ascii)) <-> x ∈ map id l.
Proof. apply elem_of_list_to_set. Qed.

(** What the [then] of a refill does to the list when the mailbox and the
    search are those of the request. *)
Lemma refill_then_current mailbox search fresh st :
  mailboxId <$> currentMailbox st = Some mailbox ->
  searchQuery st = search ->
  emails (maybeRefillEmails_then mailbox search fresh st) =
  emails st ++
  List.filter (fun e => negb (bool_decide (id e ∈ map id (emails st)))) fresh.
Proof.
  intros Hm Hq. unfold maybeRefillEmails_then.
  rewrite bool_decide_true by done.
  replace (eqb (searchQuery st) search) with true
    by (symmetry; by apply eqb_true).
  cbn [negb orb].
  set (new := List.filter _ fresh).
  assert (new = List.filter
            (fun e => negb (bool_decide (id e ∈ map id (emails st)))) fresh) as ->.
  { apply List.filter_ext. intros e. f_equal. apply bool_decide_ext, existing_ids. }
  destruct (0 <? _)%nat eqn:E; [done|].
  apply Nat.ltb_ge in E. cbn.
  destruct (List.filter _ fresh); [by rewrite app_nil_r | cbn in E; lia].
Qed.

(** X3. A page asked for by [maybeRefillEmails] only ever extends the
    list: whatever arrives, the emails already listed stay where they are,
    what is added comes from the page and carries ids the list did not
    hold, the selection does not move, and the flag is cleared. *)
Theorem refill_only_appends mailbox search fresh st :
  let st' := maybeRefillEmails_then mailbox search fresh st in
  refillInFlight st' = false
  /\ selectedIndex st' = selectedIndex st
  /\ exists added,
       emails st' = emails st ++ added
       /\ forall e, In e added -> In e fresh /\ id e ∉ map id (emails st).
Proof.
  cbn zeta. unfold maybeRefillEmails_then.
  split; [done|].
  destruct (_ || _).
  - split; [done|]. exists []. split; [by rewrite app_nil_r | by intros e []].
  - set (new := List.filter _ fresh).
    assert (forall e, In e new -> In e fresh /\ id e ∉ map id (emails st)) as Hnew.
    { intros e [Hin Hp]%filter_In. split; [done|].
      apply negb_true_iff, bool_decide_eq_false in Hp.
      by rewrite <- existing_ids. }
    destruct (0 <? _)%nat.
    + split; [done|]. by exists new.
    + split; [done|]. exists []. split; [by rewrite app_nil_r | by intros e []].
Qed.

Lemma loadEmails_state st : (loadEmails st).1 = st.
Proof. unfold loadEmails. by destruct (currentMailbox st). Qed.

Lemma selectMailbox_state m st :
  currentMailbox (selectMailbox m st).1 = Some m
  /\ searchQuery (selectMailbox m st).1 = []
  /\ emails (selectMailbox m st).1 = emails st.
Proof.
  unfold selectMailbox. cbn zeta.
  match goal with |- context [loadEmails ?s] =>
    pose proof (loadEmails_state s) as H; destruct (loadEmails s) as [s1 reqs] end.
  cbn [fst] in *. by subst s1.
Qed.

(** X4. A page of the refill that arrives after the user has moved to
    another mailbox, or has submitted another search, is dropped: the list
    is left as it is. *)
Theorem late_refill_of_another_view_is_dropped mailbox search fresh m value st :
  mailboxId m <> mailbox -> value <> search ->
  emails (maybeRefillEmails_then mailbox search fresh (selectMailbox m st).1)
  = emails st
  /\ emails (maybeRefillEmails_then mailbox search fresh (submitSearch value st).1)
     = emails st.
Proof.
  intros Hm Hv. split.
  - destruct (selectMailbox_state m st) as (Hc & _ & He).
    unfold maybeRefillEmails_then. rewrite Hc. cbn [fmap option_fmap option_map].
    rewrite bool_decide_false by congruence. done.
  - unfold submitSearch. rewrite loadEmails_state.
    unfold maybeRefillEmails_then. cbn [searchQuery set_searchQuery].
    replace (eqb value search) with false by (symmetry; by apply eqb_false).
    by rewrite orb_true_r.
Qed.

Lemma late_refill_of_another_view_is_dropped_witness :
  let st := Sample.listing Sample.inbox [Sample.a; Sample.b] in
  emails (maybeRefillEmails_then (str "mb-inbox") [] [Sample.c; Sample.d]
            (selectMailbox Sample.sent st).1) = [Sample.a; Sample.b]
  /\ emails (maybeRefillEmails_then (str "mb-inbox") [] [Sample.c; Sample.d]
               (submitSearch (str "invoice") st).1) = [Sample.a; Sample.b].
Proof.
  intros st.
  apply (late_refill_of_another_view_is_dropped
           (str "mb-inbox") [] [Sample.c; Sample.d] Sample.sent (str "invoice") st);
    discriminate.
Defined.

(** X5. The test that drops a late page looks at the mailbox and at the
    search, not at the split tab: a page asked for under one tab, arriving
    after the user chose another tab of the same mailbox and the list of
    that tab has loaded, is appended to it, less the ids the list holds. *)
Theorem late_refill_is_kept_across_a_split_switch split page fresh m st :
  currentMailbox st = Some m ->
  let st1 := loadEmails_then page (selectSplit split st).1 in
  emails (maybeRefillEmails_then (mailboxId m) (searchQuery st) fresh st1)
  = page ++ List.filter (fun e => negb (bool_decide (id e ∈ map id page))) fresh.
Proof.
  intros Hm st1.
  assert (st1 = loadEmails_then page (set_currentSplit split st)) as ->
    by (unfold st1, selectSplit; by rewrite loadEmails_state).
  rewrite refill_then_current; [done| |done].
  cbn. by rewrite Hm.
Qed.

Lemma late_refill_is_kept_across_a_split_switch_witness :
  let st := Sample.listing Sample.inbox [Sample.a; Sample.b] in
  emails (maybeRefillEmails_then (str "mb-inbox") [] [Sample.d; Sample.e]
            (loadEmails_then [Sample.c; Sample.d]
               (selectSplit (Some (str "news")) st).1))
  = [Sample.c; Sample.d; Sample.e].
Proof.
  intros st.
  exact (late_refill_is_kept_across_a_split_switch
           (Some (str "news")) [Sample.c; Sample.d] [Sample.d; Sample.e]
           Sample.inbox st eq_refl).
Defined.

(** What a step finds at [key]: a number the language adds to exactly,
    or nothing, either in the counts or among the inherited functions. *)
Lemma bump_back key counts :
  match counts !! key with
  | Some v => exactCount v = true
  | None => inherited key = None
  end ->
  bump key 1 (bump key (-1) counts) = counts.
Proof.
  unfold bump. destruct (counts !! key) as [[n|t]|] eqn:E; [|done|].
  - intros _. rewrite lookup_insert_eq, insert_insert_eq.
    replace (n + -1 + 1) with n by lia. by apply insert_id.
  - intros ->. by rewrite E.
Qed.

Lemma bump_forth key counts :
  match counts !! key with
  | Some v => exactCount v = true
  | None => inherited key = None
  end ->
  bump key (-1) (bump key 1 counts) = counts.
Proof.
  unfold bump. destruct (counts !! key) as [[n|t]|] eqn:E; [|done|].
  - intros _. rewrite lookup_insert_eq, insert_insert_eq.
    replace (n + 1 + -1) with n by lia. by apply insert_id.
  - intros ->. by rewrite E.
Qed.

Lemma bump_lookup_ne k1 k2 d counts :
  k1 <> k2 -> bump k2 d counts !! k1 = counts !! k1.
Proof.
  intros Hk. unfold bump.
  destruct (counts !! k2) as [[n|t]|]; [| |destruct (inherited k2)];
    by rewrite ?lookup_insert_ne.
Qed.

Lemma bump_comm k1 k2 d1 d2 counts :
  k1 <> k2 ->
  bump k1 d1 (bump k2 d2 counts) = bump k2 d2 (bump k1 d1 counts).
Proof.
  intros Hk. unfold bump at 1 3.
  rewrite !bump_lookup_ne by done. unfold bump.
  destruct (counts !! k1) as [[n1|t1]|] eqn:E1,
           (counts !! k2) as [[n2|t2]|] eqn:E2;
    try destruct (inherited k1); try destruct (inherited k2);
    try done; by apply insert_insert_ne.
Qed.

Lemma bump_dom key d counts :
  match counts !! key with
  | Some v => exactCount v = true
  | None => inherited key = None
  end ->
  dom (bump key d counts) = dom counts.
Proof.
  unfold bump. destruct (counts !! key) as [[n|t]|] eqn:E; [|done|by intros ->].
  intros _. apply set_eq. intros k. rewrite !elem_of_dom.
  destruct (decide (k = key)) as [->|Hk].
  - rewrite lookup_insert_eq, E. by split; intros _.
  - by rewrite lookup_insert_ne.
Qed.

(** The counts after [adjustSplitCounts], by the split in use. *)
Lemma adjustSplitCounts_counts d st :
  splitCounts (adjustSplitCounts d st) =
  match currentSplit st with
  | Some (c :: s) =>
      if eqb (c :: s) (str "all") then bump (str "all") d (splitCounts st)
      else bump (c :: s) d (bump (str "all") d (splitCounts st))
  | _ => bump (str "all") d (splitCounts st)
  end.
Proof.
  unfold adjustSplitCounts. cbn [splitCounts set_splitCounts].
  destruct (currentSplit st) as [[|c s]|]; try done.
  cbn [truthy andb]. by destruct (eqb _ _).
Qed.

(** What [plainCounts] says of the two keys of a step. *)
Lemma plainCounts_keys st :
  plainCounts st ->
  match splitCounts st !! str "all" with
  | Some v => exactCount v = true
  | None => inherited (str "all") = None
  end
  /\ forall s, currentSplit st = Some s ->
       match splitCounts st !! s with
       | Some v => exactCount v = true
       | None => inherited s = None
       end.
Proof.
  intros [Hall Hs]. split.
  - destruct (splitCounts st !! str "all") as [v|] eqn:E; [|done].
    by apply (Hall _ _ E).
  - intros s Hc. destruct (splitCounts st !! s) as [v|] eqn:E.
    + by apply (Hall _ _ E).
    + by apply Hs.
Qed.

Lemma adjustSplitCounts_back st st' :
  plainCounts st ->
  currentSplit st' = currentSplit st ->
  splitCounts st' = splitCounts (adjustSplitCounts (-1) st) ->
  splitCounts (adjustSplitCounts 1 st') = splitCounts st.
Proof.
  intros [Hall Hsplit]%plainCounts_keys Hs Hc.
  rewrite adjustSplitCounts_counts, Hs, Hc, adjustSplitCounts_counts.
  destruct (currentSplit st) as [[|c s]|]; try by apply bump_back.
  specialize (Hsplit _ eq_refl).
  destruct (eqb _ _) eqn:E; [by apply bump_back|].
  apply eqb_false in E.
  rewrite (bump_comm (c :: s) (str "all") 1 1) by done.
  rewrite bump_back by by rewrite bump_lookup_ne.
  by apply bump_back.
Qed.

Lemma adjustSplitCounts_forth st st' :
  plainCounts st ->
  currentSplit st' = currentSplit st ->
  splitCounts st' = splitCounts (adjustSplitCounts 1 st) ->
  splitCounts (adjustSplitCounts (-1) st') = splitCounts st.
Proof.
  intros [Hall Hsplit]%plainCounts_keys Hs Hc.
  rewrite adjustSplitCounts_counts, Hs, Hc, adjustSplitCounts_counts.
  destruct (currentSplit st) as [[|c s]|]; try by apply bump_forth.
  specialize (Hsplit _ eq_refl).
  destruct (eqb _ _) eqn:E; [by apply bump_forth|].
  apply eqb_false in E.
  rewrite (bump_comm (c :: s) (str "all") (-1) (-1)) by done.
  rewrite bump_forth by by rewrite bump_lookup_ne.
  by apply bump_forth.
Qed.

Lemma emailAction_split type x now st :
  currentSplit (emailAction type x now st).1.1 = currentSplit st
  /\ splitCounts (emailAction type x now st).1.1
     = splitCounts (adjustSplitCounts (-1) st).
Proof.
  unfold emailAction, removeEmailFromList. cbn zeta.
  match goal with |- context [maybeRefillEmails ?s] =>
    assert (currentSplit (maybeRefillEmails s).1 = currentSplit s
            /\ splitCounts (maybeRefillEmails s).1 = splitCounts s) as [H1 H2]
      by (unfold maybeRefillEmails; destruct (_ || _); [done|];
          by destruct (currentMailbox s));
    destruct (maybeRefillEmails s) as [s1 reqs] end.
  cbn [fst snd] in *.
  rewrite !adjustSplitCounts_counts.
  change (currentSplit (adjustSplitCounts (-1) s1)) with (currentSplit s1).
  rewrite H1, H2.
  unfold clampSelection. by destruct (_ <=? _).
Qed.

Lemma performUndo_split st item :
  (performUndo st).2 = Some item ->
  currentSplit (performUndo st).1.1 = currentSplit st
  /\ splitCounts (performUndo st).1.1 = splitCounts (adjustSplitCounts 1 st).
Proof.
  unfold performUndo. destruct (undoStack st) as [|top rest]; [done|].
  cbn zeta. intros _. cbn [fst snd].
  rewrite !adjustSplitCounts_counts.
  destruct (emailData top); done.
Qed.

(** X6. [state.splitCounts] is a plain object that [adjustSplitCounts]
    reads with [!= null] and changes with [+=]. When the counts are numbers
    (below 2^53, where the language adds exactly) and the split in use has
    a count or has not the name of a function every object inherits, a step
    changes the counts only where a count is shown, and every rollback
    undoes the change of the step it rolls back: after an archive or trash
    whose call fails, after an undo whose call fails, and after an action
    followed by its undo, the counts are those found at the start. *)
Theorem rollbacks_restore_split_counts type x now st :
  plainCounts st ->
  (forall d, dom (splitCounts (adjustSplitCounts d st)) = dom (splitCounts st))
  /\ (let r := emailAction type x now st in
      splitCounts (emailAction_catch r.2.1 r.2.2 r.1.1) = splitCounts st)
  /\ (forall item, (performUndo st).2 = Some item ->
        splitCounts (performUndo_catch item (performUndo st).1.1) = splitCounts st)
  /\ splitCounts (performUndo (emailAction type x now st).1.1).1.1 = splitCounts st.
Proof.
  intros Hp. split; [|split; [|split]].
  - intros d. destruct (plainCounts_keys st Hp) as [Hall Hsplit].
    rewrite adjustSplitCounts_counts.
    destruct (currentSplit st) as [[|c s]|]; try by apply bump_dom.
    specialize (Hsplit _ eq_refl).
    destruct (eqb _ _) eqn:E; [by apply bump_dom|]. apply eqb_false in E.
    rewrite bump_dom by by rewrite bump_lookup_ne. by apply bump_dom.
  - cbn zeta. destruct (emailAction_split type x now st) as [Hs Hc].
    set (r := emailAction type x now st) in *.
    unfold emailAction_catch.
    apply adjustSplitCounts_back; [done|..]; destruct r.2.1; done.
  - intros item Hi. destruct (performUndo_split st item Hi) as [Hs Hc].
    unfold performUndo_catch.
    apply adjustSplitCounts_forth; [done|..]; destruct (emailData item); done.
  - destruct (emailAction_split type x now st) as [Hs Hc].
    destruct (emailAction_sync type x now st) as (_ & (label & Hu) & _).
    set (st1 := (emailAction type x now st).1.1) in *.
    assert ((performUndo st1).2 = Some (mkUndo label x (findEmail x (emails st))
              (indexOf (findEmail x (emails st)) (emails st)) now)) as Hi.
    { unfold performUndo. by rewrite Hu. }
    destruct (performUndo_split st1 _ Hi) as [_ ->].
    by apply adjustSplitCounts_back.
Qed.

Lemma rollbacks_restore_split_counts_witness :
  let st := set_splitCounts
              (<[str "all" := Number 5]> (<[str "news" := Number 2]> ∅))
              (set_currentSplit (Some (str "news"))
                 (Sample.listing Sample.inbox [Sample.a; Sample.b; Sample.c])) in
  let r := emailAction (str "archive") (str "b") 7 st in
  plainCounts st
  /\ splitCounts r.1.1 !! str "all" = Some (Number 4)
  /\ splitCounts r.1.1 !! str "news" = Some (Number 1)
  /\ splitCounts (emailAction_catch r.2.1 r.2.2 r.1.1) = splitCounts st.
Proof.
  intros st r.
  assert (plainCounts st) as Hp.
  { split.
    - intros k v. unfold st. cbn [splitCounts set_splitCounts].
      intros [[_ <-]|[_ [[_ <-]|[_ H]]%lookup_insert_Some]]%lookup_insert_Some;
        done.
    - intros s [= <-]. by vm_compute. }
  split; [exact Hp|]. split; [by vm_compute|]. split; [by vm_compute|].
  exact (proj1 (proj2 (rollbacks_restore_split_counts
                         (str "archive") (str "b") 7 st Hp))).
Defined.

(** Without that: in the tab of a split named [constructor], for which
    the server sent no count, the step finds the function every object
    inherits, writes a string in its place, and the rollback writes a
    longer one. *)
Lemma inherited_name_is_taken_for_a_count :
  let st := set_splitCounts (<[str "all" := Number 5]> ∅)
              (set_currentSplit (Some (str "constructor"))
                 (Sample.listing Sample.inbox [Sample.a; Sample.b; Sample.c])) in
  let r := emailAction (str "archive") (str "b") 7 st in
  splitCounts st !! str "constructor" = None
  /\ splitCounts r.1.1 !! str "constructor"
     = Some (Text (str "function Object() { [native code] }-1"))
  /\ splitCounts (emailAction_catch r.2.1 r.2.2 r.1.1) !! str "constructor"
     = Some (Text (str "function Object() { [native code] }-11"))
  /\ splitCounts (emailAction_catch r.2.1 r.2.2 r.1.1) !! str "all"
     = Some (Number 5).
Proof. cbn zeta. repeat split; by vm_compute. Qed.

End StaleFacts.

(** ** The detail cache, the prefetch and the scroll positions *)

Section CacheFacts.
Import Text Engine Navigation.

Implicit Types (st : State) (l : list Email).

Lemma saveScrollPosition_cache st :
  emailCache (saveScrollPosition st) = emailCache st
  /\ emails (saveScrollPosition st) = emails st.
Proof.
  unfold saveScrollPosition. destruct (view st); try done.
  by destruct (currentEmail st).
Qed.

Lemma showView_cache v st :
  emailCache (showView v st) = emailCache st
  /\ emails (showView v st) = emails st
  /\ currentEmail (showView v st) = currentEmail st
  /\ detailPane (showView v st) = detailPane st
  /\ bodyScrollTop (showView v st) = bodyScrollTop st
  /\ view (showView v st) = v.
Proof.
  unfold showView, saveScrollPosition.
  destruct (view st) eqn:V, v; try done; rewrite ?V;
    by destruct (currentEmail st) eqn:C.
Qed.

Lemma prefetch_requests st :
  (length (prefetchAdjacentEmails st) <= 3)%nat
  /\ forall r, In r (prefetchAdjacentEmails st) ->
       exists e, r = GetEmail (id e) /\ In e (emails st)
                 /\ emailCache st !! id e = None.
Proof.
  unfold prefetchAdjacentEmails.
  destruct (currentEmail st) as [cur|]; [|by split; [cbn; lia|]].
  destruct (findIndex _ _) as [idx|]; [|by split; [cbn; lia|]].
  cbn [flat_map]. rewrite app_nil_r.
  assert (forall i,
    let q := match nth_error (emails st) (idx + i) with
             | Some target =>
                 match emailCache st !! id target with
                 | Some _ => []
                 | None => [GetEmail (id target)]
                 end
             | None => []
             end in
    (length q <= 1)%nat
    /\ forall r, In r q -> exists e, r = GetEmail (id e) /\ In e (emails st)
                                      /\ emailCache st !! id e = None) as H.
  { intros i. cbn zeta.
    destruct (nth_error _ _) as [t|] eqn:N; [|by split; [cbn; lia|]].
    destruct (emailCache st !! id t) eqn:C; [by split; [cbn; lia|]|].
    split; [cbn; lia|]. intros r [<-|[]]. exists t.
    split; [done|]. split; [by eapply nth_error_In | done]. }
  destruct (H 1%nat) as [L1 I1], (H 2%nat) as [L2 I2], (H 3%nat) as [L3 I3].
  split; [rewrite !length_app; lia|].
  intros r [Hr|[Hr|Hr]%in_app_or]%in_app_or; eauto.
Qed.

(** X7. The prefetch asks for at most three emails, each of them an email
    of the list that the cache does not hold; with no email open, or with
    the open email not in the list, it asks for nothing. *)
Theorem prefetch_asks_for_uncached_emails st :
  (length (prefetchAdjacentEmails st) <= 3)%nat
  /\ (forall r, In r (prefetchAdjacentEmails st) ->
        exists e, r = GetEmail (id e) /\ In e (emails st)
                  /\ emailCache st !! id e = None)
  /\ ((forall cur, currentEmail st = Some cur -> id cur ∉ map id (emails st)) ->
      prefetchAdjacentEmails st = []).
Proof.
  destruct (prefetch_requests st) as [H1 H2]. split; [done|]. split; [done|].
  intros Hcur. unfold prefetchAdjacentEmails.
  destruct (currentEmail st) as [cur|]; [|done].
  specialize (Hcur cur eq_refl).
  assert (forall l, id cur ∉ map id l -> findIndex (id cur) l = None) as Hf.
  { induction l as [|a l IH]; [done|]. cbn [map findIndex].
    intros Hn. destruct (eqb (id a) (id cur)) eqn:E.
    - apply eqb_true in E. exfalso. apply Hn. rewrite E. left.
    - rewrite IH; [done|]. intros Hin. apply Hn. by right. }
  by rewrite Hf.
Qed.

(** X8. An email the cache holds opens at once and in full, from the
    cache, and is not asked for again: neither by [loadEmailDetail] nor by
    the prefetch it starts. *)
Theorem cached_email_opens_without_a_fetch x cached st :
  emailCache st !! x = Some cached ->
  let r := loadEmailDetail x st in
  view r.1 = DetailView
  /\ currentEmail r.1 = Some cached
  /\ detailPane r.1 = Full cached
  /\ ~ In (GetEmail x) r.2.
Proof.
  intros Hc r. subst r. unfold loadEmailDetail. cbn zeta.
  destruct (saveScrollPosition_cache st) as [Hs _]. rewrite Hs, Hc.
  cbn [fst snd].
  match goal with |- context [showView DetailView ?s] =>
    destruct (showView_cache DetailView s) as (Ec & _ & Ecur & Ep & _ & Ev);
    set (s1 := showView DetailView s) in * end.
  split; [done|]. split; [by rewrite Ecur|]. split; [by rewrite Ep|].
  intros Hin.
  apply prefetch_requests in Hin as (e & [= Hx] & _ & Hn).
  rewrite <- Hx, Ec in Hn. cbn in Hn. rewrite Hs, Hc in Hn. done.
Qed.

Lemma cached_email_opens_without_a_fetch_witness :
  let st := set_emailCache (<[str "b" := Sample.email "b" 40]> ∅)
              (Sample.listing Sample.inbox [Sample.a; Sample.b; Sample.c]) in
  emailCache st !! str "b" = Some (Sample.email "b" 40)
  /\ detailPane (loadEmailDetail (str "b") st).1 = Full (Sample.email "b" 40)
  /\ ~ In (GetEmail (str "b")) (loadEmailDetail (str "b") st).2.
Proof.
  intros st.
  assert (emailCache st !! str "b" = Some (Sample.email "b" 40)) as Hc
    by (vm_compute; reflexivity).
  destruct (cached_email_opens_without_a_fetch (str "b") _ st Hc)
    as (_ & _ & H3 & H4).
  split; [exact Hc|]. split; [exact H3 | exact H4].
Defined.

(** X9. The scroll position of the open email is kept when the detail view
    is left for the list, and is given back when the email, held by the
    cache, is opened again, wherever the pane was scrolled to in between:
    [z] is any position. *)
Theorem scroll_position_is_restored e cached z st :
  view st = DetailView ->
  currentEmail st = Some e ->
  emailCache st !! id e = Some cached ->
  let left := showView ListView st in
  let back := (loadEmailDetail (id e) (set_bodyScrollTop z left)).1 in
  scrollPositions left !! id e = Some (bodyScrollTop st)
  /\ bodyScrollTop back = bodyScrollTop st
  /\ view back = DetailView
  /\ currentEmail back = Some cached.
Proof.
  intros Hv He Hc left back.
  assert (left = set_view ListView
                  (set_scrollPositions
                     (<[id e := bodyScrollTop st]> (scrollPositions st)) st)) as El.
  { unfold left, showView, saveScrollPosition. by rewrite Hv, He. }
  split; [rewrite El; cbn; apply lookup_insert_eq|].
  unfold back. rewrite El.
  unfold loadEmailDetail, saveScrollPosition. cbn [view set_view set_bodyScrollTop].
  cbn zeta. cbn [emailCache set_view set_scrollPositions set_bodyScrollTop]. rewrite Hc.
  cbn [fst].
  match goal with |- context [showView DetailView ?s] =>
    destruct (showView_cache DetailView s) as (_ & _ & -> & _ & -> & ->) end.
  cbn [bodyScrollTop set_bodyScrollTop].
  unfold renderEmailDetail. cbn. by rewrite lookup_insert_eq.
Qed.

Lemma scroll_position_is_restored_witness :
  let st := set_bodyScrollTop 320
              (set_view DetailView
                 (set_currentEmail (Some Sample.b)
                    (set_emailCache (<[str "b" := Sample.email "b" 40]> ∅)
                       (Sample.listing Sample.inbox [Sample.a; Sample.b])))) in
  let left := set_bodyScrollTop 0 (showView ListView st) in
  bodyScrollTop left = 0
  /\ bodyScrollTop (loadEmailDetail (str "b") left).1 = 320.
Proof.
  intros st left.
  assert (emailCache st !! id Sample.b = Some (Sample.email "b" 40)) as Hc
    by (vm_compute; reflexivity).
  split; [reflexivity|].
  exact (proj1 (proj2 (scroll_position_is_restored Sample.b _ 0 st
                         eq_refl eq_refl Hc))).
Defined.

End CacheFacts.

(** ** The selected row, the open email and the split tabs *)

Section NavigationFacts.
Import Text Engine Navigation.

Implicit Types (st : State) (l pre post : list Email) (e : Email).

(** [maybeRefillEmails] sets its flag and changes nothing else. *)
Lemma maybeRefillEmails_state st :
  (maybeRefillEmails st).1 = st
  \/ (maybeRefillEmails st).1 = set_refillInFlight true st.
Proof.
  unfold maybeRefillEmails. destruct (_ || _); [by left|].
  destruct (currentMailbox st); [by right | by left].
Qed.

Lemma maybeRefillEmails_frame st :
  view (maybeRefillEmails st).1 = view st
  /\ emails (maybeRefillEmails st).1 = emails st
  /\ selectedIndex (maybeRefillEmails st).1 = selectedIndex st
  /\ currentEmail (maybeRefillEmails st).1 = currentEmail st
  /\ emailCache (maybeRefillEmails st).1 = emailCache st.
Proof. by destruct (maybeRefillEmails_state st) as [-> | ->]. Qed.

Lemma findEmail_distinct pre e post :
  distinctIds (pre ++ e :: post) -> findEmail (id e) (pre ++ e :: post) = Some e.
Proof.
  intros [Hpre _]%distinct_around. unfold findEmail.
  induction Hpre as [|a pre Ha _ IH]; cbn.
  - by rewrite eqb_refl.
  - apply eqb_false in Ha. by rewrite Ha.
Qed.

(** X10. In the detail view, the archive or trash of the open email, that
    being the selected row, opens the email that followed it in the list:
    the copy the cache holds if there is one, the row of the list if not.
    The row selected keeps its number, and the list loses the one email. *)
Theorem action_on_the_open_email_opens_the_next
    type now st pre e next post current :
  view st = DetailView ->
  emails st = pre ++ e :: next :: post ->
  distinctIds (emails st) ->
  currentEmail st = Some current ->
  id current = id e ->
  id e <> [] ->
  selectedIndex st = Z.of_nat (length pre) ->
  let r := actionSelected type now st in
  view r.1.1 = DetailView
  /\ emails r.1.1 = pre ++ next :: post
  /\ selectedIndex r.1.1 = Z.of_nat (length pre)
  /\ currentEmail r.1.1 = Some (default next (emailCache st !! id next)).
Proof.
  intros Hv Hl Hd Hcur Hid Hne Hsel r. subst r.
  unfold actionSelected, getSelectedEmailId. rewrite Hv, Hcur, Hid.
  assert (exists c i, id e = c :: i) as (c & i & Ee)
    by (destruct (id e); [done | eauto]).
  rewrite Ee. cbn beta iota. rewrite <- Ee. clear c i Ee Hne.
  assert (withoutId (id e) (emails st) = pre ++ next :: post) as Hw.
  { rewrite Hl. apply withoutId_cut. by rewrite <- Hl. }
  assert (distinctIds (pre ++ next :: post)) as Hd'.
  { rewrite <- Hw. by apply withoutId_distinct. }
  unfold emailAction, removeEmailFromList. cbn zeta.
  set (s0 := set_emails _ _).
  assert (clampSelection s0 = s0) as ->.
  { unfold clampSelection, len. subst s0. cbn [emails set_emails selectedIndex pushUndo set_undoStack].
    rewrite Hw, Hsel, length_app. cbn [length].
    destruct (Z.leb_spec (Z.of_nat (length pre + S (length post)))
                         (Z.of_nat (length pre))); [lia | done]. }
  assert (emails s0 = pre ++ next :: post) as He0 by (subst s0; exact Hw).
  assert (view s0 = DetailView /\ selectedIndex s0 = Z.of_nat (length pre)
          /\ emailCache s0 = emailCache st) as (Hv0 & Hs0 & Hc0)
    by (subst s0; cbn; auto).
  clearbody s0.
  assert (exists s1, (maybeRefillEmails s0).1 = s1
            /\ emails s1 = emails s0 /\ view s1 = view s0
            /\ selectedIndex s1 = selectedIndex s0
            /\ emailCache s1 = emailCache s0) as (s1 & E1 & He1 & Hv1 & Hs1 & Hc1).
  { destruct (maybeRefillEmails_state s0) as [->| ->]; eexists; eauto. }
  destruct (maybeRefillEmails s0) as [s1' reqs]. cbn [fst] in E1. subst s1'.
  change (view (adjustSplitCounts (-1) s1)) with (view s1).
  rewrite Hv1, Hv0.
  set (s2 := adjustSplitCounts (-1) s1).
  assert (emails s2 = pre ++ next :: post /\ view s2 = DetailView
          /\ selectedIndex s2 = Z.of_nat (length pre)
          /\ emailCache s2 = emailCache st) as (He2 & Hv2 & Hs2 & Hc2).
  { subst s2. cbn. rewrite He1, Hv1, Hs1, Hc1. auto. }
  clearbody s2. clear dependent s0. clear dependent s1.
  unfold goToNextEmail, len. rewrite He2, Hs2, length_app. cbn [length].
  destruct (Z.eqb_spec (Z.of_nat (length pre + S (length post))) 0); [lia|].
  rewrite Z.min_l by lia. cbn zeta.
  unfold selected. cbn [selectedIndex set_selectedIndex emails].
  destruct (Z.ltb_spec (Z.of_nat (length pre)) 0); [lia|].
  rewrite He2, Nat2Z.id, nth_error_app2, Nat.sub_diag by lia. cbn [nth_error].
  set (s3 := set_selectedIndex _ s2).
  assert (emails s3 = pre ++ next :: post /\ view s3 = DetailView
          /\ selectedIndex s3 = Z.of_nat (length pre)
          /\ emailCache s3 = emailCache st) as (He3 & Hv3 & Hs3 & Hc3)
    by (subst s3; cbn; auto).
  clearbody s3. clear dependent s2.
  unfold loadEmailDetail. cbn zeta.
  destruct (saveScrollPosition_cache s3) as [Hsc Hse].
  assert (selectedIndex (saveScrollPosition s3) = selectedIndex s3) as Hss.
  { unfold saveScrollPosition. destruct (view s3); try done.
    by destruct (currentEmail s3). }
  rewrite Hsc, Hc3, Hse, He3, (findEmail_distinct pre next post Hd').
  set (s4 := saveScrollPosition s3) in *. clearbody s4.
  rewrite He3 in Hse. rewrite Hs3 in Hss.
  assert (forall s5,
            emails s5 = pre ++ next :: post ->
            selectedIndex s5 = Z.of_nat (length pre) ->
            currentEmail s5 = Some (default next (emailCache st !! id next)) ->
            let s6 := (maybeRefillEmails (showView DetailView s5)).1 in
            view s6 = DetailView
            /\ emails s6 = pre ++ next :: post
            /\ selectedIndex s6 = Z.of_nat (length pre)
            /\ currentEmail s6
               = Some (default next (emailCache st !! id next))) as Hfin.
  { intros s5 He5 Hs5 Hc5 s6. subst s6.
    destruct (showView_cache DetailView s5) as (_ & He6 & Hc6 & _ & _ & Hv6).
    destruct (showView_keeps DetailView s5) as (_ & Hs6).
    destruct (maybeRefillEmails_frame (showView DetailView s5))
      as (-> & -> & -> & -> & _).
    by rewrite He6, Hc6, Hv6, Hs6. }
  destruct (emailCache st !! id next) as [cached|] eqn:C; cbn [default] in *.
  - match goal with |- context [showView DetailView ?s] =>
      specialize (Hfin s); destruct (maybeRefillEmails (showView DetailView s)) end.
    apply Hfin; done.
  - match goal with |- context [showView DetailView ?s] =>
      specialize (Hfin s); destruct (maybeRefillEmails (showView DetailView s)) end.
    apply Hfin; done.
Qed.

Lemma action_on_the_open_email_opens_the_next_witness :
  let st := set_currentEmail (Some Sample.b)
              (set_selectedIndex 1
                 (set_view DetailView
                    (Sample.listing Sample.inbox
                       [Sample.a; Sample.b; Sample.c; Sample.d]))) in
  let r := actionSelected (str "archive") 7 st in
  emails r.1.1 = [Sample.a; Sample.c; Sample.d]
  /\ selectedIndex r.1.1 = 1
  /\ currentEmail r.1.1 = Some Sample.c.
Proof.
  intros st r.
  assert (distinctIds (emails st)) as Hd.
  { unfold distinctIds. apply (bool_decide_unpack (NoDup _)). vm_compute. exact I. }
  assert (id Sample.b <> []) as Hne by discriminate.
  destruct (action_on_the_open_email_opens_the_next
              (str "archive") 7 st [Sample.a] Sample.b Sample.c [Sample.d] Sample.b
              eq_refl eq_refl Hd eq_refl eq_refl Hne eq_refl)
    as (_ & H2 & H3 & H4).
  split; [exact H2|]. split; [exact H3 | exact H4].
Defined.

Lemma indexOfTab_range i x tabs :
  indexOfTab i x tabs = -1
  \/ i <= indexOfTab i x tabs < i + Z.of_nat (length tabs).
Proof.
  revert i. induction tabs as [|t tabs IH]; intros i; [by left|].
  cbn [indexOfTab length]. destruct (eqb t x); [right; lia|].
  destruct (IH (i + 1)) as [->|H]; [by left | right; lia].
Qed.

Lemma indexOfTab_nth i x tabs :
  0 <= i -> i <= indexOfTab i x tabs ->
  nth_error tabs (Z.to_nat (indexOfTab i x tabs - i)) = Some x.
Proof.
  revert i. induction tabs as [|t tabs IH]; intros i Hi; cbn [indexOfTab]; [lia|].
  destruct (eqb t x) eqn:E.
  - intros _. rewrite Z.sub_diag. apply eqb_true in E. by subst.
  - intros H.
    assert (i + 1 <= indexOfTab (i + 1) x tabs) as H'.
    { destruct (indexOfTab_range (i + 1) x tabs) as [Hr|Hr]; lia. }
    specialize (IH (i + 1) ltac:(lia) H').
    replace (Z.to_nat (indexOfTab (i + 1) x tabs - i))
      with (S (Z.to_nat (indexOfTab (i + 1) x tabs - (i + 1)))) by lia.
    exact IH.
Qed.

Lemma indexOfTab_at i tabs k x :
  NoDup tabs -> nth_error tabs k = Some x ->
  indexOfTab i x tabs = i + Z.of_nat k.
Proof.
  intros Hd. revert i k. induction Hd as [|t tabs Ht Hd IH]; intros i k.
  - by destruct k.
  - destruct k as [|k]; cbn [nth_error indexOfTab].
    + intros [= ->]. rewrite eqb_refl. lia.
    + intros Hk. destruct (eqb t x) eqn:E.
      * apply eqb_true in E. subst t. exfalso. apply Ht.
        apply list_elem_of_In. by eapply nth_error_In.
      * rewrite (IH (i + 1) k Hk). lia.
Qed.

Lemma selectSplit_split s st : currentSplit (selectSplit s st).1 = s.
Proof. unfold selectSplit. by rewrite loadEmails_state. Qed.

Lemma selectSplit_tabs s st :
  noTabs (selectSplit s st).1 = noTabs st
  /\ allTabs (selectSplit s st).1 = allTabs st.
Proof. unfold selectSplit. by rewrite loadEmails_state. Qed.

(** X11. With the tabs shown, [Tab] and [Shift+Tab] always land on a tab:
    whatever the split in use, even none or one that is no tab, the split
    after [cycleSplit] with 1 or -1 is a tab of the bar. Without tabs the
    call changes nothing and sends nothing. *)
Theorem cycleSplit_lands_on_a_tab direction st :
  direction = 1 \/ direction = -1 ->
  (noTabs st = false ->
   exists t, currentSplit (cycleSplit direction st).1 = Some t
             /\ In t (allTabs st))
  /\ (noTabs st = true -> cycleSplit direction st = (st, [])).
Proof.
  intros Hd. unfold cycleSplit. split; intros Hn; rewrite Hn; [|done].
  cbn zeta. rewrite selectSplit_split.
  assert (2 <= Z.of_nat (length (allTabs st))) as Hlen.
  { unfold noTabs in Hn. apply orb_false_elim in Hn as [_ Hn].
    apply Nat.eqb_neq in Hn. unfold allTabs. cbn [length]. lia. }
  set (n := Z.of_nat (length (allTabs st))) in *.
  set (idx := tabIndex (currentSplit st) (allTabs st)).
  assert (-1 <= idx < n) as Hidx.
  { unfold idx, tabIndex. destruct (currentSplit st) as [s|]; [|lia].
    destruct (indexOfTab_range 0 s (allTabs st)) as [->|H]; subst n; lia. }
  assert (0 <= Z.rem (idx + direction + n) n < n) as Hr.
  { apply Z.rem_bound_pos; lia. }
  unfold tabAt. destruct (Z.ltb_spec (Z.rem (idx + direction + n) n) 0); [lia|].
  destruct (nth_error (allTabs st) (Z.to_nat (Z.rem (idx + direction + n) n)))
    as [t|] eqn:N.
  - exists t. split; [done|]. by eapply nth_error_In.
  - apply nth_error_None in N. subst n. lia.
Qed.

Lemma cycleSplit_lands_on_a_tab_witness :
  let st := mkState ListView [Sample.inbox] (Some Sample.inbox) [] 0 None []
              [] [str "news"; str "team"] (Some (str "team")) ∅ ∅ ∅ false Blank 0 in
  noTabs st = false
  /\ exists t, currentSplit (cycleSplit 1 st).1 = Some t /\ In t (allTabs st).
Proof.
  intros st. split; [reflexivity|].
  exact (proj1 (cycleSplit_lands_on_a_tab 1 st (or_introl eq_refl)) eq_refl).
Defined.

Lemma rem_forward_back k n :
  0 <= k < n -> 2 <= n ->
  (0 <= Z.rem (k + 1 + n) n < n
   /\ Z.rem (Z.rem (k + 1 + n) n + -1 + n) n = k)
  /\ (0 <= Z.rem (k + -1 + n) n < n
      /\ Z.rem (Z.rem (k + -1 + n) n + 1 + n) n = k).
Proof.
  intros Hk Hn.
  assert (Z.rem (k + 1 + n) n = if k + 1 =? n then 0 else k + 1) as ->.
  { rewrite Z.rem_mod_nonneg by lia.
    destruct (Z.eqb_spec (k + 1) n) as [E|E].
    - symmetry. apply (Z.mod_unique_pos _ _ 2); lia.
    - symmetry. apply (Z.mod_unique_pos _ _ 1); lia. }
  assert (Z.rem (k + -1 + n) n = if k =? 0 then n - 1 else k - 1) as ->.
  { rewrite Z.rem_mod_nonneg by lia.
    destruct (Z.eqb_spec k 0) as [E|E].
    - symmetry. apply (Z.mod_unique_pos _ _ 0); lia.
    - symmetry. apply (Z.mod_unique_pos _ _ 1); lia. }
  split.
  - destruct (Z.eqb_spec (k + 1) n) as [E|E]; (split; [lia|]);
      rewrite Z.rem_mod_nonneg by lia; symmetry.
    + apply (Z.mod_unique_pos _ _ 0); lia.
    + apply (Z.mod_unique_pos _ _ 1); lia.
  - destruct (Z.eqb_spec k 0) as [E|E]; (split; [lia|]);
      rewrite Z.rem_mod_nonneg by lia; symmetry.
    + apply (Z.mod_unique_pos _ _ 2); lia.
    + apply (Z.mod_unique_pos _ _ 1); lia.
Qed.

(** One step of [cycleSplit] from the tab at [k]. *)
Lemma cycleSplit_step direction s k st :
  noTabs st = false ->
  NoDup (allTabs st) ->
  currentSplit st = Some s ->
  nth_error (allTabs st) k = Some s ->
  let n := Z.of_nat (length (allTabs st)) in
  0 <= Z.rem (Z.of_nat k + direction + n) n < n ->
  currentSplit (cycleSplit direction st).1
  = nth_error (allTabs st) (Z.to_nat (Z.rem (Z.of_nat k + direction + n) n))
  /\ noTabs (cycleSplit direction st).1 = false
  /\ allTabs (cycleSplit direction st).1 = allTabs st.
Proof.
  intros Hn Hd Hs Hk n Hr. unfold cycleSplit. rewrite Hn. cbn zeta.
  rewrite selectSplit_split.
  destruct (selectSplit_tabs
              (tabAt (allTabs st)
                 (Z.rem (tabIndex (currentSplit st) (allTabs st) + direction
                         + Z.of_nat (length (allTabs st)))
                        (Z.of_nat (length (allTabs st))))) st) as [-> ->].
  split; [|done].
  rewrite Hs. cbn [tabIndex]. rewrite (indexOfTab_at 0 _ k s Hd Hk), Z.add_0_l.
  fold n. unfold tabAt.
  by destruct (Z.ltb_spec (Z.rem (Z.of_nat k + direction + n) n) 0); [lia|].
Qed.

(** X12. One tab forward and one tab back is where the user was: with the
    tabs shown, their ids distinct and the split in use one of them,
    [cycleSplit(1)] followed by [cycleSplit(-1)] gives the split back, and
    so does the other order. *)
Theorem cycleSplit_forward_then_back s st :
  noTabs st = false ->
  NoDup (allTabs st) ->
  currentSplit st = Some s ->
  In s (allTabs st) ->
  currentSplit (cycleSplit (-1) (cycleSplit 1 st).1).1 = Some s
  /\ currentSplit (cycleSplit 1 (cycleSplit (-1) st).1).1 = Some s.
Proof.
  intros Hn Hd Hs Hin.
  apply In_nth_error in Hin as [k Hk].
  assert (k < length (allTabs st))%nat as Hlt
    by (apply nth_error_Some; by rewrite Hk).
  assert (2 <= Z.of_nat (length (allTabs st))) as Hlen.
  { unfold noTabs in Hn. apply orb_false_elim in Hn as [_ Hn'].
    apply Nat.eqb_neq in Hn'. unfold allTabs. cbn [length]. lia. }
  destruct (rem_forward_back (Z.of_nat k) (Z.of_nat (length (allTabs st))))
    as [[F1 F2] [B1 B2]]; [lia | lia |].
  assert (forall direction back,
    0 <= Z.rem (Z.of_nat k + direction + Z.of_nat (length (allTabs st)))
               (Z.of_nat (length (allTabs st)))
      < Z.of_nat (length (allTabs st)) ->
    Z.rem (Z.rem (Z.of_nat k + direction + Z.of_nat (length (allTabs st)))
                 (Z.of_nat (length (allTabs st)))
           + back + Z.of_nat (length (allTabs st)))
          (Z.of_nat (length (allTabs st))) = Z.of_nat k ->
    currentSplit (cycleSplit back (cycleSplit direction st).1).1 = Some s) as H.
  { intros direction back R1 R2.
    destruct (cycleSplit_step direction s k st Hn Hd Hs Hk R1) as (Hc & Hn1 & Ht1).
    set (k1 := Z.to_nat _) in Hc.
    destruct (nth_error (allTabs st) k1) as [t|] eqn:N;
      [|apply nth_error_None in N; lia].
    set (st1 := (cycleSplit direction st).1) in *.
    destruct (cycleSplit_step back t k1 st1 Hn1) as (Hc2 & _).
    - by rewrite Ht1.
    - done.
    - by rewrite Ht1.
    - rewrite Ht1. unfold k1. rewrite Z2Nat.id by lia. rewrite R2. lia.
    - rewrite Hc2, Ht1. unfold k1. rewrite Z2Nat.id by lia.
      by rewrite R2, Nat2Z.id. }
  split; apply H; done.
Qed.

Lemma cycleSplit_forward_then_back_witness :
  let st := mkState ListView [Sample.inbox] (Some Sample.inbox) [] 0 None []
              [] [str "news"; str "team"] (Some (str "team")) ∅ ∅ ∅ false Blank 0 in
  currentSplit (cycleSplit 1 st).1 = Some (str "all")
  /\ currentSplit (cycleSplit (-1) (cycleSplit 1 st).1).1 = Some (str "team").
Proof.
  intros st. split; [reflexivity|].
  assert (NoDup (allTabs st)) as Hd
    by (apply (bool_decide_unpack (NoDup _)); vm_compute; exact I).
  assert (In (str "team") (allTabs st)) as Hin by (right; right; left; reflexivity).
  exact (proj1 (cycleSplit_forward_then_back (str "team") st eq_refl Hd eq_refl Hin)).
Defined.

End NavigationFacts.

(** ** Unsubscribe and archive all *)

Section UnsubscribeFacts.
Import Text Engine Navigation Order.

Implicit Types (st : State) (l : list Email) (e : Email) (p : Email -> bool).

Lemma goToNextEmail_emails st : emails (goToNextEmail st).1 = emails st.
Proof.
  unfold goToNextEmail. destruct (len st =? 0).
  - destruct (maybeRefillEmails_frame (showView ListView st)) as (_ & -> & _).
    by destruct (showView_keeps ListView st) as [-> _].
  - cbn zeta. destruct (selected _) as [next|].
    + match goal with |- context [loadEmailDetail ?y ?s] =>
        destruct (loadEmailDetail_keeps y s) as [He _];
        destruct (loadEmailDetail y s) as [s1 reqs] end.
      destruct (maybeRefillEmails_frame s1) as (_ & He' & _).
      destruct (maybeRefillEmails s1) as [s2 reqs']. cbn [fst] in *.
      by rewrite He', He.
    + match goal with |- context [maybeRefillEmails ?s] =>
        destruct (maybeRefillEmails_frame s) as (_ & He' & _);
        destruct (maybeRefillEmails s) as [s2 reqs'] end.
      cbn [fst] in *. rewrite He'.
      match goal with |- context [showView ListView ?s] =>
        by destruct (showView_keeps ListView s) as [-> _] end.
Qed.

(** The list and the emails set aside by [unsubscribeAndArchiveAll]: those
    of one sender leave the list, in one piece, or nothing does. *)
Lemma unsubscribeAndArchiveAll_lists st :
  let r := unsubscribeAndArchiveAll st in
  (r.2 = [] /\ emails r.1.1 = emails st)
  \/ exists sender,
       r.2 = List.filter (fromSender sender) (emails st)
       /\ emails r.1.1
          = List.filter (fun e => negb (fromSender sender e)) (emails st).
Proof.
  cbn zeta. unfold unsubscribeAndArchiveAll.
  destruct (getSelectedEmailId st) as [[|c i]|]; try by left.
  cbn zeta.
  destruct (toLowerCase <$> _) as [[|c' s']|]; cbn beta iota zeta.
  1,3: left; destruct (view st);
       [done | | done];
       pose proof (goToNextEmail_emails st) as He;
       by destruct (goToNextEmail st).
  right. exists (c' :: s').
  match goal with |- context [clampSelection ?s] =>
    destruct (clampSelection_keeps s) as (Hc & _);
    set (s1 := clampSelection s) in * end.
  cbn [emails set_emails] in Hc.
  destruct (view s1);
    [done | | done];
    pose proof (goToNextEmail_emails s1) as He;
    destruct (goToNextEmail s1); cbn [fst snd] in *; by rewrite He.
Qed.

Lemma insertByDate_perm e l : Permutation (insertByDate e l) (e :: l).
Proof.
  induction l as [|a l IH]; [done|]. cbn [insertByDate].
  destruct (_ <=? _); [done|]. rewrite IH. apply perm_swap.
Qed.

Lemma sortByDate_perm l : Permutation (sortByDate l) l.
Proof.
  induction l as [|a l IH]; [done|]. cbn [sortByDate fold_right].
  rewrite insertByDate_perm. by constructor.
Qed.

Lemma forallb_perm p l l' :
  Permutation l l' -> forallb p l = true -> forallb p l' = true.
Proof.
  intros Hp H. rewrite forallb_forall in *. intros x Hx. apply H.
  by eapply Permutation_in; [symmetry|].
Qed.

Lemma insertByDate_sorted e l :
  newestFirst l = true -> newestFirst (insertByDate e l) = true.
Proof.
  induction l as [|a l IH]; [done|]. cbn [insertByDate newestFirst].
  intros [Ha Hl]%andb_true_iff.
  destruct (Z.leb_spec (receivedAt a) (receivedAt e)) as [Hle|Hlt].
  - cbn [newestFirst forallb]. rewrite Ha, Hl, !andb_true_r.
    apply andb_true_iff. split; [by apply Z.leb_le|].
    rewrite forallb_forall in *. intros x Hx. apply Z.leb_le.
    specialize (Ha x Hx). apply Z.leb_le in Ha. lia.
  - cbn [newestFirst]. rewrite (IH Hl), andb_true_r.
    apply (forallb_perm _ (e :: l)); [symmetry; apply insertByDate_perm|].
    cbn [forallb]. rewrite Ha, andb_true_r. apply Z.leb_le. lia.
Qed.

Lemma sortByDate_sorted l : newestFirst (sortByDate l) = true.
Proof.
  induction l as [|a l IH]; [done|]. by apply insertByDate_sorted.
Qed.

Lemma partition_perm p l :
  Permutation (List.filter (fun e => negb (p e)) l ++ List.filter p l) l.
Proof.
  induction l as [|a l IH]; [done|]. cbn [List.filter].
  destruct (p a); cbn [negb].
  - rewrite <- Permutation_middle. by constructor.
  - cbn. by constructor.
Qed.

Lemma filter_nil_keeps p l :
  List.filter p l = [] -> List.filter (fun e => negb (p e)) l = l.
Proof.
  induction l as [|a l IH]; [done|]. cbn [List.filter].
  destruct (p a); [done|]. cbn [negb]. intros H. by rewrite IH.
Qed.

(** A list newest first is the only arrangement of its emails that is
    newest first, when no two were received at the same time. *)
Lemma newestFirst_unique l l' :
  newestFirst l = true -> strictlyNewestFirst l' = true ->
  Permutation l l' -> l = l'.
Proof.
  revert l'. induction l as [|a l IH]; intros l' Hl Hl' Hp.
  - apply Permutation_nil in Hp. by subst.
  - destruct l' as [|b l'];
      [by apply Permutation_sym, Permutation_nil in Hp|].
    cbn [newestFirst strictlyNewestFirst] in Hl, Hl'.
    apply andb_true_iff in Hl as [Ha Hl], Hl' as [Hb Hl'].
    rewrite forallb_forall in Ha, Hb.
    assert (a = b) as ->.
    { assert (In a (b :: l')) as [Hab|Hab]
        by (eapply Permutation_in; [exact Hp | by left]); [done|].
      assert (In b (a :: l)) as [Hba|Hba]
        by (eapply Permutation_in; [symmetry; exact Hp | by left]); [done|].
      apply Hb, Z.ltb_lt in Hab. apply Ha, Z.leb_le in Hba. lia. }
    f_equal. apply IH; [done | done |]. by eapply Permutation_cons_inv.
Qed.

(** X13. When the call of unsubscribe-and-archive-all fails, the emails
    taken out are given back: the list holds the emails it held before the
    key was pressed, each as many times as before, and where any were taken
    out it is ordered newest first. *)
Theorem failed_unsubscribe_gives_the_emails_back st :
  let r := unsubscribeAndArchiveAll st in
  let st2 := unsubscribeAndArchiveAll_catch r.2 r.1.1 in
  Permutation (emails st2) (emails st)
  /\ (r.2 <> [] -> newestFirst (emails st2) = true).
Proof.
  cbn zeta. unfold unsubscribeAndArchiveAll_catch.
  destruct (unsubscribeAndArchiveAll_lists st) as [[Hr He]|(sender & Hr & He)];
    cbn zeta in *; rewrite Hr.
  - cbn. by rewrite He.
  - destruct (List.filter (fromSender sender) (emails st)) as [|x removed] eqn:F.
    + cbn. split; [|done]. rewrite He. by rewrite filter_nil_keeps.
    + cbn [length Nat.ltb Nat.leb emails set_emails]. rewrite He, <- F. split.
      * rewrite sortByDate_perm. apply partition_perm.
      * intros _. apply sortByDate_sorted.
Qed.

(** X14. If the list was ordered newest first, no two emails received at
    the same time, the failure of unsubscribe-and-archive-all gives back
    the very list: every email is at the place it had. *)
Theorem failed_unsubscribe_restores_a_sorted_list st :
  strictlyNewestFirst (emails st) = true ->
  let r := unsubscribeAndArchiveAll st in
  emails (unsubscribeAndArchiveAll_catch r.2 r.1.1) = emails st.
Proof.
  intros Hs. cbn zeta. unfold unsubscribeAndArchiveAll_catch.
  destruct (unsubscribeAndArchiveAll_lists st) as [[Hr He]|(sender & Hr & He)];
    cbn zeta in *; rewrite Hr.
  - done.
  - destruct (List.filter (fromSender sender) (emails st)) as [|x removed] eqn:F.
    + cbn. rewrite He. by rewrite filter_nil_keeps.
    + cbn [length Nat.ltb Nat.leb emails set_emails]. rewrite He, <- F.
      apply newestFirst_unique; [apply sortByDate_sorted | done |].
      rewrite sortByDate_perm. apply partition_perm.
Qed.

Lemma failed_unsubscribe_restores_a_sorted_list_witness :
  let other := mkEmail (str "n") (Some (str "News@Example.org")) 35 true false None in
  let st := set_selectedIndex 2
              (Sample.listing Sample.inbox
                 [Sample.a; Sample.b; other; Sample.c]) in
  let r := unsubscribeAndArchiveAll st in
  emails r.1.1 = [Sample.a; Sample.b; Sample.c]
  /\ r.2 = [other]
  /\ emails (unsubscribeAndArchiveAll_catch r.2 r.1.1)
     = [Sample.a; Sample.b; other; Sample.c].
Proof.
  intros other st r.
  split; [vm_compute; reflexivity|]. split; [vm_compute; reflexivity|].
  exact (failed_unsubscribe_restores_a_sorted_list st eq_refl).
Defined.

End UnsubscribeFacts.

(** ** Links, colours and styles of the sanitized markup *)

Section MarkupFacts.
Import Text Sanitizer Markup.

Implicit Types (n : Node) (el : list Attr) (a y : Attr) (t name : list ascii).

#[local] Arguments eqb : simpl never.
#[local] Arguments isTemplate : simpl never.

Lemma getAttribute_set name value el :
  getAttribute name (setAttribute name value el) = Some value.
Proof.
  unfold getAttribute. induction el as [|a el IH]; cbn [setAttribute].
  - cbn. by rewrite eqb_refl.
  - destruct (eqb (fst a) name) eqn:E; cbn [List.find fst].
    + by rewrite E.
    + by rewrite E.
Qed.

Lemma getAttribute_set_other name name' value el :
  name <> name' ->
  getAttribute name (setAttribute name' value el) = getAttribute name el.
Proof.
  intros Hne. unfold getAttribute. induction el as [|a el IH]; cbn [setAttribute].
  - cbn. by rewrite (proj2 (eqb_false name' name)) by done.
  - destruct (eqb (fst a) name') eqn:E; cbn [List.find fst].
    + apply eqb_true in E. rewrite E.
      by rewrite (proj2 (eqb_false name' name)) by done.
    + destruct (eqb (fst a) name); [done | exact IH].
Qed.

Lemma hasAttribute_In name el :
  hasAttribute name el = true <-> exists y, In y el /\ fst y = name.
Proof.
  rewrite hasAttribute_spec, in_map_iff. split; intros (y & H1 & H2); eauto.
Qed.

Lemma targetBlank_opens t el : opensInNewTab t (targetBlank t el) = true.
Proof.
  unfold opensInNewTab, targetBlank.
  destruct (eqb t (str "a") && hasAttribute (str "href") el) eqn:E.
  - rewrite getAttribute_set.
    rewrite getAttribute_set_other by (vm_compute; discriminate).
    rewrite getAttribute_set, !bool_decide_true by done.
    cbn [andb]. apply implb_true_r.
  - by rewrite E.
Qed.

(** What holds of the attributes every element is left with holds of
    every element of the output. *)
Lemma everyElement_output (q : list ascii -> list Attr -> bool) :
  (forall t el, q t (targetBlank t (sanitizeAttributes el)) = true) ->
  forall n, everyElement q (openInNewTab (sanitizeElement n)) = true.
Proof.
  intros Hq. induction n as [d|t el ch IH] using Node_ind; [done|].
  cbn [sanitizeElement openInNewTab everyElement]. rewrite Hq. cbn [andb].
  destruct (isTemplate t); [done|]. cbn [orb].
  rewrite List.map_map. by apply forallb_map_Forall.
Qed.

Lemma sanitizeHtml_In body n :
  In n (sanitizeHtml body) ->
  exists m, In m (map sanitizeStyle (removeDangerous body))
            /\ n = openInNewTab (sanitizeElement m).
Proof.
  unfold sanitizeHtml. rewrite List.map_map.
  intros (m & <- & Hm)%in_map_iff. eauto.
Qed.

(** X15. Every link of the sanitized markup that is not in the content
    of a template opens in a new tab and hands over no opener: an [a]
    element with an [href] carries the [target] [_blank] and the [rel]
    [noopener noreferrer], whatever it carried in the email. (The content
    of a template is out of the reach of [querySelectorAll] and comes out
    as it went in.) *)
Theorem links_open_in_a_new_tab body :
  forallb (everyElement opensInNewTab) (sanitizeHtml body) = true.
Proof.
  apply forallb_forall. intros n (m & _ & ->)%sanitizeHtml_In.
  apply everyElement_output. intros t el. apply targetBlank_opens.
Qed.

Lemma sanitizeAttributes_In el y :
  In y (sanitizeAttributes el) ->
  In y (dropLegacyColors el) \/ fst y = str "style".
Proof.
  unfold sanitizeAttributes. cbn zeta. intros H.
  by apply fold_sanitizeAttr_In in H as [H _].
Qed.

Lemma dropLegacyColors_names el y :
  In y (dropLegacyColors el) -> fst y <> str "bgcolor" /\ fst y <> str "color".
Proof.
  unfold dropLegacyColors.
  destruct (hasAttribute (str "bgcolor") el) eqn:B.
  - destruct (hasAttribute (str "color") _) eqn:C.
    + intros [[_ H1]%removeAttribute_In H2]%removeAttribute_In. done.
    + intros H. pose proof H as [_ H1]%removeAttribute_In. split; [done|].
      intros E. apply not_true_iff_false in C. apply C.
      apply hasAttribute_In. eauto.
  - destruct (hasAttribute (str "color") el) eqn:C.
    + intros [H H2]%removeAttribute_In. split; [|done].
      intros E. apply not_true_iff_false in B. apply B.
      apply hasAttribute_In. eauto.
    + intros H. split; intros E;
        [apply not_true_iff_false in B; apply B
        |apply not_true_iff_false in C; apply C];
        apply hasAttribute_In; eauto.
Qed.

(** X16. No element of the sanitized markup carries a [bgcolor] or a
    [color] attribute, the elements in the content of a template left
    aside, which the loop does not visit. *)
Theorem no_legacy_colour_attribute_is_left body :
  forallb (everyElement noLegacyColor) (sanitizeHtml body) = true.
Proof.
  apply forallb_forall. intros n (m & _ & ->)%sanitizeHtml_In.
  apply everyElement_output. intros t el. unfold noLegacyColor.
  assert (forall name, name = str "bgcolor" \/ name = str "color" ->
            hasAttribute name (targetBlank t (sanitizeAttributes el)) = false) as H.
  { intros name Hname. apply not_true_iff_false.
    intros (y & Hy & Hn)%hasAttribute_In.
    apply targetBlank_In in Hy as [Hy|[->| ->]].
    - apply sanitizeAttributes_In in Hy as [Hy|Hy].
      + apply dropLegacyColors_names in Hy as [H1 H2].
        destruct Hname; congruence.
      + rewrite Hy in Hn. destruct Hname; subst name; discriminate.
    - destruct Hname; subst name; discriminate.
    - destruct Hname; subst name; discriminate. }
  rewrite !H by auto. done.
Qed.

Lemma sanitizeStyle_parsed n : parsed n = true -> parsed (sanitizeStyle n) = true.
Proof.
  induction n as [d|t el ch IH] using Node_ind; [done|].
  cbn [sanitizeStyle parsed]. intros [Hel Hch]%andb_true_iff.
  destruct (eqb t (str "style")); cbn [parsed]; rewrite Hel; cbn [andb].
  - unfold setTextContent. by destruct (nonEmpty _).
  - destruct (isTemplate t); [done|].
    apply forallb_map_Forall. rewrite forallb_forall in Hch.
    rewrite List.Forall_forall in *. auto.
Qed.

(** The value [stripColorStyles] returns, when it is not empty, passes the
    tests its caller made on the value it was given. *)
Lemma stripColorStyles_clean s :
  includes (toLowerCase s) (str "expression") = false ->
  includes (toLowerCase s) (str "javascript") = false ->
  nonEmpty (stripColorStyles s) = true ->
  cleanStyle (stripColorStyles s) = true.
Proof.
  intros He Hj Hn. unfold cleanStyle. rewrite Hn. cbn [andb].
  rewrite !stripColorStyles_guard; try done;
    try (cbn; intros H; repeat (destruct H as [H|H]; [discriminate H|]); exact H).
  cbn [negb]. rewrite !andb_true_r.
  destruct (stripColorStyles_pieces s) as [Hjoin Hpieces]. cbn zeta in *.
  set (ds := List.filter keepDeclaration (map trim (split ";" s))) in *.
  assert (ds <> []) as Hds.
  { intros E. rewrite Hjoin, E in Hn. done. }
  unfold declarations. rewrite (Hpieces Hds).
  apply forallb_forall. intros d [Hd _]%filter_In.
  apply kept_declarations in Hd as (_ & _ & Hne & Hk & _).
  unfold keepDeclaration in Hk. rewrite Hne in Hk.
  by apply andb_true_iff in Hk as [_ Hk].
Qed.

Lemma sanitizedAttr_clean a y :
  In y (sanitizedAttr a) -> fst y = str "style" -> cleanStyle (snd y) = true.
Proof.
  unfold sanitizedAttr.
  destruct (startsWith _ _); [done|].
  destruct (_ && _); [done|].
  destruct (eqb (toLowerCase (fst a)) (str "style")) eqn:Es.
  - destruct (includes (toLowerCase (snd a)) (str "expression")) eqn:He; [done|].
    destruct (includes (toLowerCase (snd a)) (str "javascript")) eqn:Hj; [done|].
    cbn [orb]. destruct (nonEmpty _) eqn:Hn; [|done].
    intros [<-|[]] _. cbn [snd]. by apply stripColorStyles_clean.
  - intros [<-|[]] Hy. rewrite Hy in Es. done.
Qed.

(** X17. In the sanitized markup of a parsed email, every [style]
    attribute of an element that is not in the content of a template is
    clean: its value is not empty, none of its declarations is of a
    property of [colorProps] or of one that begins with such a name and a
    dash, and, in any case of the letters, it holds neither [expression]
    nor [javascript]. *)
Theorem style_attributes_are_clean body :
  forallb parsed body = true ->
  forallb (everyElement styleIsClean) (sanitizeHtml body) = true.
Proof.
  intros Hp. apply forallb_forall. intros n (m & Hm & ->)%sanitizeHtml_In.
  assert (parsed m = true) as Hpm.
  { apply in_map_iff in Hm as (m0 & <- & Hm0). apply sanitizeStyle_parsed.
    pose proof (removeDangerous_parsed body Hp) as Hr.
    rewrite forallb_forall in Hr. auto. }
  clear Hm Hp. induction m as [d|t el ch IH] using Node_ind; [done|].
  cbn [parsed] in Hpm. apply andb_true_iff in Hpm as [Hel Hch].
  cbn [sanitizeElement openInNewTab everyElement].
  apply andb_true_iff. split.
  - unfold styleIsClean. apply forallb_forall. intros y Hy.
    destruct (eqb (fst y) (str "style")) eqn:Es; [|done]. cbn [implb].
    apply eqb_true in Es.
    apply targetBlank_In in Hy as [Hy|[->| ->]]; [|done|done].
    rewrite sanitizeAttributes_parsed in Hy by done.
    apply in_flat_map in Hy as (a & _ & Hy).
    by apply (sanitizedAttr_clean a).
  - destruct (isTemplate t); [done|]. cbn [orb].
    rewrite List.map_map. apply forallb_map_Forall.
    rewrite forallb_forall in Hch. rewrite List.Forall_forall in *. auto.
Qed.

Lemma style_attributes_are_clean_witness :
  let body :=
    [Element (str "p")
       [(str "style", str "color: red; margin: 4px; Background-Color: #fff")]
       [TextNode (str "hello")]] in
  sanitizeHtml body
  = [Element (str "p") [(str "style", str "margin: 4px")] [TextNode (str "hello")]]
  /\ forallb (everyElement styleIsClean) (sanitizeHtml body) = true.
Proof.
  intros body. split; [vm_compute; reflexivity|].
  exact (style_attributes_are_clean body eq_refl).
Defined.

Lemma kept_by_the_filter s :
  List.filter keepDeclaration (map trim (split ";" s)) = keptDeclarations s.
Proof.
  unfold keptDeclarations, declarations.
  rewrite <- (filter_implied keepDeclaration nonEmpty)
    by apply keepDeclaration_nonEmpty.
  apply filter_ext_in. intros d [_ Hd]%filter_In.
  unfold keepDeclaration. by rewrite Hd.
Qed.

Lemma stripColorStyles_kept s :
  stripColorStyles s = join (str "; ") (keptDeclarations s).
Proof. unfold stripColorStyles. by rewrite kept_by_the_filter. Qed.

Lemma keptDeclarations_nonEmpty s d :
  In d (keptDeclarations s) -> d <> [].
Proof.
  rewrite <- kept_by_the_filter. intros Hd.
  apply kept_declarations in Hd as (_ & _ & H & _). by destruct d.
Qed.

Lemma stripColorStyles_empty s :
  nonEmpty (stripColorStyles s) = match keptDeclarations s with [] => false | _ => true end.
Proof.
  rewrite stripColorStyles_kept.
  pose proof (keptDeclarations_nonEmpty s) as H.
  destruct (keptDeclarations s) as [|d ds]; [done|].
  specialize (H d (or_introl eq_refl)).
  destruct d as [|c d]; [done|]. by destruct ds.
Qed.

Lemma getAttribute_None name el :
  getAttribute name el = None <-> ~ In name (map fst el).
Proof.
  unfold getAttribute. induction el as [|a el IH];
    [split; [by intros _ [] | reflexivity]|].
  cbn [List.find map]. destruct (eqb (fst a) name) eqn:E.
  - split; [done|]. intros H. exfalso. apply H. left. by apply eqb_true.
  - rewrite IH. apply eqb_false in E. cbn [In]. tauto.
Qed.

Lemma getAttribute_remove_other name name' el :
  name <> name' ->
  getAttribute name (removeAttribute name' el) = getAttribute name el.
Proof.
  intros Hne. unfold getAttribute, removeAttribute.
  induction el as [|a el IH]; [done|]. cbn [List.filter List.find].
  destruct (eqb (fst a) name') eqn:E'; cbn [negb].
  - apply eqb_true in E'. rewrite E'.
    by rewrite (proj2 (eqb_false name' name)) by done.
  - cbn [List.find]. by destruct (eqb (fst a) name).
Qed.

Lemma getAttribute_dropLegacyColors el :
  getAttribute (str "style") (dropLegacyColors el) = getAttribute (str "style") el.
Proof.
  unfold dropLegacyColors.
  repeat match goal with
         | |- context [if ?b then _ else _] => destruct b
         end; rewrite ?getAttribute_remove_other; done.
Qed.

Lemma getAttribute_targetBlank name t el :
  name <> str "target" -> name <> str "rel" ->
  getAttribute name (targetBlank t el) = getAttribute name el.
Proof.
  intros H1 H2. unfold targetBlank. destruct (_ && _); [|done].
  by rewrite !getAttribute_set_other.
Qed.

Lemma sanitizedAttr_style value :
  sanitizedAttr (str "style", value) =
    match cleanedStyle value with
    | Some cleaned => [(str "style", cleaned)]
    | None => []
    end.
Proof.
  unfold sanitizedAttr, cleanedStyle. cbn [fst snd].
  change (toLowerCase (str "style")) with (str "style").
  change (startsWith (str "style") (str "on")) with false.
  change (existsb (eqb (str "style")) urlAttrs) with false.
  cbn [andb]. rewrite eqb_refl.
  destruct (_ || _); [done|].
  rewrite stripColorStyles_empty, stripColorStyles_kept.
  by destruct (keptDeclarations value).
Qed.

Lemma getAttribute_sanitized el :
  parsedAttrs el = true ->
  getAttribute (str "style") (flat_map sanitizedAttr el)
  = getAttribute (str "style") el ≫= cleanedStyle.
Proof.
  intros [Hnd _]%parsedAttrs_spec.
  induction el as [|a el IH]; [done|].
  cbn [map] in Hnd. apply NoDup_cons in Hnd as [Ha Hnd].
  cbn [flat_map]. destruct (eqb (fst a) (str "style")) eqn:E.
  - apply eqb_true in E. destruct a as [k v]. cbn [fst] in *. subst k.
    rewrite sanitizedAttr_style.
    assert (getAttribute (str "style") (((str "style", v) : Attr) :: el) = Some v) as ->.
    { unfold getAttribute. cbn [List.find fst]. by rewrite eqb_refl. }
    cbn [mbind option_bind]. destruct (cleanedStyle v) as [cleaned|].
    + unfold getAttribute. cbn [app List.find fst]. by rewrite eqb_refl.
    + cbn [app]. apply getAttribute_None.
      intros (y & Hy & Hin)%in_map_iff. apply sanitizedAttrs_names in Hin.
      apply Ha. rewrite <- Hy. by apply list_elem_of_In.
  - assert (getAttribute (str "style") (a :: el) = getAttribute (str "style") el) as ->.
    { unfold getAttribute. cbn [List.find]. by rewrite E. }
    rewrite <- IH by done. unfold getAttribute. f_equal.
    assert (forall l, Forall (fun y => eqb (fst y) (str "style") = false) l ->
              forall r, List.find (fun y => eqb (fst y) (str "style")) (l ++ r)
                        = List.find (fun y => eqb (fst y) (str "style")) r) as Hskip.
    { induction 1 as [|y l Hy _ IHl]; intros r; [done|].
      rewrite <- app_comm_cons. cbn [List.find]. rewrite Hy. apply IHl. }
    apply Hskip. apply List.Forall_forall. intros y Hy.
    apply sanitizedAttr_names in Hy. by rewrite Hy.
Qed.

(** C7, as the code has it. What the sanitizer does to the [style]
    attribute of an element it visits: when the value holds [expression] or
    [javascript], in any case of the letters, the attribute is removed
    whole, layout declarations with it; otherwise the declarations of the
    value that name one of [color], [background], [background-color],
    [background-image], [outline-color], [text-decoration-color],
    [text-shadow], [box-shadow], or a property that begins with one of them
    followed by a dash, are dropped with those that name no property, every
    other declaration is kept, in order, trimmed, joined with [; ], and the
    attribute is removed when none is left. The layout declarations are
    among those kept, and so is [border-color], which is not in the list. *)
Theorem style_attribute_keeps_the_other_declarations t el value :
  parsedAttrs el = true ->
  getAttribute (str "style") el = Some value ->
  let kept :=
    List.filter (fun d => nonEmpty (propName d) && negb (isColorProp (propName d)))
                (declarations value) in
  getAttribute (str "style") (targetBlank t (sanitizeAttributes el))
  = (if includes (toLowerCase value) (str "expression")
        || includes (toLowerCase value) (str "javascript")
     then None
     else match kept with
          | [] => None
          | _ => Some (join (str "; ") kept)
          end)
  /\ declarations (join (str "; ") kept) = kept.
Proof.
  intros Hp Hv kept. split.
  - rewrite getAttribute_targetBlank by (vm_compute; discriminate).
    rewrite sanitizeAttributes_parsed by done.
    rewrite getAttribute_sanitized by by apply dropLegacyColors_parsed.
    rewrite getAttribute_dropLegacyColors, Hv.
    unfold cleanedStyle, keptDeclarations. subst kept. simpl.
    destruct (_ || _); [done|]. by destruct (List.filter _ _).
  - subst kept.
    change (List.filter _ (declarations value)) with (keptDeclarations value).
    rewrite <- stripColorStyles_kept.
    apply stripColorStyles_declarations.
Qed.

Lemma style_attribute_keeps_the_other_declarations_witness :
  let el := [(str "class", str "note");
             (str "style", str "color:red; margin:4px;border-color:blue;Background:#fff")] in
  getAttribute (str "style") (targetBlank (str "p") (sanitizeAttributes el))
  = Some (str "margin:4px; border-color:blue").
Proof.
  intros el.
  exact (proj1 (style_attribute_keeps_the_other_declarations
                  (str "p") el _ eq_refl eq_refl)).
Defined.

(** The first case on a value that holds the word in the name of a font:
    the margin goes with it. *)
Lemma script_word_drops_the_whole_style :
  sanitizeHtml
    [Element (str "p")
       [(str "style", str "margin:4px;font-family:JavaScript Sans")]
       [TextNode (str "x")]]
  = [Element (str "p") [] [TextNode (str "x")]].
Proof. vm_compute. reflexivity. Qed.

End MarkupFacts.

(** ** Plain text shown as markup *)

Section PlainTextFacts.
Import Text PlainText.

Implicit Types (c : ascii) (s text url rest : list ascii).

Lemma escapeChar_plain c : isSpecial c = false -> escapeChar c = [c].
Proof.
  unfold isSpecial, escapeChar. intros H.
  repeat (apply orb_false_elim in H as [H ?]).
  by repeat match goal with E : _ = false |- _ => rewrite E; clear E end.
Qed.

Lemma escapeChar_cases c :
  escapeChar c = [c] /\ isSpecial c = false
  \/ isSpecial c = true
     /\ In (escapeChar c) [str "&amp;"; str "&lt;"; str "&gt;"; str "&nbsp;"].
Proof.
  unfold escapeChar, isSpecial.
  destruct (code c =? 38)%N; [right; cbn; auto|].
  destruct (code c =? 60)%N; [right; cbn; auto|].
  destruct (code c =? 62)%N; [right; cbn; auto|].
  destruct (code c =? 160)%N; [right; cbn; auto 6|].
  by left.
Qed.

Lemma code_eqb c (k : N) : (k < 256)%N -> (code c =? k)%N = Ascii.eqb c (ascii_of_N k).
Proof.
  intros Hk. destruct (N.eqb_spec (code c) k) as [E|E].
  - symmetry. apply Ascii.eqb_eq. unfold code in E. rewrite <- E.
    by rewrite ascii_N_embedding.
  - symmetry. apply Ascii.eqb_neq. intros ->. apply E. unfold code.
    by apply N_ascii_embedding.
Qed.

Lemma special_not_quote c : isSpecial c = true -> isQuote c = false.
Proof.
  unfold isSpecial, isQuote. rewrite !code_eqb by lia.
  destruct (Ascii.eqb_spec c quote) as [->|]; [done|].
  destruct (Ascii.eqb_spec c "'") as [->|]; done.
Qed.

Lemma angle_is_special c : isAngle c = true -> isSpecial c = true.
Proof.
  unfold isSpecial, isAngle. rewrite !code_eqb by lia.
  intros [->%Ascii.eqb_eq| ->%Ascii.eqb_eq]%orb_true_iff; done.
Qed.

Lemma escapeChar_no_angle c : forallb (fun x => negb (isAngle x)) (escapeChar c) = true.
Proof.
  destruct (escapeChar_cases c) as [[-> H]|[_ H]].
  - cbn. rewrite andb_true_r. apply negb_true_iff, not_true_iff_false.
    intros Ha%angle_is_special. congruence.
  - cbn in H. repeat destruct H as [<-|H]; done.
Qed.

(** X18. [escapeHtml] leaves no angle bracket: the ampersand, the two
    brackets and the no-break space are written as entities, every other
    character is copied. The quotes are among those copied, the double one
    too: the text is fit for the content of an element, not for the value
    of an attribute. *)
Theorem escapeHtml_escapes_for_element_content text :
  forallb (fun c => negb (isAngle c)) (escapeHtml text) = true
  /\ List.filter isQuote (escapeHtml text) = List.filter isQuote text
  /\ (forallb (fun c => negb (isSpecial c)) text = true -> escapeHtml text = text).
Proof.
  unfold escapeHtml. induction text as [|c text (IH1 & IH2 & IH3)]; [done|].
  cbn [flat_map]. split; [|split].
  - rewrite forallb_app, IH1, andb_true_r. apply escapeChar_no_angle.
  - rewrite List.filter_app, IH2. cbn [List.filter].
    destruct (escapeChar_cases c) as [[-> H]|[Hs H]].
    + cbn. by destruct (isQuote c).
    + rewrite (special_not_quote c Hs).
      cbn in H. repeat destruct H as [<-|H]; done.
  - cbn [forallb]. intros [Hc Ht]%andb_true_iff.
    apply negb_true_iff in Hc. rewrite (escapeChar_plain c Hc), IH3 by done. done.
Qed.

Lemma matchExact_app lit s r : matchExact lit s = Some r -> s = lit ++ r.
Proof.
  revert s. induction lit as [|a lit IH]; intros [|b s]; cbn; try done.
  - by intros [= ->].
  - by intros [= ->].
  - destruct (Ascii.eqb_spec a b) as [->|]; [|done].
    intros H. by rewrite (IH s H).
Qed.

Lemma scheme_spec s lit r :
  scheme s = Some (lit, r) ->
  s = lit ++ r /\ (lit = str "https://" \/ lit = str "http://").
Proof.
  unfold scheme.
  destruct (matchExact (str "https://") s) as [r1|] eqn:E1.
  - intros [= <- <-]. split; [by apply matchExact_app | by left].
  - destruct (matchExact (str "http://") s) as [r2|] eqn:E2; [|done].
    intros [= <- <-]. split; [by apply matchExact_app | by right].
Qed.

Lemma span_class (p : ascii -> bool) s :
  forallb p (fst (span p s)) = true /\ s = fst (span p s) ++ snd (span p s).
Proof.
  induction s as [|c s [IH1 IH2]]; [done|]. cbn [span].
  destruct (p c) eqn:E; [|done].
  destruct (span p s) as [a b]. cbn [fst snd forallb app] in *.
  rewrite E, IH1. split; [done|]. by rewrite <- IH2.
Qed.

(** What [trimPunct] cuts off is a run of punctuation, and nothing before
    a character that is none. *)
Lemma trimPunct_spec url :
  exists suffix,
    url = trimPunct url ++ suffix /\ forallb isPunct suffix = true.
Proof.
  induction url as [|c url (suffix & Hu & Hs)]; [by exists []|].
  cbn [trimPunct]. destruct (trimPunct url) as [|d r'] eqn:E.
  - destruct (isPunct c) eqn:Hc.
    + exists (c :: url). split; [done|]. cbn [forallb]. rewrite Hc.
      cbn in Hu. by rewrite Hu.
    + exists suffix. split; [|done]. cbn. by rewrite Hu at 1.
  - exists suffix. split; [|done]. cbn. by rewrite Hu at 1.
Qed.

Lemma trimPunct_keeps pre c url :
  isPunct c = false -> trimPunct (pre ++ c :: url) = pre ++ c :: trimPunct url.
Proof.
  intros Hc. induction pre as [|a pre IH]; cbn [app trimPunct].
  - rewrite Hc. by destruct (trimPunct url).
  - rewrite IH. by destruct pre.
Qed.

Lemma forallb_prefix (p : ascii -> bool) a b :
  forallb p (a ++ b) = true -> forallb p a = true.
Proof. rewrite forallb_app. by intros [H _]%andb_true_iff. Qed.

Lemma punct_not_angle c : isPunct c = true -> isAngle c = false.
Proof.
  unfold isPunct, isAngle. cbn [existsb]. rewrite orb_false_r.
  intros H. repeat apply orb_true_iff in H as [H|H];
    apply Ascii.eqb_eq in H; by subst c.
Qed.

Lemma Linkified_text s rest :
  forallb (fun c => negb (isAngle c)) s = true ->
  Linkified rest -> Linkified (s ++ rest).
Proof.
  induction s as [|c s IH]; [done|]. cbn [forallb app].
  intros [Hc Hs]%andb_true_iff Hr. apply negb_true_iff in Hc.
  constructor; auto.
Qed.

(** What the callback writes for a match of the expression. *)
Lemma reUrl_spec s out k :
  reUrl s = Some (out, k) ->
  exists url suffix,
    out = linkOf url ++ suffix
    /\ isHttpUrl url = true
    /\ forallb isPunct suffix = true
    /\ firstn k s = url ++ suffix.
Proof.
  unfold reUrl. destruct (scheme s) as [[lit r]|] eqn:E; [|done].
  apply scheme_spec in E as [Hs Hlit].
  destruct (span_class urlChar r) as [Hb Hr].
  destruct (fst (span urlChar r)) as [|b body] eqn:B; [done|].
  intros [= <- <-]. unfold linkify.
  destruct (trimPunct_spec (lit ++ b :: body)) as (suffix & Hu & Hp).
  exists (trimPunct (lit ++ b :: body)), suffix.
  assert (skipn (length (trimPunct (lit ++ b :: body))) (lit ++ b :: body) = suffix)
    as ->.
  { rewrite Hu at 2. by rewrite skipn_app, skipn_all, Nat.sub_diag. }
  split; [done|]. split; [|split; [done|]].
  - assert (forallb urlChar (lit ++ b :: body) = true) as Hall.
    { rewrite forallb_app, Hb, andb_true_r. by destruct Hlit as [-> | ->]. }
    unfold isHttpUrl. apply andb_true_iff. split.
    + destruct Hlit as [-> | ->].
      * change (str "https://" ++ b :: body)
          with (str "https:/" ++ "/"%char :: b :: body).
        rewrite trimPunct_keeps by done. apply orb_true_iff. right.
        apply startsWith_spec. by exists (trimPunct (b :: body)).
      * change (str "http://" ++ b :: body)
          with (str "http:/" ++ "/"%char :: b :: body).
        rewrite trimPunct_keeps by done. apply orb_true_iff. left.
        apply startsWith_spec. by exists (trimPunct (b :: body)).
    + rewrite Hu in Hall. by apply forallb_prefix in Hall.
  - rewrite <- Hu, Hs, Hr.
    by rewrite app_assoc, firstn_app, firstn_all, Nat.sub_diag, firstn_0, app_nil_r.
Qed.

Lemma replaceFrom_linkified skip s :
  forallb (fun c => negb (isAngle c)) s = true ->
  Linkified (replaceFrom reUrl skip s).
Proof.
  revert skip. induction s as [|c s IH]; intros skip; [constructor|].
  cbn [forallb]. intros [Hc Hs]%andb_true_iff. cbn [replaceFrom].
  destruct skip as [|k]; [|by apply IH].
  destruct (reUrl (c :: s)) as [[out n]|] eqn:E.
  - apply reUrl_spec in E as (url & suffix & -> & Hu & Hp & _).
    rewrite <- app_assoc. constructor; [done|].
    apply Linkified_text; [|by apply IH].
    apply forallb_forall. intros x Hx. rewrite forallb_forall in Hp.
    apply negb_true_iff, punct_not_angle. auto.
  - constructor; [by apply negb_true_iff | by apply IH].
Qed.

(** X19. The markup [linkifyText] writes is text without an angle
    bracket and links made by its callback, nothing else: every tag of it
    is the [a] of an address that begins with [http://] or [https://] and
    holds no white space, angle bracket, ampersand, quote, closing
    parenthesis or closing bracket, with that address as its text. *)
Theorem linkifyText_writes_text_and_links text : Linkified (linkifyText text).
Proof.
  unfold linkifyText, replaceAll. apply replaceFrom_linkified.
  unfold escapeHtml. induction text as [|c text IH]; [done|].
  cbn [flat_map]. rewrite forallb_app, IH, andb_true_r.
  apply escapeChar_no_angle.
Qed.

End PlainTextFacts.

(** ** Calls, download addresses and the start of the mobile application *)

Section JmapCallFacts.
Import Text Jmap JmapCalls Mobile.

Implicit Types (s pre post pattern : list ascii) (c : ascii).

Ltac refute :=
  intros;
  repeat match goal with
         | H : _ \/ _ |- _ => destruct H
         | H : _ /\ _ |- _ => destruct H
         | H : exists _, _ |- _ => destruct H
         end;
  simplify_eq; congruence.

Ltac settle := first [done | naive_solver | refute | idtac].

(** X20. [jmapCall] by cases, each with its condition. It answers with
    the body exactly when the session has the address of the API, [fetch]
    resolves, the status is in 200..299 and the body is JSON. It fails with
    a [JmapAuthError], [Session expired], exactly when the session has the
    address and the status is 401 or 403. It fails with a
    [JmapNetworkError] in the other cases, with the message of the case:
    [Not connected] without the address, whatever [fetch] would have done;
    the message of [fetch] when it rejects; the status when it is another
    one; [Invalid JSON] when the body does not parse. It fails in no other
    class. *)
Theorem jmapCall_outcomes session fetched :
  (forall data,
     jmapCall session fetched = inr data <->
     connected session = true
     /\ exists resp, fetched = Resolved resp /\ ok resp = true
                     /\ json resp = Some data)
  /\ (forall m,
        jmapCall session fetched = inl (JmapAuthError m) <->
        m = str "Session expired" /\ connected session = true
        /\ exists resp, fetched = Resolved resp
                        /\ (status resp = 401 \/ status resp = 403))
  /\ (forall m,
        jmapCall session fetched = inl (JmapNetworkError m) <->
        (connected session = false /\ m = str "Not connected")
        \/ (connected session = true
            /\ ((exists reason, fetched = Rejected reason
                                /\ m = str "Network error: " ++ reason)
                \/ exists resp,
                     fetched = Resolved resp
                     /\ status resp <> 401 /\ status resp <> 403
                     /\ ((ok resp = false
                          /\ m = str "JMAP call failed: HTTP "
                                 ++ decimal (status resp))
                         \/ (ok resp = true /\ json resp = None
                             /\ m = str "Invalid JSON in JMAP response")))))
  /\ jmapCall session fetched <> inl TypeError.
Proof.
  unfold jmapCall. destruct (connected session) eqn:C; cbn [negb].
  2: { repeat split; settle. }
  destruct fetched as [reason|resp].
  { repeat split; settle. }
  assert (ok resp = true -> status resp <> 401 /\ status resp <> 403) as Hok.
  { unfold ok. lia. }
  destruct (Z.eqb_spec (status resp) 401) as [E1|E1];
    [|destruct (Z.eqb_spec (status resp) 403) as [E3|E3]]; cbn [orb].
  1,2: repeat split; settle.
  destruct (ok resp) eqn:O; cbn [negb].
  - destruct (json resp) as [data|] eqn:J.
    + repeat split; settle.
    + repeat split; settle.
  - repeat split; settle.
Qed.

(** What [encodeURIComponent] writes: the characters it leaves alone, and
    the escapes. *)
Lemma encodeChar_chars c :
  forallb (fun x => unreserved x || Ascii.eqb x "%") (encodeChar c) = true.
Proof.
  destruct c as [[] [] [] [] [] [] [] []]; vm_compute; reflexivity.
Qed.

Lemma encodeURIComponent_chars s :
  forallb (fun x => unreserved x || Ascii.eqb x "%") (encodeURIComponent s) = true.
Proof.
  unfold encodeURIComponent. induction s as [|c s IH]; [done|].
  cbn [flat_map]. by rewrite forallb_app, encodeChar_chars, IH.
Qed.

Lemma encoded_lacks c0 s :
  unreserved c0 = false -> c0 <> "%"%char -> ~ In c0 (encodeURIComponent s).
Proof.
  intros Hu Hp Hin. pose proof (encodeURIComponent_chars s) as H.
  rewrite forallb_forall in H. apply H in Hin.
  apply orb_true_iff in Hin as [Hin|Hin%Ascii.eqb_eq]; congruence.
Qed.

Lemma expand_plain matched before after replacement :
  ~ In "$"%char replacement ->
  expand matched before after replacement = replacement.
Proof.
  induction replacement as [|c r IH]; [done|]. intros Hn. cbn [expand].
  destruct (Ascii.eqb_spec c "$") as [->|_]; [exfalso; apply Hn; by left|].
  rewrite IH; [done|]. intros Hin. apply Hn. by right.
Qed.

Lemma startsWith_app p post : startsWith (p ++ post) p = true.
Proof. apply startsWith_spec. by exists post. Qed.

Lemma startsWith_head c d s p :
  c <> d -> startsWith (c :: s) (d :: p) = false.
Proof.
  intros Hne. cbn. destruct (Ascii.eqb_spec d c); [by subst | done].
Qed.

Lemma findFirst_at c0 pattern pre post :
  ~ In c0 pre ->
  findFirst (c0 :: pattern) (pre ++ (c0 :: pattern) ++ post) = Some (pre, post).
Proof.
  intros Hpre. induction pre as [|c pre IH].
  - cbn [app findFirst].
    change (c0 :: pattern ++ post) with ((c0 :: pattern) ++ post).
    rewrite startsWith_app.
    by rewrite skipn_app, skipn_all, Nat.sub_diag.
  - rewrite <- app_comm_cons. cbn [findFirst].
    rewrite startsWith_head by (intros ->; apply Hpre; by left).
    rewrite IH; [done|]. intros Hin. apply Hpre. by right.
Qed.

(** A placeholder that comes after text without a brace is the one
    [replace] fills, with the value as it is written. *)
Lemma replace_placeholder pattern value pre post :
  ~ In "{"%char pre -> ~ In "$"%char value ->
  replace ("{"%char :: pattern) value (pre ++ ("{"%char :: pattern) ++ post)
  = pre ++ value ++ post.
Proof.
  intros Hpre Hv. unfold replace. rewrite findFirst_at by done.
  by rewrite expand_plain.
Qed.

(** X21. [blobUrl] fills the four placeholders of the template with the
    escaped values, and a value cannot pass for a placeholder or for a
    pattern of the replacement: for a template that names the account, the
    blob, the name and the type in this order, with no other brace before
    the last of them, the address is the template with each placeholder
    replaced by what [encodeURIComponent] makes of its value, the type
    being [application/octet-stream] when none is given. The account is
    the string the language makes of [session.accountId], however it prints
    a number. *)
Theorem blobUrl_fills_the_template (numberToString : Z -> list ascii) session
    (t0 t1 t2 t3 t4 blobId name : list ascii) type :
  downloadUrl session
  = JStr (t0 ++ str "{accountId}" ++ t1 ++ str "{blobId}" ++ t2
            ++ str "{name}" ++ t3 ++ str "{type}" ++ t4) ->
  ~ In "{"%char (t0 ++ t1 ++ t2 ++ t3) ->
  blobUrl numberToString (Some session) blobId name type
  = inr (Some (t0 ++ encodeURIComponent
                       (match accountId session with
                        | Some (JStr account) => account
                        | other => stringOf numberToString other
                        end)
                 ++ t1 ++ encodeURIComponent blobId
                 ++ t2 ++ encodeURIComponent name
                 ++ t3 ++ encodeURIComponent
                           (match type with
                            | Some (x :: t) => x :: t
                            | _ => str "application/octet-stream"
                            end)
                 ++ t4)).
Proof.
  intros Ht Hb. unfold blobUrl. rewrite Ht.
  assert (match accountId session with
          | Some (JStr account) => account
          | other => stringOf numberToString other
          end = stringOf numberToString (accountId session)) as ->
    by (by destruct (accountId session) as [[]|]).
  set (account := stringOf numberToString (accountId session)).
  assert (forall v, ~ In "{"%char (encodeURIComponent v)) as Hbrace
    by (intros v; by apply encoded_lacks).
  assert (forall v, ~ In "$"%char (encodeURIComponent v)) as Hdollar
    by (intros v; by apply encoded_lacks).
  assert (~ In "{"%char t0 /\ ~ In "{"%char t1 /\ ~ In "{"%char t2 /\ ~ In "{"%char t3)
    as (Ha & Hb' & Hc & Hd).
  { rewrite !in_app_iff in Hb. tauto. }
  assert (truthy (Some (JStr (t0 ++ str "{accountId}" ++ t1 ++ str "{blobId}" ++ t2
            ++ str "{name}" ++ t3 ++ str "{type}" ++ t4))) = true) as ->.
  { cbn [truthy]. rewrite bool_decide_false; [done|]. by destruct t0. }
  cbn [negb]. cbn zeta. do 2 f_equal.
  change (str "{accountId}") with ("{"%char :: str "accountId}").
  change (str "{blobId}") with ("{"%char :: str "blobId}").
  change (str "{name}") with ("{"%char :: str "name}").
  change (str "{type}") with ("{"%char :: str "type}").
  rewrite (replace_placeholder (str "accountId}")) by done.
  set (v1 := encodeURIComponent account).
  rewrite (app_assoc v1), (app_assoc t0).
  rewrite (replace_placeholder (str "blobId}"));
    [|rewrite !in_app_iff; pose proof (Hbrace account);
      tauto | done].
  set (v2 := encodeURIComponent blobId).
  rewrite (app_assoc v2), (app_assoc ((t0 ++ v1 ++ t1))).
  rewrite (replace_placeholder (str "name}"));
    [|rewrite !in_app_iff; pose proof (Hbrace account);
      pose proof (Hbrace blobId); tauto | done].
  set (v3 := encodeURIComponent name).
  rewrite (app_assoc v3), (app_assoc (((t0 ++ v1 ++ t1) ++ v2 ++ t2))).
  rewrite (replace_placeholder (str "type}"));
    [|rewrite !in_app_iff;
      pose proof (Hbrace account);
      pose proof (Hbrace blobId); pose proof (Hbrace name); tauto | done].
  rewrite <- !app_assoc. do 8 f_equal.
  by destruct type as [[|x t]|].
Qed.

Lemma blobUrl_fills_the_template_witness :
  let session :=
    mkSession (str "u") (str "t") None (Some (JStr (str "u1/2"))) JNull
      (JStr (str "https://h/{accountId}/{blobId}/{name}?accept={type}")) in
  blobUrl decimal (Some session) (str "G{name}$&") (str "a b.pdf") None
  = inr (Some (str "https://h/u1%2F2/G%7Bname%7D%24%26/a%20b.pdf?accept=application%2Foctet-stream")).
Proof.
  intros session.
  assert (~ In "{"%char (str "https://h/" ++ str "/" ++ str "/" ++ str "?accept="))
    as Hb.
  { cbn. intros H. repeat (destruct H as [H|H]; [discriminate H|]). exact H. }
  exact (blobUrl_fills_the_template decimal session
           (str "https://h/") (str "/") (str "/") (str "?accept=") []
           (str "G{name}$&") (str "a b.pdf") None eq_refl Hb).
Defined.

Lemma connect_session username token fetched fresh :
  connect username token fetched = inr fresh ->
  Jmap.username fresh = username /\ Jmap.token fresh = token
  /\ exists resp, fetched = Resolved resp /\ ok resp = true.
Proof.
  unfold connect. destruct fetched as [message|resp]; [done|].
  destruct (_ || _); [done|]. destruct (ok resp) eqn:O; [|done]. cbn [negb].
  destruct (json resp) as [data|]; [|done].
  destruct (get (str "apiUrl") data) as [?|api]; [done|].
  destruct (get (str "primaryAccounts") data) as [?|[accounts|]]; try done.
  destruct (get _ accounts) as [?|account]; [done|].
  destruct (get (str "uploadUrl") data) as [?|up];
    destruct (get (str "downloadUrl") data) as [?|down]; try done.
  intros [= <-]. cbn. eauto.
Qed.

Lemma get_error key data e : get key data = inl e -> e = TypeError.
Proof. destruct data; cbn; congruence. Qed.

Lemma connect_auth username token fetched m :
  connect username token fetched = inl (JmapAuthError m) <->
  m = str "Invalid token"
  /\ exists resp, fetched = Resolved resp /\ (status resp = 401 \/ status resp = 403).
Proof.
  unfold connect. destruct fetched as [message|resp].
  { split; [done | by intros (_ & r & ? & _)]. }
  destruct (Z.eqb_spec (status resp) 401) as [E1|E1];
    [|destruct (Z.eqb_spec (status resp) 403) as [E3|E3]]; cbn [orb].
  1,2: split; [intros [= <-]; split; [done|]; exists resp; auto
              | by intros (-> & _)].
  split; [|by intros (_ & r & [= <-] & [?|?])].
  destruct (ok resp); cbn [negb]; [|done].
  destruct (json resp) as [data|]; [|done].
  repeat match goal with
         | |- context [get ?k ?d] =>
             let G := fresh "G" in
             destruct (get k d) as [?e|?v] eqn:G;
             [apply get_error in G; subst|]
         | |- context [match ?v with Some _ => _ | None => _ end] => destruct v
         end; done.
Qed.

(** X22. The start of the mobile application, by what the session
    endpoint answers. On a 401 or a 403, and then only, the stored session
    is given up: the storage is cleared and the login form is shown. When
    [connect] returns a session, that session is stored and the
    application runs with it; it carries the stored user name and token.
    When [connect] fails otherwise (the network failing, the status being
    another one, the body unfit), the application runs with the stored
    session, which stays in the storage. *)
Theorem start_keeps_the_session_unless_refused session fetched :
  let r := init (Some session) fetched in
  ((exists resp, fetched = Resolved resp
                 /\ (status resp = 401 \/ status resp = 403))
   <-> r = (None, LoginScreen))
  /\ (forall fresh,
        connect (username session) (token session) fetched = inr fresh ->
        r = (Some fresh, AppShell fresh)
        /\ username fresh = username session
        /\ token fresh = token session)
  /\ (forall e,
        connect (username session) (token session) fetched = inl e ->
        classOf e <> AuthClass ->
        r = (Some session, AppShell session))
  /\ ((exists reason, fetched = Rejected reason)
      \/ (exists resp, fetched = Resolved resp
                       /\ status resp <> 401 /\ status resp <> 403
                       /\ (ok resp = false \/ json resp = None)) ->
      r = (Some session, AppShell session)).
Proof.
  cbn zeta. unfold init.
  destruct (connect (username session) (token session) fetched) as [e|fresh] eqn:C.
  - destruct e as [m|m|].
    + pose proof C as (_ & H)%connect_auth. split; [by split|].
      split; [done|]. split; [by intros e [= <-] He|].
      intros [[reason ->]|(resp & -> & H1 & H3 & _)];
        destruct H as (r & [= <-] & [?|?]); done.
    + split; [|by repeat split].
      split; [|done]. intros H.
      assert (connect (username session) (token session) fetched
              = inl (JmapAuthError (str "Invalid token"))) as C'
        by (by apply connect_auth).
      congruence.
    + split; [|by repeat split].
      split; [|done]. intros H.
      assert (connect (username session) (token session) fetched
              = inl (JmapAuthError (str "Invalid token"))) as C'
        by (by apply connect_auth).
      congruence.
  - pose proof (connect_session _ _ _ _ C) as (Hu & Ht & resp & -> & Hok).
    split; [|split; [|split]].
    + split; [|done]. intros H.
      assert (connect (username session) (token session) (Resolved resp)
              = inl (JmapAuthError (str "Invalid token"))) as C'
        by (by apply connect_auth).
      congruence.
    + by intros ? [= <-].
    + done.
    + intros [[reason [=]]|(r & [= <-] & H1 & H3 & [H|H])]; [congruence|].
      unfold connect in C.
      rewrite (proj2 (Z.eqb_neq _ _) H1), (proj2 (Z.eqb_neq _ _) H3), Hok, H in C.
      done.
Qed.

Lemma start_keeps_the_session_unless_refused_witness :
  let stored := mkSession (str "u") (str "t") (Some (JStr (str "https://old/")))
                  (Some (JStr (str "u1"))) JNull JNull in
  let fresh := mkSession (str "u") (str "t") (Some (JStr (str "https://api/")))
                 (Some (JStr (str "u2"))) JNull JNull in
  let body :=
    JObj [(str "apiUrl", JStr (str "https://api/"));
          (str "primaryAccounts",
           JObj [(str "urn:ietf:params:jmap:mail", JStr (str "u2"))])] in
  init (Some stored) (Resolved (mkResponse 200 (Some body)))
  = (Some fresh, AppShell fresh).
Proof.
  intros stored fresh body.
  exact (proj1 (proj1 (proj2 (start_keeps_the_session_unless_refused
                                stored (Resolved (mkResponse 200 (Some body)))))
                      fresh eq_refl)).
Defined.

End JmapCallFacts.

(** ** Attachments, sending and the sender address *)

Section ComposeFacts.
Import Text Compose.

Implicit Types (st : Pending) (l : list Attachment) (a : Attachment) (id : Z).

Lemma updateFirst_ids id f l :
  (forall a, _id (f a) = _id a) -> map _id (updateFirst id f l) = map _id l.
Proof.
  intros Hf. induction l as [|a l IH]; [done|]. cbn [updateFirst].
  destruct (_id a =? id); cbn [map]; by rewrite ?Hf, ?IH.
Qed.

Lemma updateFirst_absent id f l :
  ~ In id (map _id l) -> updateFirst id f l = l.
Proof.
  induction l as [|a l IH]; [done|]. cbn [map updateFirst]. intros Hn.
  destruct (Z.eqb_spec (_id a) id) as [E|E]; [exfalso; apply Hn; by left|].
  rewrite IH; [done|]. intros Hin. apply Hn. by right.
Qed.

Lemma removeFirst_ids id l y :
  In y (map _id (removeFirst id l)) -> In y (map _id l).
Proof.
  induction l as [|a l IH]; [done|]. cbn [removeFirst].
  destruct (_id a =? id); cbn [map]; [by right|].
  intros [<-|H]; [by left | right; auto].
Qed.

Lemma removeFirst_NoDup id l :
  NoDup (map _id l) ->
  NoDup (map _id (removeFirst id l)) /\ ~ In id (map _id (removeFirst id l)).
Proof.
  induction l as [|a l IH]; [by split; [|intros []]|]. cbn [map removeFirst].
  intros [Ha Hl]%NoDup_cons.
  destruct (Z.eqb_spec (_id a) id) as [E|E]; cbn beta iota.
  - split; [done|]. rewrite <- E. by rewrite <- list_elem_of_In.
  - destruct (IH Hl) as [IH1 IH2]. cbn [map]. split.
    all: cbn beta iota.
    + apply NoDup_cons. split; [|done].
      rewrite list_elem_of_In. intros Hin%removeFirst_ids.
      by apply Ha, list_elem_of_In.
    + intros [?|?]; done.
Qed.

Lemma selectFile_numbered file st :
  wellNumbered st ->
  wellNumbered (selectFile file st).1
  /\ attachmentIdCounter st <= attachmentIdCounter (selectFile file st).1
  /\ (forall y, In y (ids (selectFile file st).1) ->
        In y (ids st) \/ attachmentIdCounter st < y).
Proof.
  intros (Hd & Hr & H0). unfold selectFile.
  destruct (_ <? fileSize file); cbn [fst];
    [by split; [|split; [lia | auto]]|].
  unfold wellNumbered, ids in *. cbn [pendingAttachments attachmentIdCounter].
  rewrite map_app. cbn [map _id]. split; [split; [|split]|split].
  - apply NoDup_app. split; [done|]. split; [|apply NoDup_singleton].
    intros y Hy [<-|[]]%list_elem_of_In.
    apply list_elem_of_In in Hy. rewrite List.Forall_forall in Hr.
    specialize (Hr _ Hy). lia.
  - apply Forall_app. split.
    + eapply List.Forall_impl; [|exact Hr]. cbn. lia.
    + constructor; [|constructor]. lia.
  - lia.
  - lia.
  - intros y [Hy|[<-|[]]]%in_app_or; [by left | right; lia].
Qed.

Lemma handleFileSelect_numbered files st :
  wellNumbered st ->
  wellNumbered (handleFileSelect files st).1
  /\ attachmentIdCounter st <= attachmentIdCounter (handleFileSelect files st).1
  /\ (forall y, In y (ids (handleFileSelect files st).1) ->
        In y (ids st) \/ attachmentIdCounter st < y).
Proof.
  revert st. induction files as [|file files IH]; intros st Hw.
  - cbn. split; [done|]. split; [lia | auto].
  - cbn [handleFileSelect].
    destruct (selectFile_numbered file st Hw) as (Hw1 & Hc1 & Hi1).
    destruct (selectFile file st) as [st1 started]. cbn [fst] in *.
    destruct (IH st1 Hw1) as (Hw2 & Hc2 & Hi2).
    destruct (handleFileSelect files st1) as [st2 more]. cbn [fst] in *.
    split; [done|]. split; [lia|].
    intros y [Hy|Hy]%Hi2; [|right; lia].
    destruct (Hi1 y Hy); [by left | right; lia].
Qed.

(** One event: the numbering is kept, the counter does not go back, and
    an id the list comes to hold was in it or is above the old counter. *)
Lemma handle_numbered ev st :
  wellNumbered st ->
  wellNumbered (handle ev st)
  /\ attachmentIdCounter st <= attachmentIdCounter (handle ev st)
  /\ (forall y, In y (ids (handle ev st)) ->
        In y (ids st) \/ attachmentIdCounter st < y).
Proof.
  intros Hw. destruct ev as [files|id blob|id aborted|id|]; cbn [handle].
  - by apply handleFileSelect_numbered.
  - unfold uploadAttachment_then, wellNumbered, ids in *.
    cbn [pendingAttachments attachmentIdCounter].
    rewrite updateFirst_ids by done. split; [done|]. split; [lia | auto].
  - unfold uploadAttachment_catch. destruct aborted.
    + split; [done|]. split; [lia | auto].
    + unfold wellNumbered, ids in *. cbn [pendingAttachments attachmentIdCounter].
      rewrite updateFirst_ids by done. split; [done|]. split; [lia | auto].
  - destruct Hw as (Hd & Hr & H0).
    unfold handleAttachmentListClick, wellNumbered, ids in *.
    cbn [pendingAttachments attachmentIdCounter].
    split; [split; [|split]|split].
    + by apply removeFirst_NoDup.
    + rewrite List.Forall_forall in *. intros y Hy%removeFirst_ids. auto.
    + done.
    + lia.
    + intros y Hy%removeFirst_ids. by left.
  - destruct Hw as (Hd & Hr & H0). unfold clearCompose, wellNumbered, ids.
    cbn. split; [split; [constructor | split; [constructor | done]]|].
    split; [lia | by intros y []].
Qed.

Lemma run_numbered events st :
  wellNumbered st ->
  wellNumbered (run events st)
  /\ attachmentIdCounter st <= attachmentIdCounter (run events st)
  /\ (forall y, In y (ids (run events st)) ->
        In y (ids st) \/ attachmentIdCounter st < y).
Proof.
  unfold run. revert st. induction events as [|ev events IH]; intros st Hw.
  - cbn. split; [done|]. split; [lia | auto].
  - cbn [fold_left].
    destruct (handle_numbered ev st Hw) as (Hw1 & Hc1 & Hi1).
    destruct (IH _ Hw1) as (Hw2 & Hc2 & Hi2).
    split; [done|]. split; [lia|].
    intros y [Hy|Hy]%Hi2; [|right; lia].
    destruct (Hi1 y Hy); [by left | right; lia].
Qed.

(** X23. The pending attachments never share an id: whatever files are
    chosen, whatever the uploads answer and in whatever order, whatever is
    removed, and across [clearCompose], which does not reset the counter,
    the ids of the list are distinct and not above the counter; and the
    answer of an upload changes no id and drops no attachment. *)
Theorem attachment_ids_stay_distinct events st :
  wellNumbered st ->
  wellNumbered (run events st)
  /\ (forall id blob, ids (uploadAttachment_then id blob st) = ids st)
  /\ (forall id aborted, ids (uploadAttachment_catch id aborted st) = ids st).
Proof.
  intros Hw. split; [by apply run_numbered|]. split.
  - intros id blob. unfold ids, uploadAttachment_then. cbn.
    by apply updateFirst_ids.
  - intros id [|]; [done|]. unfold ids, uploadAttachment_catch. cbn.
    by apply updateFirst_ids.
Qed.

Lemma attachment_ids_stay_distinct_witness :
  let st := run [FilesSelected [mkFile (str "a.pdf") (str "application/pdf") 10;
                                mkFile (str "big.iso") [] 26214401;
                                mkFile (str "b.txt") [] 20];
                 RemoveClicked 1; ComposeCleared;
                 FilesSelected [mkFile (str "c.png") (str "image/png") 30]]
                (mkPending [] 0) in
  ids st = [3] /\ wellNumbered st.
Proof.
  intros st. split; [reflexivity|].
  assert (wellNumbered (mkPending [] 0)) as Hw.
  { split; [constructor|]. split; [constructor | reflexivity || lia]. }
  exact (proj1 (attachment_ids_stay_distinct _ (mkPending [] 0) Hw)).
Defined.

(** X24. An attachment that was removed, or dropped by [clearCompose],
    is out of reach of its upload for good: whatever happens afterwards,
    new files chosen included, no attachment of the list carries its id,
    and the answer of its upload, success or failure, changes nothing. *)
Theorem late_upload_answer_changes_nothing id events st st0 :
  wellNumbered st ->
  In id (ids st) ->
  st0 = handleAttachmentListClick id st \/ st0 = clearCompose st ->
  let st1 := run events st0 in
  ~ In id (ids st1)
  /\ (forall blob, uploadAttachment_then id blob st1 = st1)
  /\ (forall aborted, uploadAttachment_catch id aborted st1 = st1).
Proof.
  intros Hw Hin H0 st1.
  assert (wellNumbered st0 /\ ~ In id (ids st0)
          /\ id <= attachmentIdCounter st0) as (Hw0 & Hn0 & Hc0).
  { destruct Hw as (Hd & Hr & Hz).
    assert (id <= attachmentIdCounter st) as Hle.
    { rewrite List.Forall_forall in Hr. specialize (Hr _ Hin). lia. }
    destruct H0 as [-> | ->].
    - destruct (handle_numbered (RemoveClicked id) st) as (Hw' & _); [done|].
      split; [exact Hw'|]. split; [|exact Hle].
      by apply removeFirst_NoDup.
    - destruct (handle_numbered ComposeCleared st) as (Hw' & _); [done|].
      split; [exact Hw'|]. split; [by intros [] | exact Hle]. }
  destruct (run_numbered events st0 Hw0) as (_ & _ & Hi).
  assert (~ In id (ids st1)) as Hn1.
  { intros [Hy|Hy]%Hi; [done | lia]. }
  split; [done|]. split.
  - intros blob. unfold uploadAttachment_then.
    rewrite updateFirst_absent by done. by destruct st1.
  - intros [|]; [done|]. unfold uploadAttachment_catch.
    rewrite updateFirst_absent by done. by destruct st1.
Qed.

Lemma late_upload_answer_changes_nothing_witness :
  let st := (handleFileSelect [mkFile (str "a.pdf") (str "application/pdf") 10]
               (mkPending [] 0)).1 in
  let st1 := run [FilesSelected [mkFile (str "b.txt") [] 20]]
                 (handleAttachmentListClick 1 st) in
  ids st = [1] /\ ids st1 = [2]
  /\ uploadAttachment_then 1 (Some (str "blob-a")) st1 = st1.
Proof.
  intros st st1. split; [reflexivity|]. split; [reflexivity|].
  assert (wellNumbered st) as Hw.
  { split; [apply (bool_decide_unpack (NoDup _)); vm_compute; exact I|].
    split; [|by vm_compute]. change (ids st) with [1].
    constructor; [by vm_compute | constructor]. }
  assert (In 1 (ids st)) as Hin by (left; reflexivity).
  exact (proj1 (proj2 (late_upload_answer_changes_nothing
                         1 [FilesSelected [mkFile (str "b.txt") [] 20]]
                         st _ Hw Hin (or_introl eq_refl)))
               (Some (str "blob-a"))).
Defined.

Lemma addresses_spec value r :
  In r (addresses value) ->
  r <> [] /\ trim r = r /\ ~ In ","%char r /\ occursIn r value.
Proof.
  unfold addresses. intros [Hin Hne]%filter_In.
  apply in_map_iff in Hin as (p & <- & Hp).
  split; [by destruct (trim p)|]. split; [apply trim_trim|]. split.
  - intros H. apply (split_lacks_sep _ _ _ Hp).
    by apply (occursIn_In _ _ _ (trim_occurs p)).
  - apply (occursIn_trans _ p); [apply trim_occurs | by apply (split_occurs ","%char)].
Qed.

(** X25. [sendEmail] refuses, and says why, in two cases only: no
    recipient, or an upload pending. What it posts otherwise goes to the
    addresses of the [To] field and, in copy, to those of the [Cc] field:
    the pieces of the field between commas, trimmed, the empty ones left
    out, so that each is a stretch of its field without a comma or white
    space at an end. The subject is the one of the form, and the
    attachments are the ready ones, in their order: those whose upload
    failed are left out without a word. *)
Theorem sendEmail_posts_ready_attachments_only draft replyContext st :
  let recipient field r :=
    r <> [] /\ trim r = r /\ ~ In ","%char r /\ occursIn r field in
  let ready :=
    map (fun a => mkSent (blob_id a) (name a) (mime_type a) (size a))
        (List.filter (fun a => bool_decide (status a = Ready))
                     (pendingAttachments st)) in
  match sendEmail draft replyContext st with
  | Refused reason =>
      (reason = str "No recipients" /\ addresses (composeTo draft) = [])
      \/ (reason = str "Wait for uploads to finish"
          /\ addresses (composeTo draft) <> []
          /\ exists a, In a (pendingAttachments st) /\ status a = Uploading)
  | Posted message =>
      to message = addresses (composeTo draft)
      /\ to message <> []
      /\ cc message = addresses (composeCc draft)
      /\ Forall (recipient (composeTo draft)) (to message)
      /\ Forall (recipient (composeCc draft)) (cc message)
      /\ subject message = composeSubject draft
      /\ Forall (fun a => status a <> Uploading) (pendingAttachments st)
      /\ attachments message = match ready with [] => None | _ => Some ready end
  end.
Proof.
  cbn zeta. unfold sendEmail. cbn zeta.
  destruct (addresses (composeTo draft)) as [|r rs] eqn:T; [by left|].
  cbn [length Nat.eqb].
  destruct (existsb _ (pendingAttachments st)) eqn:U.
  - right. split; [done|]. split; [done|].
    apply existsb_exists in U as (a & Ha & Hs).
    apply bool_decide_eq_true in Hs. eauto.
  - cbn [to cc attachments subject]. split; [done|]. split; [done|]. split; [done|].
    assert (forall value,
              Forall (fun r => r <> [] /\ trim r = r /\ ~ In ","%char r
                               /\ occursIn r value)
                     (addresses value)) as Haddr.
    { intros value. apply List.Forall_forall. intros x Hx.
      by apply addresses_spec in Hx. }
    split; [rewrite <- T; apply Haddr|]. split; [apply Haddr|]. split; [done|].
    split.
    + apply List.Forall_forall. intros a Ha Hs.
      apply not_true_iff_false in U. apply U, existsb_exists.
      exists a. split; [done|]. by apply bool_decide_eq_true.
    + destruct (List.filter _ (pendingAttachments st)); done.
Qed.

Lemma identityFor_spec identities addr own :
  identityFor identities addr = Some own ->
  In own identities /\ toLowerCase own = toLowerCase addr.
Proof.
  unfold identityFor. intros [H1 H2]%find_some. split; [done|].
  by apply eqb_true.
Qed.

Lemma identityFor_none identities addr :
  identityFor identities addr = None ->
  existsb (fun i => eqb (toLowerCase i) (toLowerCase addr)) identities = false.
Proof.
  unfold identityFor. intros H. apply not_true_iff_false.
  intros (own & Hin & Hid)%existsb_exists.
  by rewrite (find_none _ _ H own Hin) in Hid.
Qed.

Lemma firstIdentity_spec identities recipients :
  match firstIdentity identities recipients with
  | Some own =>
      In own identities
      /\ exists r, In r recipients /\ r <> []
                   /\ toLowerCase own = toLowerCase r
  | None => existsb (isOwn identities) recipients = false
  end.
Proof.
  induction recipients as [|r rest IH]; [done|]. cbn [firstIdentity existsb].
  unfold isOwn at 1.
  destruct (Sanitizer.nonEmpty r) eqn:N; cbn [andb].
  - destruct (identityFor identities r) as [own|] eqn:F.
    + apply identityFor_spec in F as [H1 H2]. split; [done|].
      exists r. split; [by left|]. split; [by destruct r | done].
    + rewrite (identityFor_none _ _ F). cbn [orb].
      destruct (firstIdentity identities rest) as [own|]; [|done].
      destruct IH as (H1 & x & Hx & Hne & Hid). split; [done|].
      exists x. split; [by right | done].
  - destruct (firstIdentity identities rest) as [own|]; [|done].
    destruct IH as (H1 & x & Hx & Hne & Hid). split; [done|].
    exists x. split; [by right | done].
Qed.

(** X26. The sender address chosen for a reply is an own one, and [To]
    comes before [Cc]: the address [autoSelectFromAddress] sets is an
    identity, spelled as the identity is, equal in lower case to a
    recipient of the email; that recipient is one of [To] whenever [To]
    names an own address at all, whatever [Cc] names and in whatever
    order; and when neither names one the field is left alone. *)
Theorem sender_address_prefers_to_over_cc identities to cc :
  match autoSelectFromAddress identities to cc with
  | Some own =>
      In own identities
      /\ exists r, In r (if existsb (isOwn identities) to then to else cc)
                   /\ r <> [] /\ toLowerCase own = toLowerCase r
  | None =>
      existsb (isOwn identities) to = false
      /\ existsb (isOwn identities) cc = false
  end.
Proof.
  unfold autoSelectFromAddress. destruct identities as [|i0 identities'] eqn:I.
  - split; [induction to as [|r to' IH] | induction cc as [|r cc' IH]];
      try done; cbn [existsb]; unfold isOwn at 1; cbn [existsb];
      by rewrite andb_false_r.
  - rewrite <- I. clear I.
    pose proof (firstIdentity_spec identities to) as Ht.
    pose proof (firstIdentity_spec identities cc) as Hc.
    destruct (firstIdentity identities to) as [own|].
    + destruct Ht as (H1 & r & Hr & Hne & Hid). split; [done|].
      assert (existsb (isOwn identities) to = true) as ->.
      { apply existsb_exists. exists r. split; [done|]. unfold isOwn.
        apply andb_true_iff. split; [by destruct r|].
        apply existsb_exists. exists own. split; [done|]. by apply eqb_true. }
      eauto.
    + rewrite Ht. destruct (firstIdentity identities cc) as [own|]; [|done].
      destruct Hc as (H1 & r & Hr & Hne & Hid). eauto.
Qed.

End ComposeFacts.

(** ** Opening a mailbox, and two actions in flight *)

Section OverlapFacts.
Import Text Engine Navigation.

Implicit Types (st : State) (l : list Email) (e : Email).

(** X27. A mailbox is always opened on its first page, unfiltered:
    [selectMailbox] asks for the emails of the mailbox from offset 0 with
    no search and no split, whatever search and split were in use, and,
    for the inbox with split tabs defined, for the counts of the tabs;
    it asks for nothing else. The search is emptied and the counts are
    dropped; the list, the selection and the undo stack are left as they
    are until the page arrives. *)
Theorem selectMailbox_asks_for_the_first_page m st :
  let r := selectMailbox m st in
  r.2 = Api (GetEmails (mailboxId m) 0 None [])
        :: (if isInbox m && (0 <? length (splits st))%nat
            then [GetSplitCounts (mailboxId m)] else [])
  /\ currentMailbox r.1 = Some m
  /\ searchQuery r.1 = []
  /\ splitCounts r.1 = ∅
  /\ emails r.1 = emails st
  /\ selectedIndex r.1 = selectedIndex st
  /\ undoStack r.1 = undoStack st.
Proof.
  cbn zeta. unfold selectMailbox, loadEmails, loadSplitCounts, noTabs,
    buildEmailListUrl.
  cbn -[isInbox Nat.ltb Nat.eqb]. split; [|done]. f_equal.
  - f_equal. f_equal.
    destruct (isInbox m) eqn:I; cbn -[Nat.ltb]; [|done].
    by rewrite bool_decide_true.
  - destruct (isInbox m) eqn:I; cbn -[Nat.ltb Nat.eqb]; [|done].
    by destruct (length (splits st)).
Qed.

(** X28. The rollback of a failed action takes the last entry of the undo
    stack, whichever it is. If a second action was taken before the first
    one failed, the entry taken away is the second one's: the first email
    is back in the list with its own entry still on the stack, and the
    second email is gone from the list with no entry left to undo it. *)
Theorem failed_action_pops_the_entry_of_a_later_one type x y now later st ex ey :
  distinctIds (emails st) ->
  findEmail x (emails st) = Some ex ->
  findEmail y (emails st) = Some ey ->
  x <> y ->
  let r1 := emailAction type x now st in
  let r2 := emailAction type y later r1.1.1 in
  let st3 := emailAction_catch r1.2.1 r1.2.2 r2.1.1 in
  (exists label,
     undoStack st3
     = mkUndo label x (Some ex) (indexOf (Some ex) (emails st)) now :: undoStack st)
  /\ In ex (emails st3)
  /\ ~ In ey (emails st3).
Proof.
  intros Hd Fx Fy Hxy r1 r2 st3.
  destruct (emailAction_sync type x now st) as (He1 & (l1 & Hu1) & Hc1).
  fold r1 in He1, Hu1, Hc1.
  destruct (emailAction_sync type y later r1.1.1) as (He2 & (l2 & Hu2) & _).
  fold r2 in He2, Hu2.
  destruct (emailAction_catch_lists r1.2.1 r1.2.2 r2.1.1) as (He3 & Hu3).
  fold st3 in He3, Hu3.
  rewrite Hc1, Fx in *. cbn [fst snd] in *.
  split; [|split].
  - exists l1. by rewrite Hu3, Hu2, Hu1.
  - rewrite He3. unfold spliceIn. apply in_or_app. right. by left.
  - rewrite He3, He2, He1. unfold spliceIn. intros Hin.
    apply findEmail_Some in Fx as (_ & _ & _ & Hidx & _).
    pose proof Fy as (pre & post & Hl & Hidy & Hpre)%findEmail_Some.
    assert (~ In ey (withoutId y (withoutId x (emails st)))) as Hno.
    { intros [_ Hp]%filter_In. apply negb_true_iff, eqb_false in Hp. done. }
    match type of Hin with In _ (firstn ?k ?l ++ _ :: skipn ?k ?l) =>
      apply in_app_or in Hin as [Hin|[Hin|Hin]];
      [ apply Hno; rewrite <- (firstn_skipn k l); apply in_or_app; by left
      | subst ey; congruence
      | apply Hno; rewrite <- (firstn_skipn k l); apply in_or_app; by right ]
    end.
Qed.

Lemma failed_action_pops_the_entry_of_a_later_one_witness :
  let st := Sample.listing Sample.inbox [Sample.a; Sample.b; Sample.c] in
  let r1 := emailAction (str "archive") (str "b") 7 st in
  let r2 := emailAction (str "archive") (str "a") 8 r1.1.1 in
  let st3 := emailAction_catch r1.2.1 r1.2.2 r2.1.1 in
  emails st3 = [Sample.c; Sample.b]
  /\ map emailId (undoStack st3) = [str "b"]
  /\ In Sample.b (emails st3) /\ ~ In Sample.a (emails st3).
Proof.
  intros st r1 r2 st3.
  split; [vm_compute; reflexivity|]. split; [vm_compute; reflexivity|].
  assert (distinctIds (emails st)) as Hd.
  { unfold distinctIds. apply (bool_decide_unpack (NoDup _)). vm_compute. exact I. }
  assert (str "b" <> str "a") as Hne by discriminate.
  exact (proj2 (failed_action_pops_the_entry_of_a_later_one
                  (str "archive") (str "b") (str "a") 7 8 st Sample.b Sample.a
                  Hd eq_refl eq_refl Hne)).
Defined.

End OverlapFacts.

(** ** Moving the selection *)

Section SelectionFacts.
Import Text Engine Navigation.

Implicit Types (st : State) (l : list Email) (e : Email).

(** What [loadEmailDetail] makes the open email, for an email of the
    list. *)
Lemma loadEmailDetail_current x e st :
  findEmail x (emails st) = Some e ->
  view (loadEmailDetail x st).1 = DetailView
  /\ currentEmail (loadEmailDetail x st).1 = Some (default e (emailCache st !! x))
  /\ selectedIndex (loadEmailDetail x st).1 = selectedIndex st.
Proof.
  intros F. destruct (loadEmailDetail_keeps x st) as [_ Hs].
  split; [|split; [|done]]; unfold loadEmailDetail; cbn zeta;
    destruct (saveScrollPosition_cache st) as [Hc He]; rewrite Hc, He, F;
    destruct (emailCache st !! x) as [cached|]; cbn [fst default];
    match goal with |- context [showView DetailView ?s] =>
      destruct (showView_cache DetailView s) as (_ & _ & Hcur & _ & _ & Hv)
    end; by rewrite ?Hv, ?Hcur.
Qed.

(** X29. [j] and [k] never leave the list, and in the detail view the
    open email follows the selection: a move that would pass either end
    changes nothing and sends nothing; any other move selects the row, and
    in the detail view opens it, from the cache if the cache holds it and
    from the list if not. The ids of the list are distinct. *)
Theorem moveSelection_opens_the_selected_row delta st :
  distinctIds (emails st) ->
  let target := selectedIndex st + delta in
  let r := moveSelection delta st in
  (target < 0 \/ len st <= target -> r = (st, []))
  /\ (forall e, 0 <= target ->
        nth_error (emails st) (Z.to_nat target) = Some e ->
        selectedIndex r.1 = target
        /\ (view st = DetailView ->
            view r.1 = DetailView
            /\ currentEmail r.1 = Some (default e (emailCache st !! id e)))).
Proof.
  intros Hd target r. subst r. unfold moveSelection. fold target. split.
  - intros H.
    destruct (Z.ltb_spec target 0), (Z.leb_spec (len st) target); cbn [orb];
      try done; lia.
  - intros e H0 Hn.
    assert (target < len st) as Hlt.
    { unfold len. assert (Z.to_nat target < length (emails st))%nat
        by (apply nth_error_Some; by rewrite Hn). lia. }
    destruct (Z.ltb_spec target 0), (Z.leb_spec (len st) target); try lia.
    cbn [orb]. cbn zeta. cbn [view set_selectedIndex emails selectedIndex].
    rewrite Hn.
    destruct (view st) eqn:V; try (split; [done | by intros [=]]).
    apply nth_error_split in Hn as (pre & post & Hl & _).
    assert (findEmail (id e) (emails (set_selectedIndex target st)) = Some e) as F.
    { cbn [emails set_selectedIndex]. rewrite Hl. apply findEmail_distinct.
      by rewrite <- Hl. }
    destruct (loadEmailDetail_current _ _ _ F) as (Hv & Hc & Hs).
    split; [by rewrite Hs|]. intros _. by rewrite Hv, Hc.
Qed.

Lemma moveSelection_opens_the_selected_row_witness :
  let st := set_currentEmail (Some Sample.a)
              (set_view DetailView
                 (Sample.listing Sample.inbox [Sample.a; Sample.b; Sample.c])) in
  moveSelection (-1) st = (st, [])
  /\ selectedIndex (moveSelection 1 st).1 = 1
  /\ currentEmail (moveSelection 1 st).1 = Some Sample.b.
Proof.
  intros st.
  assert (distinctIds (emails st)) as Hd.
  { unfold distinctIds. apply (bool_decide_unpack (NoDup _)). vm_compute. exact I. }
  split.
  - apply (proj1 (moveSelection_opens_the_selected_row (-1) st Hd)).
    left. by vm_compute.
  - destruct (proj2 (moveSelection_opens_the_selected_row 1 st Hd)
                Sample.b ltac:(by vm_compute) eq_refl) as [H1 H2].
    split; [exact H1 | exact (proj2 (H2 eq_refl))].
Defined.

End SelectionFacts.

(** ** The selection under every handler *)

Section RunFacts.
Import Text Engine Navigation Run.

Implicit Types (st : State) (l : list Email) (e : Email).

Lemma loadEmailDetail_undo x st :
  undoStack (loadEmailDetail x st).1 = undoStack st.
Proof.
  unfold loadEmailDetail, showView, renderEmailDetail, saveScrollPosition.
  cbn zeta. repeat (case_match; try done).
Qed.

Lemma loadEmailDetail_then_keeps x email st :
  undoStack (loadEmailDetail_then x email st).1 = undoStack st
  /\ emails (loadEmailDetail_then x email st).1 = emails st
  /\ selectedIndex (loadEmailDetail_then x email st).1 = selectedIndex st.
Proof.
  unfold loadEmailDetail_then, showView, renderEmailDetail, saveScrollPosition.
  cbn zeta. repeat (case_match; try done).
Qed.

Lemma showView_undo v st : undoStack (showView v st) = undoStack st.
Proof. unfold showView, saveScrollPosition. by repeat case_match. Qed.

Lemma maybeRefillEmails_undo st :
  undoStack (maybeRefillEmails st).1 = undoStack st.
Proof. by destruct (maybeRefillEmails_state st) as [-> | ->]. Qed.

Lemma goToNextEmail_undo st : undoStack (goToNextEmail st).1 = undoStack st.
Proof.
  unfold goToNextEmail. destruct (len st =? 0).
  - by rewrite maybeRefillEmails_undo, showView_undo.
  - cbn zeta. destruct (selected _) as [next|].
    + match goal with |- context [loadEmailDetail ?y ?s] =>
        pose proof (loadEmailDetail_undo y s) as Hu;
        destruct (loadEmailDetail y s) as [s1 reqs] end.
      pose proof (maybeRefillEmails_undo s1) as Hu'.
      destruct (maybeRefillEmails s1) as [s2 reqs']. cbn [fst] in *.
      by rewrite Hu', Hu.
    + match goal with |- context [maybeRefillEmails ?s] =>
        pose proof (maybeRefillEmails_undo s) as Hu';
        destruct (maybeRefillEmails s) as [s2 reqs'] end.
      cbn [fst] in *. by rewrite Hu', showView_undo.
Qed.

Lemma indexOf_found x l e :
  findEmail x l = Some e -> 0 <= indexOf (Some e) l.
Proof.
  intros (pre & post & -> & <- & Hpre)%findEmail_Some. cbn [indexOf].
  rewrite indexOfFrom_cut by done. lia.
Qed.

Lemma emailAction_steady type x now st :
  steady st -> steady (emailAction type x now st).1.1.
Proof.
  intros [Hb Hu]. split.
  - unfold emailAction. cbn zeta.
    match goal with |- context [removeEmailFromList ?y ?s] =>
      pose proof (removeEmailFromList_inBounds y s) as H;
      destruct (removeEmailFromList y s) as [s1 reqs] end.
    cbn [fst] in *. apply (inBounds_same s1); [done | done |].
    apply H. cbn. by apply inBounds_nonneg.
  - destruct (emailAction_sync type x now st) as (_ & (label & ->) & _).
    cbn [forallb]. rewrite Hu, andb_true_r. unfold undoable. cbn [emailData insertIndex].
    destruct (findEmail x (emails st)) as [e|] eqn:F; [|done].
    apply Z.leb_le. by eapply indexOf_found.
Qed.

Lemma performUndo_steady st : steady st -> steady (performUndo st).1.1.
Proof.
  intros [Hb Hu]. unfold performUndo.
  destruct (undoStack st) as [|item rest] eqn:S;
    [cbn [fst]; split; [done | by rewrite S]|].
  cbn [forallb] in Hu. apply andb_true_iff in Hu as [Hi Hr].
  cbn zeta. cbn [fst]. split.
  - destruct (emailData item) as [e|] eqn:D.
    + pose proof (performUndo_inBounds st Hb) as H.
      unfold performUndo in H. rewrite S in H. cbn zeta in H. cbn [fst] in H.
      rewrite D in H. apply H. intros it [= <-].
      unfold undoable in Hi. rewrite D in Hi. by apply Z.leb_le.
    + by apply (inBounds_same st).
  - by destruct (emailData item).
Qed.

Lemma unsubscribeAndArchiveAll_undo st :
  undoStack (unsubscribeAndArchiveAll st).1.1 = undoStack st.
Proof.
  unfold unsubscribeAndArchiveAll.
  destruct (getSelectedEmailId st) as [[|c i]|]; try done.
  cbn zeta. destruct (toLowerCase <$> _) as [[|c' s']|]; cbn beta iota zeta.
  all: match goal with |- context [view ?s] =>
         assert (undoStack s = undoStack st) as Hs
           by (try (unfold clampSelection; destruct (_ <=? _)); done);
         destruct (view s) end; try done.
  all: match goal with |- context [goToNextEmail ?s] =>
         pose proof (goToNextEmail_undo s) as Hg;
         destruct (goToNextEmail s) end; cbn [fst] in *; congruence.
Qed.

(** X30. The selection stays in the list under every handler but one.
    From a state where [selectedIndex] is a position of the list (0 for the
    empty list) and every undo entry that holds an email has an index from
    0, each of the handlers and continuations of [Step] (the actions and
    their rollback, undo, the moves, opening, unsubscribe and its rollback,
    the refill and the loads, the mailbox, the tabs, the search, the views)
    leads to such a state again, and so does any sequence of them. The one
    left out is the rollback of a failed undo. *)
Theorem selection_stays_in_the_list st st' :
  steady st -> Steps st st' -> steady st'.
Proof.
  intros Hs Hsteps. induction Hsteps as [|st1 st2 _ IH Hstep]; [done|].
  clear Hs. destruct IH as [Hb Hu].
  destruct Hstep.
  - by apply emailAction_steady.
  - split; [by apply emailAction_catch_inBounds|].
    destruct (emailAction_catch_lists removed index st1) as (_ & ->).
    destruct (undoStack st1); [done|]. cbn in Hu. by apply andb_true_iff in Hu as [_ ?].
  - by apply performUndo_steady.
  - split; [by apply moveSelection_inBounds|].
    unfold moveSelection. destruct (_ || _); [done|]. cbn zeta.
    repeat case_match; try done. by rewrite loadEmailDetail_undo.
  - split; [|done]. unfold inBounds, moveToTop, len in *. cbn.
    destruct (Z.eqb_spec (Z.of_nat (length (emails st1))) 0); lia.
  - split; [|done]. unfold inBounds, moveToBottom, len in *. cbn.
    destruct (Z.eqb_spec (Z.of_nat (length (emails st1))) 0); lia.
  - unfold openSelected. destruct (selected st1) as [e|]; [|done].
    destruct (loadEmailDetail_keeps (id e) st1) as [He Hsel].
    split; [by apply (inBounds_same st1) | by rewrite loadEmailDetail_undo].
  - unfold actionSelected.
    destruct (getSelectedEmailId st1) as [[|c i]|]; try done.
    destruct (emailAction_steady type (c :: i) now st1 (conj Hb Hu)) as [Hb1 Hu1].
    destruct (emailAction type (c :: i) now st1) as [[s1 reqs] removed].
    cbn [fst] in *. destruct (view s1); try done.
    pose proof (goToNextEmail_inBounds s1 Hb1) as Hb2.
    pose proof (goToNextEmail_undo s1) as Hu2.
    destruct (goToNextEmail s1) as [s2 reqs']. cbn [fst] in *.
    split; [done | by rewrite Hu2].
  - split; [by apply goToNextEmail_inBounds | by rewrite goToNextEmail_undo].
  - split; [by apply unsubscribeAndArchiveAll_inBounds
           | by rewrite unsubscribeAndArchiveAll_undo].
  - split; [by apply unsubscribeAndArchiveAll_catch_inBounds|].
    unfold unsubscribeAndArchiveAll_catch. by destruct (0 <? _)%nat.
  - destruct (maybeRefillEmails_keeps st1) as (He & Hun & Hsel & _).
    split; [by apply (inBounds_same st1) | by rewrite Hun].
  - split.
    + unfold maybeRefillEmails_then. destruct (_ || _); [done|].
      destruct (0 <? _)%nat; [|done].
      apply (inBounds_grow st1); [|done|done]. cbn. rewrite length_app. lia.
    + unfold maybeRefillEmails_then. by repeat case_match.
  - done.
  - destruct (loadEmailDetail_keeps x st1) as [He Hsel].
    split; [by apply (inBounds_same st1) | by rewrite loadEmailDetail_undo].
  - destruct (loadEmailDetail_then_keeps x email st1) as (Hun & He & Hsel).
    split; [by apply (inBounds_same st1) | by rewrite Hun].
  - done.
  - split; [|done]. unfold inBounds, loadEmails_then, len. cbn.
    destruct (Z.eqb_spec (Z.of_nat (length page)) 0); lia.
  - destruct (selectMailbox_state m st1) as (_ & _ & He).
    assert (selectedIndex (selectMailbox m st1).1 = selectedIndex st1
            /\ undoStack (selectMailbox m st1).1 = undoStack st1) as [Hsel Hun].
    { unfold selectMailbox. cbn zeta.
      match goal with |- context [loadEmails ?s] =>
        pose proof (loadEmails_state s) as H; destruct (loadEmails s) as [s1 reqs]
      end. cbn [fst] in *. by subst s1. }
    split; [by apply (inBounds_same st1) | by rewrite Hun].
  - unfold cycleSplit. destruct (noTabs st1); [done|]. cbn zeta.
    unfold selectSplit. by rewrite loadEmails_state.
  - unfold selectSplitByIndex. destruct (noTabs st1); [done|]. cbn zeta.
    destruct (_ && _); [|done]. unfold selectSplit. by rewrite loadEmails_state.
  - unfold submitSearch. by rewrite loadEmails_state.
  - destruct (showView_keeps v st1) as [He Hsel].
    split; [by apply (inBounds_same st1) | by rewrite showView_undo].
Qed.

Lemma selection_stays_in_the_list_witness :
  let st0 := Sample.listing Sample.inbox [Sample.a; Sample.b; Sample.c] in
  let st1 := (moveToBottom st0) in
  let st2 := (emailAction (str "archive") (str "c") 7 st1).1.1 in
  let st3 := (performUndo st2).1.1 in
  steady st0 /\ selectedIndex st2 = 1 /\ selectedIndex st3 = 2 /\ steady st3.
Proof.
  intros st0 st1 st2 st3.
  assert (steady st0) as H0.
  { split; [|reflexivity]. unfold inBounds, st0. vm_compute. by split. }
  split; [exact H0|]. split; [reflexivity|]. split; [reflexivity|].
  apply (selection_stays_in_the_list st0 st3 H0).
  apply (steps_more st0 st2 st3); [|apply step_performUndo].
  apply (steps_more st0 st1 st2); [|apply step_emailAction].
  apply (steps_more st0 st0 st1); [apply steps_none | apply step_moveToBottom].
Defined.

End RunFacts.
